(** * Metadata builder of the Home Credit data pipeline

    A shallow embedding of [src/homecredit/data/utils_old.py]
    ([set_dtypes], [sort_paths], [write_data_props]) and the properties
    its specification states about them.

    Conventions of the embedding.
    - A Python [str] is a Rocq [string]; each character stands for one
      code point below 256.
    - A Python [dict] is an association list in insertion order
      ([Module dict]): [d[k] = v] overwrites in place or appends.
    - An exception is a value of [exn]; a call that may raise returns a
      [result].  Where the source mutates an object in place and may
      raise half-way ([set_dtypes]), the state reached is kept next to
      the exception.
    - The file system, the parquet reader, the CSV reader and the
      constants imported from [..config] are fields of an environment
      record [Env]; [pickle.dump] is a parameter of [write_data_props]. *)

From Stdlib Require Import List String Ascii ZArith Lia Bool Arith.
From Stdlib Require Import Permutation Sorted.
Import ListNotations.

Local Open Scope string_scope.
Local Open Scope list_scope.

(** ** Exceptions and results *)

Inductive exn : Type :=
| IndexError
| ValueError
| KeyError
| NameError
| TypeError
| OSError.

Inductive result (A : Type) : Type :=
| Ok (a : A)
| Raise (e : exn).

Arguments Ok {A} a.
Arguments Raise {A} e.

Definition bind {A B : Type} (r : result A) (k : A -> result B) : result B :=
  match r with
  | Ok a => k a
  | Raise e => Raise e
  end.

Notation "x <- r ;; k" := (bind r (fun x => k))
  (at level 61, r at next level, right associativity).

(** A list comprehension whose element expression may raise: elements are
    evaluated left to right and the first exception escapes. *)
Fixpoint comprehension {A B : Type} (f : A -> result B) (l : list A)
  : result (list B) :=
  match l with
  | [] => Ok []
  | a :: l' =>
      b <- f a ;;
      bs <- comprehension f l' ;;
      Ok (b :: bs)
  end.

(** ** The Python built-ins the source calls *)

Module py.

  (** [s.split(sep)] for a one-character separator: never the empty list. *)
Fixpoint split (sep : ascii) (s : string) : list string :=
    match s with
    | EmptyString => [EmptyString]
    | String c s' =>
        if Ascii.eqb c sep then EmptyString :: split sep s'
        else match split sep s' with
             | h :: t => String c h :: t
             | [] => [String c EmptyString]
             end
    end.

  (** [l[-1]] and [l[0]] on a list of strings. *)
Definition item_last (l : list string) : result string :=
    match l with
    | [] => Raise IndexError
    | _ => Ok (List.last l EmptyString)
    end.

Definition item0 {A : Type} (l : list A) : result A :=
    match l with
    | [] => Raise IndexError
    | a :: _ => Ok a
    end.

  (** [s[-1]]: the last character, [IndexError] on the empty string. *)
Fixpoint last_char (s : string) : option ascii :=
    match s with
    | EmptyString => None
    | String c EmptyString => Some c
    | String _ s' => last_char s'
    end.

  (** Characters [int()] skips around a literal: tab to carriage return,
      space, and (in a non-ASCII string) NEL and the no-break space. *)
Definition is_space (c : ascii) : bool :=
    let n := nat_of_ascii c in
    ((9 <=? n) && (n <=? 13) || (n =? 32) || (n =? 133) || (n =? 160))%nat.

Definition is_digit (c : ascii) : bool :=
    let n := nat_of_ascii c in
    ((48 <=? n) && (n <=? 57))%nat.

Definition digit_val (c : ascii) : Z :=
    Z.of_nat (nat_of_ascii c - 48).

Fixpoint lstrip (s : string) : string :=
    match s with
    | String c s' => if is_space c then lstrip s' else s
    | EmptyString => EmptyString
    end.

  (** Decimal digits, single underscores allowed between two digits;
      returns the value read and what is left. *)
Fixpoint digits (s : string) (acc : Z) : option (Z * string) :=
    match s with
    | EmptyString => Some (acc, EmptyString)
    | String c s' =>
        if is_digit c then digits s' (10 * acc + digit_val c)%Z
        else if Ascii.eqb c "_"%char then
               match s' with
               | String c' _ => if is_digit c' then digits s' acc else None
               | EmptyString => None
               end
             else Some (acc, s)
    end.

  (** [int(s)] in base ten: optional blanks, optional sign, digits,
      optional blanks; anything else is a [ValueError].  The cap the
      interpreter puts on the length of a literal (4300 digits by
      default, more than a path can hold) is left out. *)
Definition int (s : string) : result Z :=
    let s1 := lstrip s in
    let '(sign, s2) :=
      match s1 with
      | String "+"%char r => (1%Z, r)
      | String "-"%char r => ((-1)%Z, r)
      | _ => (1%Z, s1)
      end in
    match s2 with
    | String c _ =>
        if is_digit c then
          match digits s2 0%Z with
          | Some (n, rest) =>
              match lstrip rest with
              | EmptyString => Ok (sign * n)%Z
              | _ => Raise ValueError
              end
          | None => Raise ValueError
          end
        else Raise ValueError
    | EmptyString => Raise ValueError
    end.

  (** Order of [(int, str)] tuples: the first components decide unless
      they are equal, then the strings, compared code point by code point. *)
Definition tuple_ltb (a b : Z * string) : bool :=
    ((fst a <? fst b)%Z || ((fst a =? fst b)%Z && String.ltb (snd a) (snd b))).

  (** [sorted]: a stable sort that only asks [<] of its elements. *)
Fixpoint insort (x : Z * string) (l : list (Z * string)) : list (Z * string) :=
    match l with
    | [] => [x]
    | y :: l' => if tuple_ltb y x then y :: insort x l' else x :: y :: l'
    end.

Fixpoint sorted (l : list (Z * string)) : list (Z * string) :=
    match l with
    | [] => []
    | x :: l' => insort x (sorted l')
    end.

Definition zip {A B : Type} (l : list A) (l' : list B) : list (A * B) :=
    List.combine l l'.

End py.

(** ** [sort_paths] *)

(** [int(path.split("_")[-1].split(".")[0])] *)
Definition path_num (path : string) : result Z :=
  seg <- py.item_last (py.split "_" path) ;;
  stem <- py.item0 (py.split "." seg) ;;
  py.int stem.

(** The part of a path [int] is applied to: what follows the last
    underscore, up to the first dot after it. *)
Definition trailing_suffix (path : string) : string :=
  List.hd EmptyString
    (py.split "." (List.last (py.split "_" path) EmptyString)).

(** A suffix is numeric, with value [n], when [int] accepts it. *)
Definition numeric (s : string) (n : Z) : Prop := py.int s = Ok n.

Definition sort_paths (paths : list string) : result (list string) :=
  if (List.length paths =? 1)%nat then Ok paths
  else
    paths_nums <- comprehension path_num paths ;;
    let sorted_paths := List.map snd (py.sorted (py.zip paths_nums paths)) in
    Ok sorted_paths.

(** ** Dictionaries *)

(** A Python [dict] with string keys, in insertion order.  [get] reads the
    first binding of a key and [set] overwrites it where it stands, so the
    lemmas below need no uniqueness assumption on the keys. *)
Module dict.
Section Dict.
Context {V : Type}.

Definition t : Type := list (string * V).

Definition empty : t := [].

Fixpoint get (k : string) (d : t) : option V :=
      match d with
      | [] => None
      | (k', v) :: d' => if String.eqb k' k then Some v else get k d'
      end.

    (** [d[k]]: [KeyError] on a missing key. *)
Definition getitem (k : string) (d : t) : result V :=
      match get k d with
      | Some v => Ok v
      | None => Raise KeyError
      end.

    (** [d[k] = v] *)
Fixpoint set (k : string) (v : V) (d : t) : t :=
      match d with
      | [] => [(k, v)]
      | (k', v') :: d' =>
          if String.eqb k' k then (k', v) :: d' else (k', v') :: set k v d'
      end.

    (** [d.update(other)] *)
Definition update (d other : t) : t :=
      fold_left (fun acc kv => set (fst kv) (snd kv) acc) other d.

Definition keys (d : t) : list string := List.map fst d.

    (** [{k: f(k) for k in ks}] *)
Definition comprehension (f : string -> V) (ks : list string) : t :=
      fold_left (fun acc k => set k (f k) acc) ks empty.
End Dict.
Arguments t V : clear implicits.
End dict.

(** ** Column dtypes and schemas *)

Module pl.
  (** The polars dtypes the source names, those a parquet file may carry
      besides, and [PyNone] for a schema value that is Python's [None]
      (the specification's example builds such a schema). *)
Inductive DataType : Type :=
  | Int64
  | Float64
  | String
  | Date
  | Datetime
  | Boolean
  | Int32
  | Null
  | PyNone.
End pl.

Definition Schema : Type := dict.t pl.DataType.

(** The constants of [..config] the source imports.  [config.py] is not
    part of the sources at hand: the constants are fields of a record and
    every statement below holds for whatever values they have, unless it
    says otherwise. *)
Record Config : Type := {
  COL_DATE : string;
  COL_ID : string;
  COL_WEEK : string;
  PATH_DATA : string;
  PATH_FEATURES : string
}.

(** [x in [a, b, ...]] on strings and on characters. *)
Definition str_in (x : string) (l : list string) : bool :=
  existsb (String.eqb x) l.

Definition chr_in (c : ascii) (l : list ascii) : bool :=
  existsb (Ascii.eqb c) l.

(** ** [set_dtypes] *)

(** The two list literals of the source: the columns forced to integer
    and the column forced to date. *)
Definition int_columns (cfg : Config) : list string :=
  [COL_ID cfg; COL_WEEK cfg; "num_group1"; "num_group2"].

Definition date_columns (cfg : Config) : list string :=
  [COL_DATE cfg].

(** One turn of the loop on column [col].  The schema is updated in place,
    so the state is returned together with the exception, if any:
    [col[-1]] raises [IndexError] on the empty name. *)
Definition set_dtypes_body (cfg : Config) (col : string) (schema : Schema)
  : Schema * option exn :=
  if str_in col (int_columns cfg) then
    (dict.set col pl.Int64 schema, None)
  else if str_in col (date_columns cfg) then
    (dict.set col pl.Date schema, None)
  else
    match py.last_char col with
    | None => (schema, Some IndexError)
    | Some c =>
        if chr_in c ["P"; "A"]%char then (dict.set col pl.Float64 schema, None)
        else if chr_in c ["M"]%char then (dict.set col pl.String schema, None)
        else if chr_in c ["D"]%char then (dict.set col pl.Date schema, None)
        else if chr_in c ["T"; "L"]%char then (schema, None)
        else (schema, None)
    end.

(** [for col, dtype in schema.items(): ...] over the keys of the schema
    as they stand when the loop starts (the loop never adds a key). *)
Fixpoint set_dtypes_loop (cfg : Config) (cols : list string) (schema : Schema)
  : Schema * option exn :=
  match cols with
  | [] => (schema, None)
  | col :: rest =>
      match set_dtypes_body cfg col schema with
      | (schema', None) => set_dtypes_loop cfg rest schema'
      | (schema', Some e) => (schema', Some e)
      end
  end.

(** The schema object after the call, and the exception that ended it. *)
Definition set_dtypes_run (cfg : Config) (schema : Schema) : Schema * option exn :=
  set_dtypes_loop cfg (dict.keys schema) schema.

(** The call as its caller sees it: the schema returned, or the exception. *)
Definition set_dtypes (cfg : Config) (schema : Schema) : result Schema :=
  match set_dtypes_run cfg schema with
  | (schema', None) => Ok schema'
  | (_, Some e) => Raise e
  end.

(** ** Frames: the parquet samples and the features table *)

(** A cell of a parquet column; a null cell is [None]. *)
Inductive pyval : Type :=
| PStr (s : string)
| PInt (z : Z)
| PBool (b : bool).

Definition pyval_eqb (a b : pyval) : bool :=
  match a, b with
  | PStr s, PStr s' => String.eqb s s'
  | PInt z, PInt z' => Z.eqb z z'
  | PBool x, PBool x' => Bool.eqb x x'
  | _, _ => false
  end.

Definition cell_eqb (a b : option pyval) : bool :=
  match a, b with
  | None, None => true
  | Some x, Some y => pyval_eqb x y
  | _, _ => false
  end.

Module polars.

Record Series : Type := {
  name : string;
  dtype : pl.DataType;
  values : list (option pyval)
}.

Definition DataFrame : Type := list Series.

(** [df.columns] *)
Definition columns (df : DataFrame) : list string := List.map name df.

(** [df.schema]: a fresh mapping at every access. *)
Definition schema (df : DataFrame) : Schema :=
  List.map (fun s => (name s, dtype s)) df.

(** [df[col]] *)
Definition getitem (df : DataFrame) (col : string) : result Series :=
  match List.find (fun s => String.eqb (name s) col) df with
  | Some s => Ok s
  | None => Raise KeyError
  end.

(** [series.unique()]: each distinct cell once (the library leaves the
    order open; first occurrences are kept here and no statement below
    depends on the order). *)
Fixpoint unique (l : list (option pyval)) : list (option pyval) :=
  match l with
  | [] => []
  | x :: l' => x :: List.filter (fun y => negb (cell_eqb x y)) (unique l')
  end.

End polars.

Module pd.

(** A row of the features table once [fillna] with the empty string and
    [set_index("feature")] are done: [feature] is the index label. *)
Record FeatureRow : Type := {
  feature : string;
  source_group : string;
  new_name : string;
  agg : string;
  date_col : option Z
}.

Definition DataFrame : Type := list FeatureRow.

(** [df.index.values] *)
Definition index_values (df : DataFrame) : list string := List.map feature df.

(** What [df.loc[label][field]] evaluates to: the field of the row when
    the label is on one row, a series of fields when it is on several. *)
Inductive cell : Type :=
| Scalar (s : string)
| Series (l : list string).

Definition loc (df : DataFrame) (label : string) (field : FeatureRow -> string)
  : result cell :=
  match List.filter (fun r => String.eqb (feature r) label) df with
  | [] => Raise KeyError
  | [r] => Ok (Scalar (field r))
  | rs => Ok (Series (List.map field rs))
  end.

(** [c if c else other]: the truth value of a series is a [ValueError]. *)
Definition if_else (c : cell) (other : string) : result string :=
  match c with
  | Scalar s => if String.eqb s EmptyString then Ok other else Ok s
  | Series _ => Raise ValueError
  end.

(** [if c == s:] *)
Definition if_eq (c : cell) (s : string) : result bool :=
  match c with
  | Scalar a => Ok (String.eqb a s)
  | Series _ => Raise ValueError
  end.

End pd.

Module np.

Fixpoint insort (x : string) (l : list string) : list string :=
  match l with
  | [] => [x]
  | y :: l' =>
      if String.ltb y x then y :: insort x l'
      else if String.eqb y x then y :: l'
      else x :: y :: l'
  end.

(** [np.unique] on a list of strings: sorted, each value once. *)
Definition unique (l : list string) : list string :=
  List.fold_right insort [] l.

End np.

(** ** The environment of [write_data_props] *)

(** [read_features path] is [pd.read_csv(path)] followed by the source's
    [fillna] with the empty string and [set_index("feature")]. *)
Record Env : Type := {
  config : Config;
  glob : string -> list string;
  read_parquet : string -> result polars.DataFrame;
  read_features : string -> result pd.DataFrame
}.

(** [os.path.join] of two components. *)
Definition os_path_join (a b : string) : string :=
  match b with
  | String "/"%char _ => b
  | _ =>
      match py.last_char a with
      | None => b
      | Some "/"%char => (a ++ b)%string
      | Some _ => (a ++ "/" ++ b)%string
      end
  end.

Definition gen_file_path (cfg : Config) (file_name mode : string) : string :=
  (PATH_DATA cfg ++ "/parquet_files/" ++ mode ++ "/" ++ mode ++ "_"
     ++ file_name ++ ".parquet")%string.

(** ** The metadata [write_data_props] builds *)

(** The two containers the source puts under ["paths"]. *)
Inductive pycontainer : Type :=
| PyDict (d : dict.t string)
| PyList (l : list string).

Module StructureEntry.

Record t : Type := {
  paths : dict.t pycontainer;
  schema : Schema;
  columns_map : dict.t (option string)
}.

Definition init : t :=
  {| paths := [("train", PyDict []); ("test", PyList [])];
     schema := dict.empty;
     columns_map := dict.empty |}.

Definition set_schema (e : t) (s : Schema) : t :=
  {| paths := paths e; schema := s; columns_map := columns_map e |}.

Definition set_columns_map (e : t) (m : dict.t (option string)) : t :=
  {| paths := paths e; schema := schema e; columns_map := m |}.

End StructureEntry.

Module SourceGroupProps.

Record t : Type := {
  paths : list string;
  structure : dict.t StructureEntry.t;
  columns : list string;
  columns_cat : dict.t (list pyval);
  columns_dtypes : dict.t pl.DataType;
  columns_date_index : list string
}.

End SourceGroupProps.

Definition DfsProps : Type := dict.t SourceGroupProps.t.

(** ** [write_data_props] *)

(** [for x in l: ...] with a body that may raise. *)
Fixpoint for_each {A S : Type} (body : A -> S -> result S) (l : list A) (s : S)
  : result S :=
  match l with
  | [] => Ok s
  | a :: l' =>
      s' <- body a s ;;
      for_each body l' s'
  end.

(** The variables of the loop over the file names of one group. *)
Record GroupState : Type := {
  structure_dict : dict.t StructureEntry.t;
  columns : list string;
  cols_cat : dict.t (list pyval);
  columns_dtypes : dict.t pl.DataType
}.

(** The variables of the loop over the columns of one sample file. *)
Record FileState : Type := {
  mapping : dict.t (option string);
  cols_to_incl : list string;
  cols_cat_i : dict.t (list pyval);
  cols_dtypes : dict.t pl.DataType
}.

(** The comprehension over [series.unique()] that keeps the cells which
    are neither [None] nor the empty string. *)
Definition keep_value (c : option pyval) : list pyval :=
  match c with
  | None => []
  | Some (PStr EmptyString) => []
  | Some v => [v]
  end.

Definition col_vals (s : polars.Series) : list pyval :=
  List.flat_map keep_value (polars.unique (polars.values s)).

Section WriteDataProps.

Variable env : Env.

(** [utils.gen_file_path], [utils.sort_paths] and [utils.set_dtypes] are
    taken to be the functions of the same names defined in this file, as
    the specification describes them. *)

(** The body of [for mode in ["train", "test"]]: the paths are globbed
    and sorted in both modes, the sample is read in train mode only. *)
Definition mode_body (file_name mode : string)
  (acc : dict.t StructureEntry.t * option (polars.DataFrame * Schema))
  : result (dict.t StructureEntry.t * option (polars.DataFrame * Schema)) :=
  let paths_i := glob env (gen_file_path (config env) file_name mode) in
  paths_i <- sort_paths paths_i ;;
  if String.eqb mode "train" then
    path0 <- py.item0 paths_i ;;
    df <- read_parquet env path0 ;;
    schema <- set_dtypes (config env) (polars.schema df) ;;
    entry <- dict.getitem file_name (fst acc) ;;
    Ok (dict.set file_name (StructureEntry.set_schema entry schema) (fst acc),
        Some (df, schema))
  else Ok acc.

(** The sample file of a pattern: the first of its sorted train paths. *)
Definition sample (file_name : string) : result polars.DataFrame :=
  paths_i <- sort_paths (glob env (gen_file_path (config env) file_name "train")) ;;
  path0 <- py.item0 paths_i ;;
  read_parquet env path0.

(** The body of [for col in df.columns]. *)
Definition column_body (features_df features_sg_df : pd.DataFrame)
  (df : polars.DataFrame) (schema : Schema) (col : string) (fs : FileState)
  : result FileState :=
  fs1 <-
    (if str_in col (pd.index_values features_sg_df) then
       col_new <- pd.loc features_sg_df col pd.new_name ;;
       target <- pd.if_else col_new col ;;
       let mapping1 := dict.set col (Some target) (mapping fs) in
       flag <- pd.loc features_df col pd.agg ;;
       is_dummy <- pd.if_eq flag "dummy" ;;
       if is_dummy then
         series <- polars.getitem df col ;;
         Ok {| mapping := mapping1;
               cols_to_incl := cols_to_incl fs;
               cols_cat_i := dict.set col (col_vals series) (cols_cat_i fs);
               cols_dtypes := cols_dtypes fs |}
       else
         Ok {| mapping := mapping1;
               cols_to_incl := cols_to_incl fs;
               cols_cat_i := cols_cat_i fs;
               cols_dtypes := cols_dtypes fs |}
     else
       Ok {| mapping := dict.set col (Some col) (mapping fs);
             cols_to_incl := cols_to_incl fs;
             cols_cat_i := cols_cat_i fs;
             cols_dtypes := cols_dtypes fs |}) ;;
  mapped <- dict.getitem col (mapping fs1) ;;
  (* [mapping[col]] is a string by now; a [None] would make
     [np.unique] fail on the column list *)
  mapped <- match mapped with Some s => Ok s | None => Raise TypeError end ;;
  dtype <- dict.getitem col schema ;;
  Ok {| mapping := mapping fs1;
        cols_to_incl := cols_to_incl fs1 ++ [mapped];
        cols_cat_i := cols_cat_i fs1;
        cols_dtypes := dict.set col dtype (cols_dtypes fs1) |}.

(** The variables of the loop over the columns, as initialised. *)
Definition file_init (cols : list string) : FileState :=
  {| mapping := dict.comprehension (fun _ => None) cols;
     cols_to_incl := [];
     cols_cat_i := dict.empty;
     cols_dtypes := dict.empty |}.

(** The body of [for file_name in file_names]. *)
Definition file_body (features_df features_sg_df : pd.DataFrame)
  (file_name : string) (st : GroupState) : result GroupState :=
  r <- for_each (mode_body file_name) ["train"; "test"] (structure_dict st, None) ;;
  match snd r with
  | None => Raise NameError
  | Some (df, schema) =>
      fs <- for_each (column_body features_df features_sg_df df schema)
              (polars.columns df) (file_init (polars.columns df)) ;;
      entry <- dict.getitem file_name (fst r) ;;
      Ok {| structure_dict :=
              dict.set file_name
                (StructureEntry.set_columns_map entry (mapping fs)) (fst r);
            columns := columns st ++ cols_to_incl fs;
            cols_cat := dict.update (cols_cat st) (cols_cat_i fs);
            columns_dtypes := dict.update (columns_dtypes st) (cols_dtypes fs) |}
  end.

(** The variables of the loop over the file names, as initialised. *)
Definition group_init (file_names : list string) : GroupState :=
  {| structure_dict :=
       dict.comprehension (fun _ => StructureEntry.init) file_names;
     columns := [];
     cols_cat := dict.empty;
     columns_dtypes := dict.empty |}.

(** [features_df[features_df["source_group"]==name]] *)
Definition of_group (name : string) (df : pd.DataFrame) : pd.DataFrame :=
  List.filter (fun r => String.eqb (pd.source_group r) name) df.

(** [features_df[features_df["date_col"]==1]] *)
Definition dates_of (df : pd.DataFrame) : pd.DataFrame :=
  List.filter
    (fun r => match pd.date_col r with Some 1%Z => true | _ => false end) df.

(** The body of [for name, props in dfs_props.items()]: the properties of
    group [name] once the five new keys are set. *)
Definition group_body (features_df dates_df : pd.DataFrame)
  (name : string) (file_names : list string) : result SourceGroupProps.t :=
  let features_sg_df := of_group name features_df in
  st <- for_each (file_body features_df features_sg_df) file_names
          (group_init file_names) ;;
  Ok {| SourceGroupProps.paths := file_names;
        SourceGroupProps.structure := structure_dict st;
        SourceGroupProps.columns := np.unique (columns st);
        SourceGroupProps.columns_cat := cols_cat st;
        SourceGroupProps.columns_dtypes := columns_dtypes st;
        SourceGroupProps.columns_date_index :=
          pd.index_values (of_group name dates_df) |}.

(** The two files of a run. *)
Definition features_path (version : string) : string :=
  os_path_join (PATH_FEATURES (config env))
    ("features_" ++ version ++ ".csv")%string.

Definition pickle_path (version : string) : string :=
  os_path_join (PATH_FEATURES (config env))
    ("dfs_props_" ++ version ++ ".pkl")%string.

(** [write_data_props(dfs_props, version)].  The input maps each group to
    its ["paths"].  The loop over [dfs_props.items()] updates the
    properties of each group in place, one group after the other: here
    it builds the updated item of each group, left to right.  The result
    is the updated [dfs_props] and the file the call leaves behind: its
    path and [pickle.dump] of the updated [dfs_props].  When an exception
    escapes nothing is written. *)
Definition write_data_props {Blob : Type} (pickle_dump : DfsProps -> Blob)
  (dfs_props : dict.t (list string)) (version : string)
  : result (DfsProps * (string * Blob)) :=
  features_df <- read_features env (features_path version) ;;
  let dates_df := dates_of features_df in
  dfs_props' <-
    comprehension
      (fun item =>
         props <- group_body features_df dates_df (fst item) (snd item) ;;
         Ok (fst item, props))
      dfs_props ;;
  Ok (dfs_props', (pickle_path version, pickle_dump dfs_props')).

End WriteDataProps.

(** ** The file system and [create_folder] *)

Module os.

Inductive node : Type :=
| File
| Dir.

(** A path stands for an absolute, normalised path without symbolic
    links: the list of its components below the root. *)
Definition path : Type := list string.

(** What there is at each path other than the root. *)
Definition tree : Type := path -> option node.

Definition empty : tree := fun _ => None.

Fixpoint is_prefix (p q : path) : bool :=
  match p, q with
  | [], _ => true
  | a :: p', b :: q' => String.eqb a b && is_prefix p' q'
  | _ :: _, [] => false
  end.

Definition path_eqb (p q : path) : bool := is_prefix p q && is_prefix q p.

(** What there is at a path; the root is a directory. *)
Definition lookup (t : tree) (p : path) : option node :=
  match p with
  | [] => Some Dir
  | _ => t p
  end.

Definition put (t : tree) (p : path) (n : node) : tree :=
  fun q => if path_eqb p q then Some n else t q.

(** [os.path.exists] and [os.path.isdir] *)
Definition path_exists (t : tree) (p : path) : bool :=
  match lookup t p with
  | Some _ => true
  | None => false
  end.

Definition path_isdir (t : tree) (p : path) : bool :=
  match lookup t p with
  | Some Dir => true
  | _ => false
  end.

(** [os.mkdir]: the path must be free and its parent a directory. *)
Definition mkdir (t : tree) (p : path) : result tree :=
  match lookup t p with
  | Some _ => Raise OSError
  | None =>
      match lookup t (List.removelast p) with
      | Some Dir => Ok (put t p Dir)
      | _ => Raise OSError
      end
  end.

(** [os.makedirs(name, exist_ok=True)], on the reversed path: the parent
    is made first when it does not exist, then the leaf; the error of
    [mkdir] is dropped when the leaf is a directory. *)
Fixpoint makedirs_up (t : tree) (rev_name : list string) : result tree :=
  match rev_name with
  | [] => Ok t
  | _ :: rev_head =>
      t1 <- (if negb (path_exists t (List.rev rev_head))
             then makedirs_up t rev_head
             else Ok t) ;;
      match mkdir t1 (List.rev rev_name) with
      | Ok t2 => Ok t2
      | Raise e => if path_isdir t1 (List.rev rev_name) then Ok t1 else Raise e
      end
  end.

Definition makedirs (t : tree) (name : path) : result tree :=
  makedirs_up t (List.rev name).

End os.

Module shutil.

(** [shutil.rmtree]: the path must be a directory other than the root;
    it goes with all that is below it. *)
Definition rmtree (t : os.tree) (p : os.path) : result os.tree :=
  match p with
  | [] => Raise OSError
  | _ =>
      match t p with
      | Some os.Dir => Ok (fun q => if os.is_prefix p q then None else t q)
      | _ => Raise OSError
      end
  end.

End shutil.

(** [create_folder(path, rm)] *)
Definition create_folder (t : os.tree) (path : os.path) (rm : bool)
  : result os.tree :=
  t1 <- (if rm then
           if os.path_exists t path then shutil.rmtree t path else Ok t
         else Ok t) ;;
  os.makedirs t1 path.

(** ** Vocabulary of the statements *)

(** A string of decimal digits and the number it writes. *)
Fixpoint all_digits (s : string) : bool :=
  match s with
  | EmptyString => true
  | String c s' => py.is_digit c && all_digits s'
  end.

Fixpoint dec_value (s : string) (acc : Z) : Z :=
  match s with
  | EmptyString => acc
  | String c s' => dec_value s' (10 * acc + py.digit_val c)%Z
  end.

Fixpoint has_char (c : ascii) (s : string) : bool :=
  match s with
  | EmptyString => false
  | String c' s' => Ascii.eqb c' c || has_char c s'
  end.

(** A path of the form [name_<n>.ext]: [<n>] is a non-empty string of
    decimal digits writing [n], and the extension holds no underscore. *)
Definition well_formed (path : string) (n : Z) : Prop :=
  exists name ds ext,
    path = (name ++ "_" ++ ds ++ "." ++ ext)%string /\
    ds <> EmptyString /\
    all_digits ds = true /\
    dec_value ds 0 = n /\
    has_char "_" ext = false.

(** Tuples compared on their first component. *)
Definition key_le (a b : Z * string) : Prop := (fst a <= fst b)%Z.

(** The order [sorted] puts [(int, str)] tuples in: by number, and by
    string among equal numbers. *)
Definition tuple_le (a b : Z * string) : Prop :=
  (fst a < fst b)%Z \/ (fst a = fst b /\ String.leb (snd a) (snd b) = true).

(** The number [sort_paths] reads in a path that has one. *)
Definition key_of (path : string) : Z :=
  match path_num path with
  | Ok n => n
  | Raise _ => 0%Z
  end.

(** Strings in strictly ascending order of code points. *)
Definition str_lt (a b : string) : Prop := String.ltb a b = true.

(** A path paired with its number, as [zip(paths_nums, paths)] does. *)
Definition keyed (path : string) : Z * string := (key_of path, path).

(** The dtype [set_dtypes] gives a column of name [col] and dtype [old],
    when the name can be indexed. *)
Definition normalised (cfg : Config) (col : string) (old : pl.DataType)
  : pl.DataType :=
  if str_in col (int_columns cfg) then pl.Int64
  else if str_in col (date_columns cfg) then pl.Date
  else match py.last_char col with
       | Some c =>
           if chr_in c ["P"; "A"]%char then pl.Float64
           else if chr_in c ["M"]%char then pl.String
           else if chr_in c ["D"]%char then pl.Date
           else old
       | None => old
       end.

(** A file system is well formed when whatever exists lies in a
    directory. *)
Definition well_formed_tree (t : os.tree) : Prop :=
  forall p c, t (p ++ [c]) <> None -> os.lookup t p = Some os.Dir.

(** No regular file stands at the path or at one of its ancestors. *)
Definition no_file_on (t : os.tree) (p : os.path) : Prop :=
  forall q, os.is_prefix q p = true -> os.lookup t q <> Some os.File.

(** [vals] is the categorical domain observed in [series]: each value
    once, the values being the cells that are neither null nor the empty
    string. *)
Definition domain_of (series : polars.Series) (vals : list pyval) : Prop :=
  NoDup vals /\
  forall v, In v vals <->
            (In (Some v) (polars.values series) /\ v <> PStr EmptyString).

(** [col] is flagged for dummy encoding in the features table [sg]. *)
Definition flagged_dummy (sg : pd.DataFrame) (col : string) : Prop :=
  exists r, In r sg /\ pd.feature r = col /\ pd.agg r = "dummy".

(** [target] is what the features table [sg] renames [col] to: the
    non-empty [new_name] given for it, [col] itself when there is none. *)
Definition renamed_to (sg : pd.DataFrame) (col target : string) : Prop :=
  (forall r, In r sg -> pd.feature r = col -> pd.new_name r <> EmptyString ->
             target = pd.new_name r) /\
  ((forall r, In r sg -> pd.feature r = col -> pd.new_name r = EmptyString) ->
   target = col).

(** Column names a schema may hold without [set_dtypes] raising: the
    forced columns and every non-empty name. *)
Definition indexable (cfg : Config) (col : string) : Prop :=
  str_in col (int_columns cfg) = true \/
  str_in col (date_columns cfg) = true \/
  col <> EmptyString.

(** A pattern [write_data_props] can process: its train paths sort to
    a non-empty list whose first file can be read, the column names of
    that file can all be indexed, and its test paths sort. *)
Definition processable (env : Env) (file_name : string) : Prop :=
  exists path0 rest df test_paths,
    sort_paths (glob env (gen_file_path (config env) file_name "train"))
    = Ok (path0 :: rest) /\
    read_parquet env path0 = Ok df /\
    (forall col, In col (polars.columns df) -> indexable (config env) col) /\
    sort_paths (glob env (gen_file_path (config env) file_name "test"))
    = Ok test_paths.

(** ** A small concrete environment

    Two groups.  ["applprev"] has a numbered pattern with two train files
    and one test file, and a second pattern with a single train file and
    no test file; ["base"] has one unnumbered file in each mode. *)

Module Sample.

Definition cfg : Config :=
  {| COL_DATE := "date_decision";
     COL_ID := "case_id";
     COL_WEEK := "WEEK_NUM";
     PATH_DATA := "/data";
     PATH_FEATURES := "/features" |}.

(** A configuration whose identity column is named as in the
    specification's example for [set_dtypes]. *)
Definition cfg_id : Config :=
  {| COL_DATE := "date_decision";
     COL_ID := "id";
     COL_WEEK := "WEEK_NUM";
     PATH_DATA := "/data";
     PATH_FEATURES := "/features" |}.

Definition col (n : string) (t : pl.DataType) (v : list (option pyval))
  : polars.Series :=
  {| polars.name := n; polars.dtype := t; polars.values := v |}.

Definition applprev_1_0 : polars.DataFrame :=
  [ col "case_id" pl.Int32 [Some (PInt 1); Some (PInt 2); Some (PInt 3)];
    col "num_group1" pl.Int32 [Some (PInt 0); Some (PInt 0); Some (PInt 1)];
    col "credtype_587L" pl.String
      [Some (PStr "CAL"); Some (PStr EmptyString); None; Some (PStr "CAL"); Some (PStr "REL")];
    col "approvaldate_319D" pl.String [Some (PStr "2019-01-01"); None; None];
    col "annuity_853A" pl.Int64 [Some (PInt 100); None; Some (PInt 7)];
    col "cancelreason_3545846M" pl.Null [None; None; None] ].

Definition applprev_2 : polars.DataFrame :=
  [ col "case_id" pl.Int64 [Some (PInt 1)];
    col "conts_type_509L" pl.String [Some (PStr "PHONE"); Some (PStr "PHONE")];
    col "credacc_cards_status_52L" pl.String [None; Some (PStr "ACTIVE")] ].

Definition base : polars.DataFrame :=
  [ col "case_id" pl.Int64 [Some (PInt 1)];
    col "date_decision" pl.String [Some (PStr "2019-01-03")];
    col "WEEK_NUM" pl.Int32 [Some (PInt 0)];
    col "target" pl.Int64 [Some (PInt 0)] ].

Definition row (f g n a : string) (d : option Z) : pd.FeatureRow :=
  {| pd.feature := f; pd.source_group := g; pd.new_name := n; pd.agg := a;
     pd.date_col := d |}.

Definition features : pd.DataFrame :=
  [ row "credtype_587L" "applprev" EmptyString "dummy" None;
    row "approvaldate_319D" "applprev" "approval_date" "max" (Some 1%Z);
    row "annuity_853A" "applprev" EmptyString "mean" None;
    row "conts_type_509L" "applprev" "contact_type" "dummy" None;
    row "date_decision" "base" EmptyString EmptyString (Some 1%Z);
    row "unused_1L" "other" "renamed" "dummy" None ].

Definition files (pattern : string) : list string :=
  if String.eqb pattern "/data/parquet_files/train/train_applprev_1_*.parquet" then
    ["/data/parquet_files/train/train_applprev_1_1.parquet";
     "/data/parquet_files/train/train_applprev_1_0.parquet"]
  else if String.eqb pattern "/data/parquet_files/test/test_applprev_1_*.parquet" then
    ["/data/parquet_files/test/test_applprev_1_0.parquet"]
  else if String.eqb pattern "/data/parquet_files/train/train_applprev_2.parquet" then
    ["/data/parquet_files/train/train_applprev_2.parquet"]
  else if String.eqb pattern "/data/parquet_files/train/train_base.parquet" then
    ["/data/parquet_files/train/train_base.parquet"]
  else if String.eqb pattern "/data/parquet_files/test/test_base.parquet" then
    ["/data/parquet_files/test/test_base.parquet"]
  else [].

Definition parquet (path : string) : result polars.DataFrame :=
  if String.eqb path "/data/parquet_files/train/train_applprev_1_0.parquet" then
    Ok applprev_1_0
  else if String.eqb path "/data/parquet_files/train/train_applprev_2.parquet" then
    Ok applprev_2
  else if String.eqb path "/data/parquet_files/train/train_base.parquet" then
    Ok base
  else Raise OSError.

Definition csv (path : string) : result pd.DataFrame :=
  if String.eqb path "/features/features_old.csv" then Ok features
  else Raise OSError.

Definition env : Env :=
  {| config := cfg; glob := files; read_parquet := parquet; read_features := csv |}.

Definition dfs_props : dict.t (list string) :=
  [("applprev", ["applprev_1_*"; "applprev_2"]); ("base", ["base"])].

(** The run of [write_data_props] in this environment, pickle being
    modelled by the identity. *)
Definition run : result (DfsProps * (string * DfsProps)) :=
  Eval vm_compute in write_data_props env (fun x => x) dfs_props "old".

Definition out : DfsProps :=
  Eval vm_compute in match run with Ok (o, _) => o | Raise _ => [] end.

Definition features_applprev : pd.DataFrame :=
  Eval vm_compute in of_group "applprev" features.

(** The variables of the loop over the file names of ["applprev"] once
    its first pattern is processed. *)
Definition after_first : GroupState :=
  Eval vm_compute in
    match file_body env features features_applprev "applprev_1_*"
            (group_init ["applprev_1_*"; "applprev_2"]) with
    | Ok st => st
    | Raise _ => group_init []
    end.

(** The same environment with a features table that lists
    [credtype_587L] for a second group. *)
Definition features_shared : pd.DataFrame :=
  features ++ [row "credtype_587L" "other" EmptyString "sum" None].

Definition env_shared : Env :=
  {| config := cfg;
     glob := files;
     read_parquet := parquet;
     read_features := fun _ => Ok features_shared |}.

(** The same environment with a second, unnumbered test file for the
    pattern [applprev_1_*]. *)
Definition files_unsortable (pattern : string) : list string :=
  if String.eqb pattern "/data/parquet_files/test/test_applprev_1_*.parquet" then
    ["/data/parquet_files/test/test_applprev_1_0.parquet";
     "/data/parquet_files/test/test_applprev_1_old.parquet"]
  else files pattern.

Definition env_unsortable : Env :=
  {| config := cfg;
     glob := files_unsortable;
     read_parquet := parquet;
     read_features := csv |}.

(** The same environment, the sample of [applprev_2] having a column
    [credtype_587L] as well. *)
Definition applprev_2_cred : polars.DataFrame :=
  applprev_2 ++ [col "credtype_587L" pl.String [Some (PStr "POS")]].

Definition parquet_overlap (path : string) : result polars.DataFrame :=
  if String.eqb path "/data/parquet_files/train/train_applprev_2.parquet" then
    Ok applprev_2_cred
  else parquet path.

Definition env_overlap : Env :=
  {| config := cfg;
     glob := files;
     read_parquet := parquet_overlap;
     read_features := csv |}.

Definition out_overlap : DfsProps :=
  Eval vm_compute in
    match write_data_props env_overlap (fun x => x) dfs_props "old" with
    | Ok (o, _) => o
    | Raise _ => []
    end.

(** A small file system: a directory [out] with a file and a
    sub-directory, and a file [notes]. *)
Definition tree : os.tree :=
  fun p =>
    if os.path_eqb p ["out"] then Some os.Dir
    else if os.path_eqb p ["out"; "old.pkl"] then Some os.File
    else if os.path_eqb p ["out"; "v1"] then Some os.Dir
    else if os.path_eqb p ["out"; "v1"; "a.pkl"] then Some os.File
    else if os.path_eqb p ["notes"] then Some os.File
    else None.

End Sample.

(** * Properties *)

(** ** Results and loops *)

Lemma bind_ok {A B : Type} (r : result A) (k : A -> result B) (b : B) :
  bind r k = Ok b -> exists a, r = Ok a /\ k a = Ok b.
Proof.
  destruct r as [a|e]; simpl; intros H; [eauto | discriminate].
Qed.

Ltac inv_bind H :=
  let a := fresh "a" in
  let Ha := fresh "Ha" in
  apply bind_ok in H; destruct H as [a [Ha H]].

Lemma comprehension_ok {A B : Type} (f : A -> result B) (l : list A) (bs : list B) :
  comprehension f l = Ok bs -> Forall2 (fun a b => f a = Ok b) l bs.
Proof.
  revert bs; induction l as [|a l IH]; simpl; intros bs H.
  - injection H as <-; constructor.
  - inv_bind H. inv_bind H. injection H as <-.
    constructor; auto.
Qed.

Lemma comprehension_total {A B : Type} (f : A -> result B) (l : list A) (bs : list B) :
  Forall2 (fun a b => f a = Ok b) l bs -> comprehension f l = Ok bs.
Proof.
  induction 1 as [|a b l bs Hab _ IH]; simpl; [reflexivity|].
  rewrite Hab; simpl. rewrite IH; reflexivity.
Qed.

Lemma comprehension_raise {A B : Type} (f : A -> result B) (l : list A) (e : exn) :
  (forall a, In a l -> exists b, f a = Ok b \/ f a = Raise e) ->
  Exists (fun a => f a = Raise e) l ->
  comprehension f l = Raise e.
Proof.
  induction l as [|a l IH]; intros Hall Hex; [inversion Hex|].
  simpl. destruct (Hall a (or_introl eq_refl)) as [b [Hb|Hb]]; rewrite Hb; simpl.
  - inversion Hex as [? ? Ha|? ? Hl]; subst; [congruence|].
    rewrite IH; auto. intros a' Ha'; apply Hall; right; assumption.
  - reflexivity.
Qed.

Lemma for_each_app {A S : Type} (body : A -> S -> result S) (l1 l2 : list A) (s : S) :
  for_each body (l1 ++ l2) s = (s1 <- for_each body l1 s ;; for_each body l2 s1).
Proof.
  revert s; induction l1 as [|a l1 IH]; intros s; simpl; [reflexivity|].
  destruct (body a s) as [s'|e]; simpl; auto.
Qed.

(** ** [sort_paths] *)

Lemma split_not_nil (sep : ascii) (s : string) : py.split sep s <> [].
Proof.
  destruct s as [|c s]; simpl; [discriminate|].
  destruct (Ascii.eqb c sep); [discriminate|].
  destruct (py.split sep s); discriminate.
Qed.

Lemma path_num_int (path : string) :
  path_num path = py.int (trailing_suffix path).
Proof.
  unfold path_num, trailing_suffix, py.item_last.
  destruct (py.split "_" path) as [|x l] eqn:E1;
    [exfalso; eapply split_not_nil; eassumption|].
  cbn [bind].
  remember (List.last (x :: l) EmptyString) as seg.
  destruct (py.split "." seg) as [|y l'] eqn:E2;
    [exfalso; eapply split_not_nil; eassumption|].
  reflexivity.
Qed.

Lemma int_raises (s : string) (e : exn) : py.int s = Raise e -> e = ValueError.
Proof.
  unfold py.int.
  destruct (py.lstrip s) as [|c r]; [intros H; injection H; auto|].
  repeat match goal with
         | |- context [match ?x with _ => _ end] => destruct x
         end; intros H; try discriminate; injection H; auto.
Qed.

Lemma path_num_cases (path : string) :
  (exists n, path_num path = Ok n) \/ path_num path = Raise ValueError.
Proof.
  rewrite path_num_int.
  destruct (py.int (trailing_suffix path)) as [n|e] eqn:E; [eauto|].
  apply int_raises in E; subst; auto.
Qed.

(** [sorted] permutes its input and leaves the first components in
    ascending order. *)

Lemma insort_perm (x : Z * string) (l : list (Z * string)) :
  Permutation (x :: l) (py.insort x l).
Proof.
  induction l as [|y l IH]; simpl; [reflexivity|].
  destruct (py.tuple_ltb y x); [|reflexivity].
  rewrite perm_swap. constructor. exact IH.
Qed.

Lemma sorted_perm (l : list (Z * string)) : Permutation l (py.sorted l).
Proof.
  induction l as [|x l IH]; simpl; [constructor|].
  rewrite <- insort_perm. constructor. exact IH.
Qed.

Lemma tuple_ltb_true (a b : Z * string) : py.tuple_ltb a b = true -> key_le a b.
Proof.
  unfold py.tuple_ltb, key_le. intros H.
  apply orb_true_iff in H. destruct H as [H|H].
  - apply Z.ltb_lt in H; lia.
  - apply andb_true_iff in H. destruct H as [H _]. apply Z.eqb_eq in H; lia.
Qed.

Lemma tuple_ltb_false (a b : Z * string) : py.tuple_ltb a b = false -> key_le b a.
Proof.
  unfold py.tuple_ltb, key_le. intros H.
  apply orb_false_iff in H. destruct H as [H _].
  apply Z.ltb_ge in H; exact H.
Qed.

Lemma insort_hdrel (a x : Z * string) (l : list (Z * string)) :
  key_le a x -> HdRel key_le a l -> HdRel key_le a (py.insort x l).
Proof.
  intros Hax Hal. destruct l as [|y l]; simpl.
  - constructor; assumption.
  - destruct (py.tuple_ltb y x); constructor; auto.
    inversion Hal; assumption.
Qed.

Lemma insort_sorted (x : Z * string) (l : list (Z * string)) :
  Sorted key_le l -> Sorted key_le (py.insort x l).
Proof.
  induction 1 as [|y l Hl IH Hy]; simpl.
  - repeat constructor.
  - destruct (py.tuple_ltb y x) eqn:E.
    + constructor; [exact IH|].
      apply insort_hdrel; [apply tuple_ltb_true; assumption | assumption].
    + constructor; [constructor; assumption|].
      constructor. apply tuple_ltb_false; assumption.
Qed.

Lemma sorted_sorted (l : list (Z * string)) : Sorted key_le (py.sorted l).
Proof.
  induction l as [|x l IH]; simpl; [constructor | apply insort_sorted; exact IH].
Qed.

Lemma sorted_keys_ascending (l : list (Z * string)) :
  StronglySorted Z.le (List.map fst (py.sorted l)).
Proof.
  assert (H : StronglySorted key_le (py.sorted l)).
  { apply Sorted_StronglySorted; [|apply sorted_sorted].
    intros a b c; unfold key_le; lia. }
  induction H as [|a l' Hl IH Ha]; simpl; constructor; [exact IH|].
  apply Forall_forall. intros n Hn. apply in_map_iff in Hn.
  destruct Hn as [b [<- Hb]]. rewrite Forall_forall in Ha. apply Ha; assumption.
Qed.

Lemma map_snd_zip {A B : Type} (l : list A) (l' : list B) :
  List.length l = List.length l' -> List.map snd (py.zip l l') = l'.
Proof.
  revert l'; induction l as [|a l IH]; intros [|b l'] H; simpl in *;
    try discriminate; [reflexivity|].
  f_equal. apply IH. lia.
Qed.

Lemma zip_forall2 {A B : Type} (P : A -> B -> Prop) (l : list A) (l' : list B) :
  Forall2 P l l' -> Forall (fun ab => P (fst ab) (snd ab)) (py.zip l l').
Proof.
  induction 1; simpl; constructor; auto.
Qed.

Lemma forall_forall2_map {A B : Type} (P : A -> B -> Prop) (l : list (A * B)) :
  Forall (fun ab => P (fst ab) (snd ab)) l ->
  Forall2 P (List.map fst l) (List.map snd l).
Proof.
  induction 1; simpl; constructor; auto.
Qed.

Lemma forall2_flip {A B : Type} (P : A -> B -> Prop) (l : list A) (l' : list B) :
  Forall2 P l l' -> Forall2 (fun b a => P a b) l' l.
Proof.
  induction 1; constructor; auto.
Qed.

(** What [sort_paths] does on a list whose suffixes all parse; [P] is
    any property of a path and its number that makes the suffix numeric. *)
Lemma sort_paths_keyed (P : string -> Z -> Prop) (paths : list string) (ns : list Z) :
  (forall p n, P p n -> numeric (trailing_suffix p) n) ->
  Forall2 P paths ns ->
  exists out ns',
    sort_paths paths = Ok out /\
    Permutation paths out /\
    Forall2 P out ns' /\
    StronglySorted Z.le ns'.
Proof.
  intros HP H. unfold sort_paths.
  destruct (List.length paths =? 1)%nat eqn:E.
  - apply Nat.eqb_eq in E.
    destruct paths as [|p [|q l]]; try discriminate.
    exists [p], ns. repeat split; auto.
    inversion H as [|? n ? l' ? Hl]; subst. inversion Hl; subst.
    repeat constructor.
  - assert (Hc : comprehension path_num paths = Ok ns).
    { apply comprehension_total.
      eapply Forall2_impl; [|exact H].
      intros p n Hp. simpl. rewrite path_num_int. apply HP. exact Hp. }
    rewrite Hc. cbn [bind].
    set (srt := py.sorted (py.zip ns paths)).
    exists (List.map snd srt), (List.map fst srt).
    assert (Hlen : List.length ns = List.length paths).
    { symmetry. eapply Forall2_length; eassumption. }
    repeat split.
    + rewrite <- (map_snd_zip ns paths Hlen) at 1.
      apply Permutation_map. apply sorted_perm.
    + apply forall2_flip.
      apply (forall_forall2_map (fun n p => P p n)).
      eapply Permutation_Forall; [apply sorted_perm|].
      apply (zip_forall2 (fun n p => P p n)).
      apply forall2_flip in H. exact H.
    + apply sorted_keys_ascending.
Qed.

(** Digit strings are numeric, and the suffix of a well-formed path is
    its digit string. *)

Lemma digit_not_special (c : ascii) :
  py.is_digit c = true ->
  py.is_space c = false /\ c <> "+"%char /\ c <> "-"%char /\
  Ascii.eqb c "_" = false /\ Ascii.eqb c "." = false.
Proof.
  destruct c as [b0 b1 b2 b3 b4 b5 b6 b7].
  destruct b0, b1, b2, b3, b4, b5, b6, b7; vm_compute; intros H;
    try discriminate; repeat split; discriminate.
Qed.

Lemma digits_all (s : string) (acc : Z) :
  all_digits s = true -> py.digits s acc = Some (dec_value s acc, EmptyString).
Proof.
  revert acc; induction s as [|c s IH]; intros acc H; simpl in *; [reflexivity|].
  apply andb_true_iff in H. destruct H as [Hc Hs].
  rewrite Hc. apply IH; assumption.
Qed.

Lemma sign_of_digit (c : ascii) (s : string) :
  py.is_digit c = true ->
  match String c s with
  | String "+"%char r => (1%Z, r)
  | String "-"%char r => ((-1)%Z, r)
  | _ => (1%Z, String c s)
  end = (1%Z, String c s).
Proof.
  intros Hc. destruct (digit_not_special c Hc) as [_ [Hplus [Hminus _]]].
  destruct c as [b0 b1 b2 b3 b4 b5 b6 b7].
  destruct b0, b1, b2, b3, b4, b5, b6, b7; try reflexivity; congruence.
Qed.

Lemma int_digits (s : string) :
  s <> EmptyString -> all_digits s = true -> numeric s (dec_value s 0).
Proof.
  intros Hne H. destruct s as [|c s]; [congruence|].
  pose proof H as H'. simpl in H'. apply andb_true_iff in H'. destruct H' as [Hc Hs].
  destruct (digit_not_special c Hc) as [Hsp _].
  unfold numeric, py.int. cbn [py.lstrip]. rewrite Hsp.
  rewrite (sign_of_digit c s Hc).
  rewrite Hc. rewrite (digits_all (String c s) 0 H). cbn [py.lstrip].
  f_equal. lia.
Qed.

Lemma split_app (sep : ascii) (a b : string) :
  py.split sep (a ++ String sep b)%string = py.split sep a ++ py.split sep b.
Proof.
  induction a as [|c a IH]; simpl.
  - rewrite Ascii.eqb_refl. reflexivity.
  - destruct (Ascii.eqb c sep).
    + rewrite IH. reflexivity.
    + rewrite IH. pose proof (split_not_nil sep a) as Hne.
      destruct (py.split sep a) as [|h t]; [congruence|reflexivity].
Qed.

Lemma split_no_sep (sep : ascii) (s : string) :
  has_char sep s = false -> py.split sep s = [s].
Proof.
  induction s as [|c s IH]; simpl; intros H; [reflexivity|].
  apply orb_false_iff in H. destruct H as [Hc Hs].
  rewrite Hc. rewrite (IH Hs). reflexivity.
Qed.

Lemma has_char_app (c : ascii) (a b : string) :
  has_char c (a ++ b)%string = has_char c a || has_char c b.
Proof.
  induction a as [|x a IH]; simpl; [reflexivity|].
  rewrite IH. apply orb_assoc.
Qed.

Lemma all_digits_no_sep (ds : string) :
  all_digits ds = true -> has_char "_" ds = false /\ has_char "." ds = false.
Proof.
  induction ds as [|c ds IH]; simpl; intros H; [auto|].
  apply andb_true_iff in H. destruct H as [Hc Hs].
  destruct (digit_not_special c Hc) as [_ [_ [_ [Hu Hd]]]].
  destruct (IH Hs) as [IH1 IH2]. rewrite Hu, Hd, IH1, IH2. auto.
Qed.

Lemma last_app_not_nil {A : Type} (l1 l2 : list A) (d : A) :
  l2 <> [] -> List.last (l1 ++ l2) d = List.last l2 d.
Proof.
  intros Hne. induction l1 as [|a l1 IH]; simpl; [reflexivity|].
  rewrite IH. destruct (l1 ++ l2) eqn:E; [|reflexivity].
  apply app_eq_nil in E. destruct E as [_ E]. congruence.
Qed.

(** The number of a path [name_<n>.ext] is the number its digits write. *)
Lemma well_formed_numeric (path : string) (n : Z) :
  well_formed path n -> numeric (trailing_suffix path) n.
Proof.
  intros [name [ds [ext [-> [Hne [Hd [<- Hext]]]]]]].
  destruct (all_digits_no_sep ds Hd) as [Hu Hdot].
  unfold trailing_suffix.
  change (name ++ "_" ++ ds ++ "." ++ ext)%string
    with (name ++ String "_" (ds ++ String "." ext))%string.
  rewrite split_app.
  rewrite last_app_not_nil by apply split_not_nil.
  rewrite (split_no_sep "_" (ds ++ String "." ext)).
  - cbn [List.last]. rewrite split_app. rewrite (split_no_sep "." ds Hdot).
    cbn [List.app List.hd]. apply int_digits; assumption.
  - rewrite has_char_app. rewrite Hu. simpl. exact Hext.
Qed.

Lemma forall_exists_forall2 {A B : Type} (P : A -> B -> Prop) (l : list A) :
  Forall (fun a => exists b, P a b) l -> exists l', Forall2 P l l'.
Proof.
  induction 1 as [|a l [b Hb] _ [l' IH]].
  - exists []; constructor.
  - exists (b :: l'); constructor; assumption.
Qed.

(** C3. On a list of paths of the form [name_<n>.ext], [sort_paths]
    returns the same paths in ascending order of [<n>]; a singleton list
    is returned as it is, whatever its name; and the list
    [a_2.parquet, a_10.parquet, a_1.parquet] comes back as
    [a_1.parquet, a_2.parquet, a_10.parquet]. *)
Theorem C3_sort_paths_ascending :
  (forall paths ns,
      Forall2 well_formed paths ns ->
      exists out ns',
        sort_paths paths = Ok out /\
        Permutation paths out /\
        Forall2 well_formed out ns' /\
        StronglySorted Z.le ns') /\
  (forall path, sort_paths [path] = Ok [path]) /\
  sort_paths ["a_2.parquet"; "a_10.parquet"; "a_1.parquet"]
  = Ok ["a_1.parquet"; "a_2.parquet"; "a_10.parquet"].
Proof.
  split; [|split].
  - intros paths ns H.
    apply (sort_paths_keyed well_formed paths ns); [|exact H].
    apply well_formed_numeric.
  - intros path. reflexivity.
  - vm_compute. reflexivity.
Qed.

Lemma C3_sort_paths_ascending_witness :
  Forall2 well_formed ["b_7.parquet"; "b_03.parquet"; "b_7.csv"] [7%Z; 3%Z; 7%Z] /\
  exists out ns',
    sort_paths ["b_7.parquet"; "b_03.parquet"; "b_7.csv"] = Ok out /\
    Permutation ["b_7.parquet"; "b_03.parquet"; "b_7.csv"] out /\
    Forall2 well_formed out ns' /\
    StronglySorted Z.le ns'.
Proof.
  assert (H : Forall2 well_formed
                ["b_7.parquet"; "b_03.parquet"; "b_7.csv"] [7%Z; 3%Z; 7%Z]).
  { repeat constructor.
    - exists "b", "7", "parquet". repeat split; try reflexivity; discriminate.
    - exists "b", "03", "parquet". repeat split; try reflexivity; discriminate.
    - exists "b", "7", "csv". repeat split; try reflexivity; discriminate. }
  split; [exact H|].
  exact (proj1 C3_sort_paths_ascending _ _ H).
Defined.

(** C10. When every trailing suffix is numeric, [sort_paths] returns a
    permutation of its input: same length, same paths, same
    multiplicities. *)
Theorem C10_sort_paths_permutation (paths : list string) :
  Forall (fun p => exists n, numeric (trailing_suffix p) n) paths ->
  exists out,
    sort_paths paths = Ok out /\
    Permutation paths out /\
    List.length out = List.length paths /\
    forall p, count_occ string_dec out p = count_occ string_dec paths p.
Proof.
  intros H. apply forall_exists_forall2 in H. destruct H as [ns H].
  destruct (sort_paths_keyed (fun p n => numeric (trailing_suffix p) n) paths ns)
    as [out [ns' [Hout [Hperm _]]]]; auto.
  exists out. repeat split; auto.
  - symmetry. apply Permutation_length. exact Hperm.
  - intros p. symmetry. revert p.
    apply (Permutation_count_occ string_dec). exact Hperm.
Qed.

Lemma C10_sort_paths_permutation_witness :
  exists out,
    sort_paths ["x_3.parquet"; "x_-1.parquet"; "x_3.parquet"; "y_ 2.parquet"] = Ok out /\
    Permutation ["x_3.parquet"; "x_-1.parquet"; "x_3.parquet"; "y_ 2.parquet"] out /\
    List.length out = 4%nat /\
    forall p, count_occ string_dec out p
              = count_occ string_dec
                  ["x_3.parquet"; "x_-1.parquet"; "x_3.parquet"; "y_ 2.parquet"] p.
Proof.
  apply (C10_sort_paths_permutation
           ["x_3.parquet"; "x_-1.parquet"; "x_3.parquet"; "y_ 2.parquet"]).
  repeat constructor.
  - exists 3%Z; reflexivity.
  - exists (-1)%Z; reflexivity.
  - exists 3%Z; reflexivity.
  - exists 2%Z; reflexivity.
Defined.

(** C6 as stated fails: a singleton list is returned without its name
    being looked at, numeric suffix or not. *)
Lemma C6_counterexample :
  (forall n, ~ numeric (trailing_suffix "train_base.parquet") n) /\
  sort_paths ["train_base.parquet"] = Ok ["train_base.parquet"].
Proof.
  split; [|reflexivity].
  intros n H. vm_compute in H. discriminate.
Qed.

(** C6, amended.  On a list that is not a singleton and in which some
    path has a non-numeric trailing suffix, [sort_paths] raises
    [ValueError] and returns nothing; a singleton list is returned as it
    is. *)
Theorem C6_sort_paths_non_numeric :
  (forall paths,
      List.length paths <> 1%nat ->
      Exists (fun p => forall n, ~ numeric (trailing_suffix p) n) paths ->
      sort_paths paths = Raise ValueError) /\
  (forall path, sort_paths [path] = Ok [path]).
Proof.
  split; [|reflexivity].
  intros paths Hlen Hex. unfold sort_paths.
  apply Nat.eqb_neq in Hlen. rewrite Hlen.
  rewrite (comprehension_raise path_num paths ValueError); [reflexivity| |].
  - intros p _. destruct (path_num_cases p) as [[n Hn]|Hn]; [eauto|].
    exists 0%Z; auto.
  - eapply Exists_impl; [|exact Hex].
    intros p Hp. simpl in Hp.
    destruct (path_num_cases p) as [[n Hn]|Hn]; [|exact Hn].
    exfalso. apply (Hp n). unfold numeric. rewrite <- path_num_int. exact Hn.
Qed.

Lemma C6_sort_paths_non_numeric_witness :
  sort_paths ["a_1.parquet"; "a_x.parquet"; "a_2.parquet"] = Raise ValueError.
Proof.
  apply (proj1 C6_sort_paths_non_numeric).
  - simpl. discriminate.
  - apply Exists_cons_tl. apply Exists_cons_hd.
    intros n H. vm_compute in H. discriminate.
Defined.

(** ** Dictionaries *)

Section DictFacts.
Context {V : Type}.
Implicit Types (d : dict.t V) (k : string) (v : V).

Lemma get_set_eq k v d : dict.get k (dict.set k v d) = Some v.
Proof.
  induction d as [|[k' v'] d IH]; simpl.
  - rewrite String.eqb_refl. reflexivity.
  - destruct (String.eqb k' k) eqn:E; simpl; rewrite E; auto.
Qed.

Lemma get_set_ne k k' v d : k <> k' -> dict.get k (dict.set k' v d) = dict.get k d.
Proof.
  intros Hne. induction d as [|[k0 v0] d IH]; simpl.
  - destruct (String.eqb k' k) eqn:E; [|reflexivity].
    apply String.eqb_eq in E. congruence.
  - destruct (String.eqb k0 k') eqn:E; simpl.
    + apply String.eqb_eq in E. subst k0.
      destruct (String.eqb k' k) eqn:E'; [|reflexivity].
      apply String.eqb_eq in E'. congruence.
    + destruct (String.eqb k0 k); auto.
Qed.

Lemma keys_set_in k v d :
  In k (dict.keys d) -> dict.keys (dict.set k v d) = dict.keys d.
Proof.
  induction d as [|[k0 v0] d IH]; simpl; intros H; [contradiction|].
  destruct (String.eqb k0 k) eqn:E; simpl; [reflexivity|].
  apply String.eqb_neq in E. f_equal. apply IH. tauto.
Qed.

Lemma keys_set_new k v d :
  ~ In k (dict.keys d) -> dict.keys (dict.set k v d) = dict.keys d ++ [k].
Proof.
  induction d as [|[k0 v0] d IH]; simpl; intros H; [reflexivity|].
  destruct (String.eqb k0 k) eqn:E; simpl.
  - apply String.eqb_eq in E. tauto.
  - f_equal. apply IH. tauto.
Qed.

Lemma set_keys_nodup k v d :
  NoDup (dict.keys d) -> NoDup (dict.keys (dict.set k v d)).
Proof.
  intros H.
  destruct (in_dec string_dec k (dict.keys d)) as [Hin|Hin].
  - rewrite keys_set_in by assumption. exact H.
  - rewrite keys_set_new by assumption.
    apply NoDup_app; [exact H | repeat constructor; simpl; tauto |].
    intros x Hx [<-|[]]. contradiction.
Qed.

Lemma set_keys_incl k v d x :
  In x (dict.keys (dict.set k v d)) -> x = k \/ In x (dict.keys d).
Proof.
  destruct (in_dec string_dec k (dict.keys d)) as [Hin|Hin].
  - rewrite keys_set_in by assumption. auto.
  - rewrite keys_set_new by assumption. intros H.
    apply in_app_or in H. destruct H as [H|[<-|[]]]; auto.
Qed.

Lemma get_none k d : ~ In k (dict.keys d) -> dict.get k d = None.
Proof.
  induction d as [|[k0 v0] d IH]; simpl; intros H; [reflexivity|].
  destruct (String.eqb k0 k) eqn:E.
  - apply String.eqb_eq in E. tauto.
  - apply IH. tauto.
Qed.

Lemma get_some_in k v d : dict.get k d = Some v -> In (k, v) d.
Proof.
  induction d as [|[k0 v0] d IH]; simpl; [discriminate|].
  destruct (String.eqb k0 k) eqn:E.
  - apply String.eqb_eq in E. intros H; injection H as <-. subst; auto.
  - auto.
Qed.

Lemma get_some_key k v d : dict.get k d = Some v -> In k (dict.keys d).
Proof.
  intros H. apply get_some_in in H.
  apply in_map_iff. exists (k, v); auto.
Qed.

Lemma in_get_nodup k v d :
  NoDup (dict.keys d) -> In (k, v) d -> dict.get k d = Some v.
Proof.
  induction d as [|[k0 v0] d IH]; simpl; intros Hnd Hin; [contradiction|].
  inversion Hnd as [|? ? Hk0 Hd]; subst.
  destruct Hin as [E|Hin].
  - injection E as -> ->. rewrite String.eqb_refl. reflexivity.
  - destruct (String.eqb k0 k) eqn:E.
    + apply String.eqb_eq in E. subst k0. exfalso. apply Hk0.
      apply in_map_iff. exists (k, v); auto.
    + auto.
Qed.

Lemma get_update_other k d other :
  ~ In k (dict.keys other) -> dict.get k (dict.update d other) = dict.get k d.
Proof.
  unfold dict.update. revert d.
  induction other as [|[k0 v0] o IH]; simpl; intros d H; [reflexivity|].
  rewrite IH by tauto. apply get_set_ne. intros ->. tauto.
Qed.

Lemma get_update_in k v d other :
  NoDup (dict.keys other) -> dict.get k other = Some v ->
  dict.get k (dict.update d other) = Some v.
Proof.
  unfold dict.update. revert d.
  induction other as [|[k0 v0] o IH]; simpl; intros d Hnd H; [discriminate|].
  inversion Hnd as [|? ? Hk0 Ho]; subst.
  destruct (String.eqb k0 k) eqn:E.
  - apply String.eqb_eq in E. subst k0. injection H as ->.
    fold (dict.update (dict.set k v d) o).
    rewrite get_update_other by assumption. apply get_set_eq.
  - apply IH; assumption.
Qed.

Lemma get_comprehension (f : string -> V) (ks : list string) k v :
  dict.get k (dict.comprehension f ks) = Some v -> v = f k.
Proof.
  unfold dict.comprehension.
  assert (G : forall d, (forall v', dict.get k d = Some v' -> v' = f k) ->
                        forall v', dict.get k (fold_left (fun acc x => dict.set x (f x) acc) ks d) = Some v' ->
                                   v' = f k).
  { induction ks as [|x ks IH]; simpl; intros d Hd v' H; [auto|].
    apply (IH (dict.set x (f x) d)); [|exact H].
    intros v'' H''. destruct (string_dec k x) as [->|Hne].
    - rewrite get_set_eq in H''. congruence.
    - rewrite get_set_ne in H'' by assumption. auto. }
  apply G. intros v' H'. discriminate.
Qed.

Lemma get_comprehension_in (f : string -> V) (ks : list string) k :
  In k ks -> dict.get k (dict.comprehension f ks) = Some (f k).
Proof.
  unfold dict.comprehension.
  assert (G : forall d, (In k ks \/ dict.get k d = Some (f k)) ->
                        dict.get k (fold_left (fun acc x => dict.set x (f x) acc) ks d)
                        = Some (f k)).
  { induction ks as [|x ks IH]; simpl; intros d H.
    - destruct H as [[]|H]; exact H.
    - apply IH. destruct (string_dec k x) as [->|Hne].
      + right. apply get_set_eq.
      + destruct H as [[E|H]|H]; [congruence | auto |].
        right. rewrite get_set_ne by assumption. exact H. }
  intros H. apply G. auto.
Qed.

End DictFacts.

(** ** [set_dtypes] *)

Lemma last_char_some (s : string) :
  s <> EmptyString -> exists c, py.last_char s = Some c.
Proof.
  induction s as [|c s IH]; [congruence|]. intros _.
  destruct s as [|c' s']; [exists c; reflexivity|].
  destruct IH as [x Hx]; [discriminate|]. exists x. exact Hx.
Qed.

(** The loop body either leaves the schema alone or assigns the dtype of
    its column; which of the two depends on the column name only. *)
Lemma body_cases (cfg : Config) (col : string) (schema : Schema) :
  fst (set_dtypes_body cfg col schema) = schema \/
  exists t, set_dtypes_body cfg col schema = (dict.set col t schema, None).
Proof.
  unfold set_dtypes_body.
  repeat match goal with
         | |- context [if ?b then _ else _] => destruct b
         | |- context [match py.last_char ?c with _ => _ end] =>
             destruct (py.last_char c)
         end; simpl; eauto.
Qed.

Lemma body_int (cfg : Config) (col : string) (schema : Schema) :
  str_in col (int_columns cfg) = true ->
  set_dtypes_body cfg col schema = (dict.set col pl.Int64 schema, None).
Proof. intros H. unfold set_dtypes_body. rewrite H. reflexivity. Qed.

Lemma body_date_column (cfg : Config) (col : string) (schema : Schema) :
  str_in col (int_columns cfg) = false ->
  str_in col (date_columns cfg) = true ->
  set_dtypes_body cfg col schema = (dict.set col pl.Date schema, None).
Proof. intros H1 H2. unfold set_dtypes_body. rewrite H1, H2. reflexivity. Qed.

Lemma body_suffix (cfg : Config) (col : string) (schema : Schema) (c : ascii) :
  str_in col (int_columns cfg) = false ->
  str_in col (date_columns cfg) = false ->
  py.last_char col = Some c ->
  set_dtypes_body cfg col schema =
    if chr_in c ["P"; "A"]%char then (dict.set col pl.Float64 schema, None)
    else if chr_in c ["M"]%char then (dict.set col pl.String schema, None)
    else if chr_in c ["D"]%char then (dict.set col pl.Date schema, None)
    else (schema, None).
Proof.
  intros H1 H2 H3. unfold set_dtypes_body. rewrite H1, H2, H3.
  repeat match goal with
         | |- context [if ?b then _ else _] => destruct b
         end; reflexivity.
Qed.

Lemma body_empty_name (cfg : Config) (schema : Schema) :
  str_in EmptyString (int_columns cfg) = false ->
  str_in EmptyString (date_columns cfg) = false ->
  set_dtypes_body cfg EmptyString schema = (schema, Some IndexError).
Proof. intros H1 H2. unfold set_dtypes_body. rewrite H1, H2. reflexivity. Qed.

Lemma body_indexable (cfg : Config) (col : string) (schema : Schema) :
  indexable cfg col -> snd (set_dtypes_body cfg col schema) = None.
Proof.
  intros H. unfold set_dtypes_body.
  destruct (str_in col (int_columns cfg)) eqn:E1; [reflexivity|].
  destruct (str_in col (date_columns cfg)) eqn:E2; [reflexivity|].
  destruct H as [H|[H|H]]; try congruence.
  destruct (last_char_some col H) as [c ->].
  repeat match goal with
         | |- context [if ?b then _ else _] => destruct b
         end; reflexivity.
Qed.

(** A column the loop does not visit keeps its dtype. *)
Lemma loop_get_other (cfg : Config) (cols : list string) (schema : Schema) (k : string) :
  ~ In k cols ->
  dict.get k (fst (set_dtypes_loop cfg cols schema)) = dict.get k schema.
Proof.
  revert schema; induction cols as [|col cols IH]; intros schema H; [reflexivity|].
  simpl. assert (Hne : k <> col) by (intros ->; apply H; left; reflexivity).
  assert (Hbody : dict.get k (fst (set_dtypes_body cfg col schema)) = dict.get k schema).
  { destruct (body_cases cfg col schema) as [E|[t E]]; rewrite E; [reflexivity|].
    simpl. apply get_set_ne. exact Hne. }
  destruct (set_dtypes_body cfg col schema) as [s1 [e|]]; simpl in *.
  - exact Hbody.
  - rewrite IH; [exact Hbody|]. intros Hin. apply H. right. exact Hin.
Qed.

(** A column the loop visits, and whose name makes the body assign
    [t], ends with dtype [t] when the loop runs to its end. *)
Lemma loop_get_assigned (cfg : Config) (cols : list string) (schema schema' : Schema)
  (k : string) (t : pl.DataType) :
  (forall s, set_dtypes_body cfg k s = (dict.set k t s, None)) ->
  In k cols ->
  set_dtypes_loop cfg cols schema = (schema', None) ->
  dict.get k schema' = Some t.
Proof.
  intros Hk. revert schema; induction cols as [|col cols IH]; intros schema Hin H;
    [contradiction|].
  simpl in H.
  destruct (set_dtypes_body cfg col schema) as [s1 [e|]] eqn:E; [discriminate|].
  destruct (in_dec string_dec k cols) as [Hin'|Hnin].
  - eapply IH; eassumption.
  - destruct Hin as [->|Hin]; [|contradiction].
    pose proof (loop_get_other cfg cols s1 k Hnin) as G.
    rewrite H in G. simpl in G. rewrite G.
    rewrite Hk in E. injection E as <-. apply get_set_eq.
Qed.

Lemma loop_returns (cfg : Config) (cols : list string) (schema : Schema) :
  (forall col, In col cols -> indexable cfg col) ->
  snd (set_dtypes_loop cfg cols schema) = None.
Proof.
  revert schema; induction cols as [|col cols IH]; intros schema H; [reflexivity|].
  simpl. pose proof (body_indexable cfg col schema (H col (or_introl eq_refl))) as E.
  destruct (set_dtypes_body cfg col schema) as [s1 o]. simpl in E. subst o.
  apply IH. intros c Hc. apply H. right. exact Hc.
Qed.

Lemma loop_keys (cfg : Config) (cols : list string) (schema : Schema) :
  (forall col, In col cols -> In col (dict.keys schema)) ->
  dict.keys (fst (set_dtypes_loop cfg cols schema)) = dict.keys schema.
Proof.
  revert schema; induction cols as [|col cols IH]; intros schema H; [reflexivity|].
  simpl.
  assert (Hbody : dict.keys (fst (set_dtypes_body cfg col schema)) = dict.keys schema).
  { destruct (body_cases cfg col schema) as [E|[t E]]; rewrite E; [reflexivity|].
    simpl. apply keys_set_in. apply H. left. reflexivity. }
  destruct (set_dtypes_body cfg col schema) as [s1 [e|]]; simpl in *.
  - exact Hbody.
  - rewrite IH; [exact Hbody|].
    intros c Hc. rewrite Hbody. apply H. right. exact Hc.
Qed.

(** [set_dtypes] returns exactly on the schemas whose column names can
    all be indexed. *)
Lemma set_dtypes_returns (cfg : Config) (schema : Schema) :
  (forall col, In col (dict.keys schema) -> indexable cfg col) ->
  set_dtypes cfg schema = Ok (fst (set_dtypes_run cfg schema)).
Proof.
  intros H. unfold set_dtypes, set_dtypes_run.
  pose proof (loop_returns cfg (dict.keys schema) schema H) as E.
  destruct (set_dtypes_loop cfg (dict.keys schema) schema) as [s o].
  simpl in E. subst o. reflexivity.
Qed.

Lemma loop_raises (cfg : Config) (cols : list string) (schema : Schema) :
  Exists (fun col => ~ indexable cfg col) cols ->
  snd (set_dtypes_loop cfg cols schema) = Some IndexError.
Proof.
  revert schema; induction cols as [|col cols IH]; intros schema H;
    [inversion H|].
  simpl.
  destruct (set_dtypes_body cfg col schema) as [s1 [e|]] eqn:E.
  - simpl. unfold set_dtypes_body in E.
    repeat match type of E with
           | context [if ?b then _ else _] => destruct b
           | context [match py.last_char ?c with _ => _ end] =>
               destruct (py.last_char c)
           end; try discriminate; injection E as _ <-; reflexivity.
  - inversion H as [? ? Hc|? ? Hl]; subst.
    + exfalso. apply Hc. unfold indexable.
      unfold set_dtypes_body in E.
      destruct (str_in col (int_columns cfg)); [auto|].
      destruct (str_in col (date_columns cfg)); [auto|].
      right; right. intros ->. simpl in E. discriminate.
    + apply IH. exact Hl.
Qed.

Lemma set_dtypes_raises (cfg : Config) (schema : Schema) :
  Exists (fun col => ~ indexable cfg col) (dict.keys schema) ->
  set_dtypes cfg schema = Raise IndexError.
Proof.
  intros H. unfold set_dtypes, set_dtypes_run.
  pose proof (loop_raises cfg (dict.keys schema) schema H) as E.
  destruct (set_dtypes_loop cfg (dict.keys schema) schema) as [s o].
  simpl in E. subst o. reflexivity.
Qed.

Lemma str_in_app (x : string) (l1 l2 : list string) :
  str_in x (l1 ++ l2) = false -> str_in x l1 = false /\ str_in x l2 = false.
Proof.
  unfold str_in. rewrite existsb_app. apply orb_false_iff.
Qed.

(** C2 as stated fails: a schema may hold a column whose name is empty,
    and on it [col[-1]] raises before the column ending in ["P"] is
    reached; that column keeps the dtype it had. *)
Lemma C2_counterexample :
  In "amt_P" (dict.keys [(EmptyString, pl.PyNone); ("amt_P", pl.PyNone)]) /\
  py.last_char "amt_P" = Some "P"%char /\
  set_dtypes Sample.cfg [(EmptyString, pl.PyNone); ("amt_P", pl.PyNone)] = Raise IndexError /\
  dict.get "amt_P" (fst (set_dtypes_run Sample.cfg [(EmptyString, pl.PyNone); ("amt_P", pl.PyNone)]))
  = Some pl.PyNone.
Proof.
  repeat split; try reflexivity. simpl. auto.
Qed.

(** The same happens under every configuration whose forced columns
    have non-empty names. *)
Lemma set_dtypes_empty_name (cfg : Config) (schema : Schema) :
  str_in EmptyString (int_columns cfg) = false ->
  str_in EmptyString (date_columns cfg) = false ->
  set_dtypes cfg ((EmptyString, pl.PyNone) :: schema) = Raise IndexError /\
  fst (set_dtypes_run cfg ((EmptyString, pl.PyNone) :: schema))
  = (EmptyString, pl.PyNone) :: schema.
Proof.
  intros H1 H2. unfold set_dtypes, set_dtypes_run. simpl.
  rewrite (body_empty_name cfg _ H1 H2). auto.
Qed.

(** C2, amended.  On a schema in which every column name is non-empty or
    is one of the forced columns, [set_dtypes] returns a schema with the
    same columns where: the identity, week and group-number columns are
    integer whatever their suffix; among the others, the known date
    column and the columns ending in ["D"] are dates, and a column that
    is not the known date column is float when it ends in ["P"] or
    ["A"] and string when it ends in ["M"].  When ["id"] is configured as
    identity or week column and ["amt_P"], ["flag_M"] are not forced
    columns, the schema [{amt_P: None, id: None, flag_M: None}] becomes
    [{amt_P: Float64, id: Int64, flag_M: String}]. *)
Theorem C2_set_dtypes_by_suffix (cfg : Config) :
  (forall schema,
      (forall col, In col (dict.keys schema) -> indexable cfg col) ->
      exists schema',
        set_dtypes cfg schema = Ok schema' /\
        dict.keys schema' = dict.keys schema /\
        forall col, In col (dict.keys schema) ->
          (str_in col (int_columns cfg) = true ->
           dict.get col schema' = Some pl.Int64) /\
          (str_in col (int_columns cfg) = false ->
           (str_in col (date_columns cfg) = true ->
            dict.get col schema' = Some pl.Date) /\
           (py.last_char col = Some "D"%char ->
            dict.get col schema' = Some pl.Date) /\
           (str_in col (date_columns cfg) = false ->
            (py.last_char col = Some "P"%char \/ py.last_char col = Some "A"%char ->
             dict.get col schema' = Some pl.Float64) /\
            (py.last_char col = Some "M"%char ->
             dict.get col schema' = Some pl.String)))) /\
  (str_in "id" (int_columns cfg) = true ->
   str_in "amt_P" (int_columns cfg ++ date_columns cfg) = false ->
   str_in "flag_M" (int_columns cfg ++ date_columns cfg) = false ->
   set_dtypes cfg [("amt_P", pl.PyNone); ("id", pl.PyNone); ("flag_M", pl.PyNone)]
   = Ok [("amt_P", pl.Float64); ("id", pl.Int64); ("flag_M", pl.String)]).
Proof.
  split.
  - intros schema Hidx.
    exists (fst (set_dtypes_run cfg schema)).
    split; [apply set_dtypes_returns; exact Hidx|].
    split; [apply loop_keys; auto|].
    assert (Hrun : set_dtypes_loop cfg (dict.keys schema) schema
                   = (fst (set_dtypes_run cfg schema), None)).
    { pose proof (loop_returns cfg (dict.keys schema) schema Hidx) as E.
      unfold set_dtypes_run.
      destruct (set_dtypes_loop cfg (dict.keys schema) schema) as [s o].
      simpl in *. subst o. reflexivity. }
    intros col Hin.
    assert (Hset : forall t, (forall s, set_dtypes_body cfg col s = (dict.set col t s, None)) ->
                             dict.get col (fst (set_dtypes_run cfg schema)) = Some t).
    { intros t Ht. eapply loop_get_assigned; eassumption. }
    split; [|intros Hint; split; [|split; [|intros Hdate; split]]].
    + intros Hint. apply Hset. intros s. apply body_int. exact Hint.
    + intros Hdate. apply Hset. intros s. apply body_date_column; assumption.
    + intros HD. apply Hset. intros s.
      destruct (str_in col (date_columns cfg)) eqn:Hdate.
      * apply body_date_column; assumption.
      * rewrite (body_suffix cfg col s "D" Hint Hdate HD). reflexivity.
    + intros [HP|HA]; apply Hset; intros s.
      * rewrite (body_suffix cfg col s "P" Hint Hdate HP). reflexivity.
      * rewrite (body_suffix cfg col s "A" Hint Hdate HA). reflexivity.
    + intros HM. apply Hset. intros s.
      rewrite (body_suffix cfg col s "M" Hint Hdate HM). reflexivity.
  - intros Hid HP HM.
    apply str_in_app in HP. destruct HP as [HP1 HP2].
    apply str_in_app in HM. destruct HM as [HM1 HM2].
    unfold set_dtypes, set_dtypes_run. cbn [dict.keys List.map fst set_dtypes_loop].
    rewrite (body_suffix cfg "amt_P" _ "P" HP1 HP2 eq_refl).
    cbn [chr_in existsb Ascii.eqb Bool.eqb orb dict.set String.eqb].
    rewrite (body_int cfg "id" _ Hid).
    cbn [dict.set String.eqb Ascii.eqb Bool.eqb].
    rewrite (body_suffix cfg "flag_M" _ "M" HM1 HM2 eq_refl).
    reflexivity.
Qed.

Lemma C2_set_dtypes_by_suffix_witness :
  set_dtypes Sample.cfg_id
    [("amt_P", pl.PyNone); ("id", pl.PyNone); ("flag_M", pl.PyNone)]
  = Ok [("amt_P", pl.Float64); ("id", pl.Int64); ("flag_M", pl.String)] /\
  exists schema',
    set_dtypes Sample.cfg_id
      [("WEEK_NUM", pl.Int32); ("credamount_590A", pl.Int64); ("x_L", pl.Boolean)]
    = Ok schema' /\
    dict.keys schema' = ["WEEK_NUM"; "credamount_590A"; "x_L"].
Proof.
  split.
  - apply (proj2 (C2_set_dtypes_by_suffix Sample.cfg_id)); reflexivity.
  - destruct (proj1 (C2_set_dtypes_by_suffix Sample.cfg_id)
                [("WEEK_NUM", pl.Int32); ("credamount_590A", pl.Int64);
                 ("x_L", pl.Boolean)]) as [schema' [H1 [H2 _]]].
    + intros col [<-|[<-|[<-|[]]]]; right; right; discriminate.
    + exists schema'. split; assumption.
Defined.

(** [set_dtypes] leaves a column alone when its name is no forced column
    and does not end in one of the four suffixes, also when the call
    raises on another column (or on this one, its name being empty). *)
Lemma body_unchanged (cfg : Config) (col : string) (schema : Schema) :
  str_in col (int_columns cfg) = false ->
  str_in col (date_columns cfg) = false ->
  (forall c, py.last_char col = Some c -> chr_in c ["P"; "A"; "M"; "D"]%char = false) ->
  fst (set_dtypes_body cfg col schema) = schema.
Proof.
  intros H1 H2 H3. unfold set_dtypes_body. rewrite H1, H2.
  destruct (py.last_char col) as [c|]; [|reflexivity].
  specialize (H3 c eq_refl). unfold chr_in in *. simpl in *.
  destruct (Ascii.eqb c "P"); [discriminate|].
  destruct (Ascii.eqb c "A"); [discriminate|].
  destruct (Ascii.eqb c "M"); [discriminate|].
  destruct (Ascii.eqb c "D"); [discriminate|].
  simpl. destruct (Ascii.eqb c "T" || (Ascii.eqb c "L" || false)); reflexivity.
Qed.

Lemma loop_frame (cfg : Config) (col : string) (cols : list string) (schema : Schema) :
  str_in col (int_columns cfg) = false ->
  str_in col (date_columns cfg) = false ->
  (forall c, py.last_char col = Some c -> chr_in c ["P"; "A"; "M"; "D"]%char = false) ->
  dict.get col (fst (set_dtypes_loop cfg cols schema)) = dict.get col schema.
Proof.
  intros H1 H2 H3.
  revert schema; induction cols as [|c cols IH]; intros schema; [reflexivity|].
  simpl.
  assert (Hbody : dict.get col (fst (set_dtypes_body cfg c schema)) = dict.get col schema).
  { destruct (string_dec col c) as [<-|Hne].
    - rewrite body_unchanged; auto.
    - destruct (body_cases cfg c schema) as [E|[t E]]; rewrite E; [reflexivity|].
      simpl. apply get_set_ne. exact Hne. }
  destruct (set_dtypes_body cfg c schema) as [s1 [e|]]; simpl in *.
  - exact Hbody.
  - rewrite IH. exact Hbody.
Qed.

(** C7. A column that is no identity, week, group-number or known date
    column and whose last character is none of ["P"], ["A"], ["M"],
    ["D"] (so also one ending in ["T"] or ["L"]) has after [set_dtypes]
    the dtype it had before, in the schema object and in the schema
    returned. *)
Theorem C7_set_dtypes_frame (cfg : Config) (schema : Schema) (col : string) :
  str_in col (int_columns cfg) = false ->
  str_in col (date_columns cfg) = false ->
  (forall c, py.last_char col = Some c -> chr_in c ["P"; "A"; "M"; "D"]%char = false) ->
  dict.get col (fst (set_dtypes_run cfg schema)) = dict.get col schema /\
  (forall schema', set_dtypes cfg schema = Ok schema' ->
                   dict.get col schema' = dict.get col schema).
Proof.
  intros H1 H2 H3.
  assert (G : dict.get col (fst (set_dtypes_run cfg schema)) = dict.get col schema).
  { unfold set_dtypes_run. apply loop_frame; assumption. }
  split; [exact G|].
  intros schema' H. unfold set_dtypes in H.
  destruct (set_dtypes_run cfg schema) as [s [e|]]; [discriminate|].
  injection H as <-. exact G.
Qed.

Lemma C7_set_dtypes_frame_witness :
  dict.get "isbidproduct_1095L"
    (fst (set_dtypes_run Sample.cfg
            [("case_id", pl.Int32); ("isbidproduct_1095L", pl.Boolean);
             ("amount_4527230A", pl.Int64); ("recorddate_4527225D", pl.String)]))
  = Some pl.Boolean /\
  (forall schema',
      set_dtypes Sample.cfg
        [("case_id", pl.Int32); ("isbidproduct_1095L", pl.Boolean);
         ("amount_4527230A", pl.Int64); ("recorddate_4527225D", pl.String)]
      = Ok schema' ->
      dict.get "isbidproduct_1095L" schema' = Some pl.Boolean).
Proof.
  apply (C7_set_dtypes_frame Sample.cfg
           [("case_id", pl.Int32); ("isbidproduct_1095L", pl.Boolean);
            ("amount_4527230A", pl.Int64); ("recorddate_4527225D", pl.String)]
           "isbidproduct_1095L").
  - reflexivity.
  - reflexivity.
  - intros c H. vm_compute in H. injection H as <-. reflexivity.
Defined.

(** ** Categorical domains *)

Lemma pyval_eqb_eq (a b : pyval) : pyval_eqb a b = true <-> a = b.
Proof.
  destruct a, b; simpl; split; intros H; try discriminate; try congruence.
  - apply String.eqb_eq in H. congruence.
  - injection H as ->. apply String.eqb_refl.
  - apply Z.eqb_eq in H. congruence.
  - injection H as ->. apply Z.eqb_refl.
  - apply Bool.eqb_prop in H. congruence.
  - injection H as ->. apply Bool.eqb_reflx.
Qed.

Lemma cell_eqb_eq (a b : option pyval) : cell_eqb a b = true <-> a = b.
Proof.
  destruct a as [x|], b as [y|]; simpl; split; intros H;
    try discriminate; try reflexivity.
  - apply pyval_eqb_eq in H. congruence.
  - injection H as ->. apply pyval_eqb_eq. reflexivity.
Qed.

Lemma unique_in (l : list (option pyval)) (x : option pyval) :
  In x (polars.unique l) <-> In x l.
Proof.
  induction l as [|a l IH]; simpl; [tauto|].
  rewrite filter_In, IH. split.
  - intros [H|[H _]]; auto.
  - intros [H|H]; [auto|].
    destruct (cell_eqb a x) eqn:E.
    + left. apply cell_eqb_eq. exact E.
    + right. auto.
Qed.

Lemma unique_nodup (l : list (option pyval)) : NoDup (polars.unique l).
Proof.
  induction l as [|a l IH]; simpl; constructor.
  - rewrite filter_In. intros [_ H].
    assert (E : cell_eqb a a = true) by (apply cell_eqb_eq; reflexivity).
    rewrite E in H. discriminate.
  - apply NoDup_filter. exact IH.
Qed.

Lemma keep_value_in (c : option pyval) (v : pyval) :
  In v (keep_value c) <-> (c = Some v /\ v <> PStr EmptyString).
Proof.
  destruct c as [[[|a s]|z|b]|]; simpl; split; intros H.
  - contradiction.
  - destruct H as [H Hne]. injection H as <-. congruence.
  - destruct H as [<-|[]]. split; [reflexivity|discriminate].
  - destruct H as [H _]. injection H as <-. auto.
  - destruct H as [<-|[]]. split; [reflexivity|discriminate].
  - destruct H as [H _]. injection H as <-. auto.
  - destruct H as [<-|[]]. split; [reflexivity|discriminate].
  - destruct H as [H _]. injection H as <-. auto.
  - contradiction.
  - destruct H as [H _]. discriminate.
Qed.

Lemma keep_values_nodup (l : list (option pyval)) :
  NoDup l -> NoDup (List.flat_map keep_value l).
Proof.
  induction 1 as [|c l Hc Hl IH]; simpl; [constructor|].
  destruct (keep_value c) as [|v [|w r]] eqn:E; simpl.
  - exact IH.
  - constructor; [|exact IH].
    intros Hin. apply in_flat_map in Hin. destruct Hin as [c' [Hc' Hv]].
    apply keep_value_in in Hv. destruct Hv as [-> _].
    assert (Hv : In v (keep_value c)) by (rewrite E; left; reflexivity).
    apply keep_value_in in Hv. destruct Hv as [-> _]. contradiction.
  - exfalso. destruct c as [[[|a s]|z|b]|]; simpl in E; discriminate.
Qed.

(** The values [write_data_props] collects for a column are its
    categorical domain. *)
Lemma col_vals_domain (series : polars.Series) : domain_of series (col_vals series).
Proof.
  unfold domain_of, col_vals. split.
  - apply keep_values_nodup. apply unique_nodup.
  - intros v. rewrite in_flat_map. split.
    + intros [c [Hc Hv]]. apply keep_value_in in Hv. destruct Hv as [-> Hne].
      apply (proj1 (unique_in _ _)) in Hc. split; [exact Hc|exact Hne].
    + intros [Hin Hne]. exists (Some v). split.
      * apply unique_in. exact Hin.
      * apply keep_value_in. auto.
Qed.

(** ** The features table *)

Lemma loc_scalar (df : pd.DataFrame) (label : string)
  (field : pd.FeatureRow -> string) (s : string) :
  pd.loc df label field = Ok (pd.Scalar s) ->
  exists r, In r df /\ pd.feature r = label /\ field r = s /\
            forall r', In r' df -> pd.feature r' = label -> r' = r.
Proof.
  unfold pd.loc.
  destruct (List.filter (fun r => String.eqb (pd.feature r) label) df)
    as [|r [|r2 rs]] eqn:E; intros H; try discriminate.
  injection H as <-.
  assert (Hr : In r (List.filter (fun r => String.eqb (pd.feature r) label) df))
    by (rewrite E; left; reflexivity).
  apply filter_In in Hr. destruct Hr as [Hin Hf]. apply String.eqb_eq in Hf.
  exists r. repeat split; auto.
  intros r' Hin' Hf'.
  assert (Hr' : In r' (List.filter (fun r => String.eqb (pd.feature r) label) df)).
  { apply filter_In. split; [exact Hin'|]. apply String.eqb_eq. exact Hf'. }
  rewrite E in Hr'. destruct Hr' as [<-|[]]. reflexivity.
Qed.

Lemma if_else_ok (c : pd.cell) (other target : string) :
  pd.if_else c other = Ok target ->
  exists s, c = pd.Scalar s /\ target = (if String.eqb s EmptyString then other else s).
Proof.
  destruct c as [s|l]; simpl; [|discriminate].
  intros H. exists s. split; [reflexivity|].
  destruct (String.eqb s EmptyString); injection H as <-; reflexivity.
Qed.

Lemma if_eq_ok (c : pd.cell) (s : string) (b : bool) :
  pd.if_eq c s = Ok b -> exists a, c = pd.Scalar a /\ b = String.eqb a s.
Proof.
  destruct c as [a|l]; simpl; [|discriminate].
  intros H. injection H as <-. eauto.
Qed.

Lemma str_in_true (x : string) (l : list string) : str_in x l = true <-> In x l.
Proof.
  unfold str_in. rewrite existsb_exists. split.
  - intros [y [Hy E]]. apply String.eqb_eq in E. subst. exact Hy.
  - intros H. exists x. split; [exact H|apply String.eqb_refl].
Qed.

Lemma str_in_index (sg : pd.DataFrame) (col : string) :
  str_in col (pd.index_values sg) = true <->
  exists r, In r sg /\ pd.feature r = col.
Proof.
  rewrite str_in_true. unfold pd.index_values. rewrite in_map_iff.
  split; intros [r [H1 H2]]; exists r; auto.
Qed.

(** ** The loop over the columns of a sample *)

Tactic Notation "inv_bind" hyp(H) "as" ident(x) ident(Hx) :=
  apply bind_ok in H; destruct H as [x [Hx H]].

Lemma getitem_ok {V : Type} (k : string) (d : dict.t V) (v : V) :
  dict.getitem k d = Ok v <-> dict.get k d = Some v.
Proof.
  unfold dict.getitem. destruct (dict.get k d); split; intros H;
    try discriminate; congruence.
Qed.

(** What one turn of the loop does to the four variables. *)
Lemma column_body_ok (F SG : pd.DataFrame) (df : polars.DataFrame) (schema : Schema)
  (col : string) (fs fs' : FileState) :
  incl SG F ->
  column_body F SG df schema col fs = Ok fs' ->
  exists target dtype,
    renamed_to SG col target /\
    mapping fs' = dict.set col (Some target) (mapping fs) /\
    cols_to_incl fs' = cols_to_incl fs ++ [target] /\
    dict.get col schema = Some dtype /\
    cols_dtypes fs' = dict.set col dtype (cols_dtypes fs) /\
    ((flagged_dummy SG col /\
      exists series, polars.getitem df col = Ok series /\
                     cols_cat_i fs' = dict.set col (col_vals series) (cols_cat_i fs)) \/
     (~ flagged_dummy SG col /\ cols_cat_i fs' = cols_cat_i fs)).
Proof.
  intros Hincl H. unfold column_body in H.
  inv_bind H as fs1 Hfs1.
  assert (G : exists target,
             renamed_to SG col target /\
             mapping fs1 = dict.set col (Some target) (mapping fs) /\
             cols_to_incl fs1 = cols_to_incl fs /\
             cols_dtypes fs1 = cols_dtypes fs /\
             ((flagged_dummy SG col /\
               exists series, polars.getitem df col = Ok series /\
                              cols_cat_i fs1 = dict.set col (col_vals series) (cols_cat_i fs)) \/
              (~ flagged_dummy SG col /\ cols_cat_i fs1 = cols_cat_i fs))).
  { destruct (str_in col (pd.index_values SG)) eqn:Hidx.
    - inv_bind Hfs1 as col_new Hnew. inv_bind Hfs1 as target Htarget.
      inv_bind Hfs1 as flag Hflag. inv_bind Hfs1 as is_dummy Hdummy.
      apply if_else_ok in Htarget. destruct Htarget as [s [-> ->]].
      apply loc_scalar in Hnew. destruct Hnew as [r [Hr [Hf [Hs Huniq]]]].
      apply if_eq_ok in Hdummy. destruct Hdummy as [a [-> ->]].
      apply loc_scalar in Hflag. destruct Hflag as [r0 [Hr0 [Hf0 [Ha Huniq0]]]].
      assert (Er : r = r0) by (apply Huniq0; auto).
      subst r0.
      exists (if String.eqb s EmptyString then col else s).
      assert (Hren : renamed_to SG col (if String.eqb s EmptyString then col else s)).
      { split.
        - intros r' Hr' Hf' Hne. rewrite (Huniq r' Hr' Hf'). rewrite Hs.
          destruct (String.eqb s EmptyString) eqn:E; [|reflexivity].
          apply String.eqb_eq in E. rewrite (Huniq r' Hr' Hf') in Hne. congruence.
        - intros Hall. rewrite <- Hs. rewrite (Hall r Hr Hf). reflexivity. }
      destruct (String.eqb a "dummy") eqn:Edummy.
      + inv_bind Hfs1 as series Hser. injection Hfs1 as <-. simpl.
        split; [exact Hren|]. do 3 (split; [reflexivity|]). left. split.
        * exists r. apply String.eqb_eq in Edummy. repeat split; congruence.
        * exists series. auto.
      + injection Hfs1 as <-. simpl.
        split; [exact Hren|]. do 3 (split; [reflexivity|]).
        right. split; [|reflexivity].
        intros [r' [Hr' [Hf' Ha']]].
        rewrite (Huniq r' Hr' Hf') in Ha'. rewrite Ha in Ha'.
        rewrite Ha' in Edummy. discriminate.
    - injection Hfs1 as <-. simpl. exists col.
      assert (Hno : forall r, In r SG -> pd.feature r = col -> False).
      { intros r Hr Hf.
        assert (E : str_in col (pd.index_values SG) = true)
          by (apply str_in_index; eauto).
        congruence. }
      split; [|do 3 (split; [reflexivity|])].
      + split; [|reflexivity]. intros r Hr Hf. exfalso. eauto.
      + right. split; [|reflexivity]. intros [r [Hr [Hf _]]]. eauto. }
  destruct G as [target [Hren [Hmap [Hincl' [Hdt Hcat]]]]].
  inv_bind H as mapped Hmapped. rewrite Hmap in Hmapped.
  apply getitem_ok in Hmapped. rewrite get_set_eq in Hmapped.
  injection Hmapped as <-. cbn [bind] in H.
  inv_bind H as dtype Hdtype. apply getitem_ok in Hdtype.
  injection H as <-. simpl.
  exists target, dtype. rewrite Hincl', Hdt.
  split; [exact Hren|]. split; [exact Hmap|]. split; [reflexivity|].
  split; [exact Hdtype|]. split; [reflexivity|]. exact Hcat.
Qed.

(** What the whole loop leaves in [mapping] and [cols_cat_i]. *)
Lemma columns_loop_inv (F SG : pd.DataFrame) (df : polars.DataFrame) (schema : Schema)
  (cols : list string) (fs0 fs : FileState) :
  incl SG F ->
  for_each (column_body F SG df schema) cols fs0 = Ok fs ->
  (forall k, ~ In k cols ->
             dict.get k (mapping fs) = dict.get k (mapping fs0) /\
             dict.get k (cols_cat_i fs) = dict.get k (cols_cat_i fs0)) /\
  (forall k, In k cols ->
             (exists target, dict.get k (mapping fs) = Some (Some target) /\
                             renamed_to SG k target) /\
             (flagged_dummy SG k ->
              exists series, polars.getitem df k = Ok series /\
                             dict.get k (cols_cat_i fs) = Some (col_vals series))) /\
  (NoDup (dict.keys (cols_cat_i fs0)) -> NoDup (dict.keys (cols_cat_i fs))) /\
  (forall k, In k (dict.keys (cols_cat_i fs)) ->
             In k (dict.keys (cols_cat_i fs0)) \/ In k cols).
Proof.
  intros Hincl. revert fs0.
  induction cols as [|c cols IH]; intros fs0 H.
  - injection H as <-.
    split; [intros k _; split; reflexivity|].
    split; [intros k []|]. split; [auto|]. intros k Hk; left; exact Hk.
  - simpl in H. inv_bind H as fs1 Hstep.
    destruct (IH fs1 H) as [IH1 [IH2 [IH3 IH4]]].
    destruct (column_body_ok F SG df schema c fs0 fs1 Hincl Hstep)
      as [target [dtype [Hren [Hmap [_ [_ [_ Hcat]]]]]]].
    assert (Hcat_other : forall k, k <> c ->
              dict.get k (cols_cat_i fs1) = dict.get k (cols_cat_i fs0)).
    { intros k Hne. destruct Hcat as [[_ [series [_ E]]]|[_ E]]; rewrite E;
        [apply get_set_ne; exact Hne | reflexivity]. }
    split; [|split; [|split]].
    + intros k Hk.
      assert (Hne : k <> c) by (intros ->; apply Hk; left; reflexivity).
      assert (Hk' : ~ In k cols) by (intros Hin; apply Hk; right; exact Hin).
      destruct (IH1 k Hk') as [E1 E2]. rewrite E1, E2, Hmap.
      split; [apply get_set_ne; exact Hne | apply Hcat_other; exact Hne].
    + intros k Hk.
      destruct (in_dec string_dec k cols) as [Hin|Hnin]; [apply IH2; exact Hin|].
      destruct Hk as [<-|Hk]; [|contradiction].
      destruct (IH1 c Hnin) as [E1 E2]. rewrite E1, E2, Hmap. split.
      * exists target. split; [apply get_set_eq | exact Hren].
      * intros Hflag. destruct Hcat as [[_ [series [Hser E]]]|[Hno _]];
          [|contradiction].
        exists series. split; [exact Hser|]. rewrite E. apply get_set_eq.
    + intros Hnd. apply IH3.
      destruct Hcat as [[_ [series [_ E]]]|[_ E]]; rewrite E;
        [apply set_keys_nodup; exact Hnd | exact Hnd].
    + intros k Hk. destruct (IH4 k Hk) as [Hk1|Hk1]; [|right; right; exact Hk1].
      destruct Hcat as [[_ [series [_ E]]]|[_ E]]; rewrite E in Hk1.
      * apply set_keys_incl in Hk1. destruct Hk1 as [->|Hk1]; [right; left|left]; auto.
      * left; exact Hk1.
Qed.

(** ** The loop over the file names of a group *)

Section FilesLoop.

Variable env : Env.

Lemma mode_loop_ok (file_name : string) (sd : dict.t StructureEntry.t)
  (r : dict.t StructureEntry.t * option (polars.DataFrame * Schema)) :
  for_each (mode_body env file_name) ["train"; "test"] (sd, None) = Ok r ->
  exists path0 rest df schema entry test_paths,
    sort_paths (glob env (gen_file_path (config env) file_name "train"))
    = Ok (path0 :: rest) /\
    read_parquet env path0 = Ok df /\
    set_dtypes (config env) (polars.schema df) = Ok schema /\
    dict.get file_name sd = Some entry /\
    sort_paths (glob env (gen_file_path (config env) file_name "test"))
    = Ok test_paths /\
    r = (dict.set file_name (StructureEntry.set_schema entry schema) sd,
         Some (df, schema)).
Proof.
  intros H. cbn [for_each] in H.
  inv_bind H as r1 Htrain. inv_bind H as r2 Htest. injection H as <-.
  unfold mode_body in Htrain. inv_bind Htrain as paths_i Hsort.
  cbn [String.eqb Ascii.eqb Bool.eqb] in Htrain.
  inv_bind Htrain as path0 Hp0. inv_bind Htrain as df Hdf.
  inv_bind Htrain as schema Hschema. inv_bind Htrain as entry Hentry.
  injection Htrain as <-.
  destruct paths_i as [|p rest]; [discriminate|]. injection Hp0 as ->.
  unfold mode_body in Htest. inv_bind Htest as test_paths Hsort'.
  cbn [String.eqb Ascii.eqb Bool.eqb] in Htest. injection Htest as <-.
  apply getitem_ok in Hentry. cbn [fst] in Hentry.
  exists path0, rest, df, schema, entry, test_paths. repeat split; auto.
Qed.

(** What one turn of the loop over the file names does. *)
Lemma file_body_ok (F SG : pd.DataFrame) (file_name : string) (st st' : GroupState) :
  file_body env F SG file_name st = Ok st' ->
  exists df schema fs entry,
    sample env file_name = Ok df /\
    set_dtypes (config env) (polars.schema df) = Ok schema /\
    for_each (column_body F SG df schema) (polars.columns df)
      (file_init (polars.columns df)) = Ok fs /\
    dict.get file_name (structure_dict st) = Some entry /\
    structure_dict st'
    = dict.set file_name
        (StructureEntry.set_columns_map
           (StructureEntry.set_schema entry schema) (mapping fs))
        (dict.set file_name (StructureEntry.set_schema entry schema)
           (structure_dict st)) /\
    columns st' = columns st ++ cols_to_incl fs /\
    cols_cat st' = dict.update (cols_cat st) (cols_cat_i fs) /\
    columns_dtypes st' = dict.update (columns_dtypes st) (cols_dtypes fs).
Proof.
  intros H. unfold file_body in H. inv_bind H as r Hmodes.
  apply mode_loop_ok in Hmodes.
  destruct Hmodes as [path0 [rest [df [schema [entry [tp [Hs [Hr [Hd [He [_ ->]]]]]]]]]]].
  cbn [fst snd] in H. inv_bind H as fs Hfs. inv_bind H as entry' Hentry'.
  apply getitem_ok in Hentry'. rewrite get_set_eq in Hentry'.
  injection Hentry' as <-. injection H as <-. cbn.
  exists df, schema, fs, entry. repeat split; auto.
  unfold sample. rewrite Hs. cbn. exact Hr.
Qed.

End FilesLoop.

Section GroupLoop.

Variable env : Env.

(** Every entry of [structure_dict] keeps the ["paths"] it was created
    with; the entry of a file name that was processed holds the schema
    and the mapping computed from its sample. *)
Lemma files_loop_inv (F SG : pd.DataFrame) (l : list string) (st st' : GroupState) :
  for_each (file_body env F SG) l st = Ok st' ->
  (forall k e, dict.get k (structure_dict st) = Some e ->
               StructureEntry.paths e = StructureEntry.paths StructureEntry.init) ->
  (forall k e, dict.get k (structure_dict st') = Some e ->
               StructureEntry.paths e = StructureEntry.paths StructureEntry.init) /\
  (forall p, In p l ->
     exists e df schema fs,
       dict.get p (structure_dict st') = Some e /\
       sample env p = Ok df /\
       set_dtypes (config env) (polars.schema df) = Ok schema /\
       for_each (column_body F SG df schema) (polars.columns df)
         (file_init (polars.columns df)) = Ok fs /\
       StructureEntry.schema e = schema /\
       StructureEntry.columns_map e = mapping fs) /\
  (forall k, ~ In k l ->
             dict.get k (structure_dict st') = dict.get k (structure_dict st)).
Proof.
  revert st. induction l as [|p l IH]; intros st H Hinv.
  - injection H as <-. split; [exact Hinv|]. split; [intros p []|auto].
  - simpl in H. inv_bind H as st1 Hstep.
    destruct (file_body_ok env F SG p st st1 Hstep)
      as [df [schema [fs [entry [Hsample [Hschema [Hloop [Hentry [Hsd _]]]]]]]]].
    assert (Hget : forall k,
               dict.get k (structure_dict st1)
               = if string_dec k p
                 then Some (StructureEntry.set_columns_map
                              (StructureEntry.set_schema entry schema) (mapping fs))
                 else dict.get k (structure_dict st)).
    { intros k. rewrite Hsd. destruct (string_dec k p) as [->|Hne].
      - apply get_set_eq.
      - rewrite !get_set_ne by exact Hne. reflexivity. }
    assert (Hinv1 : forall k e, dict.get k (structure_dict st1) = Some e ->
                StructureEntry.paths e = StructureEntry.paths StructureEntry.init).
    { intros k e. rewrite Hget. destruct (string_dec k p) as [->|Hne].
      - intros E. injection E as <-. cbn. eapply Hinv. exact Hentry.
      - apply Hinv. }
    destruct (IH st1 H Hinv1) as [IH1 [IH2 IH3]].
    split; [exact IH1|]. split.
    + intros p' Hp'.
      destruct (in_dec string_dec p' l) as [Hin|Hnin]; [apply IH2; exact Hin|].
      destruct Hp' as [<-|Hp']; [|contradiction].
      exists (StructureEntry.set_columns_map
                (StructureEntry.set_schema entry schema) (mapping fs)),
        df, schema, fs.
      rewrite (IH3 p Hnin), Hget.
      destruct (string_dec p p); [|congruence].
      repeat split; auto.
    + intros k Hk. rewrite IH3 by (intros Hin; apply Hk; right; exact Hin).
      rewrite Hget. destruct (string_dec k p) as [->|Hne]; [|reflexivity].
      exfalso. apply Hk. left. reflexivity.
Qed.

Lemma group_init_paths (file_names : list string) (k : string) (e : StructureEntry.t) :
  dict.get k (structure_dict (group_init file_names)) = Some e ->
  StructureEntry.paths e = StructureEntry.paths StructureEntry.init.
Proof.
  intros H. cbn in H. apply get_comprehension in H. subst. reflexivity.
Qed.

Lemma group_body_ok (F D : pd.DataFrame) (name : string) (file_names : list string)
  (props : SourceGroupProps.t) :
  group_body env F D name file_names = Ok props ->
  exists st,
    for_each (file_body env F (of_group name F)) file_names (group_init file_names)
    = Ok st /\
    SourceGroupProps.paths props = file_names /\
    SourceGroupProps.structure props = structure_dict st /\
    SourceGroupProps.columns props = np.unique (columns st) /\
    SourceGroupProps.columns_cat props = cols_cat st /\
    SourceGroupProps.columns_dtypes props = columns_dtypes st /\
    SourceGroupProps.columns_date_index props = pd.index_values (of_group name D).
Proof.
  intros H. unfold group_body in H. inv_bind H as st Hst. injection H as <-.
  exists st. repeat split; auto.
Qed.

Lemma write_data_props_ok {Blob : Type} (dump : DfsProps -> Blob)
  (dfs_props : dict.t (list string)) (version : string)
  (out : DfsProps) (file : string * Blob) :
  write_data_props env dump dfs_props version = Ok (out, file) ->
  exists F,
    read_features env (features_path env version) = Ok F /\
    Forall2 (fun item o =>
               fst o = fst item /\
               group_body env F (dates_of F) (fst item) (snd item) = Ok (snd o))
      dfs_props out /\
    file = (pickle_path env version, dump out).
Proof.
  intros H. unfold write_data_props in H.
  inv_bind H as F HF. inv_bind H as out' Hout. injection H as <- <-.
  exists F. split; [exact HF|]. split; [|reflexivity].
  apply comprehension_ok in Hout.
  eapply Forall2_impl; [|exact Hout].
  intros item o Ho. cbn in Ho. inv_bind Ho as props Hprops.
  injection Ho as <-. split; [reflexivity|exact Hprops].
Qed.

Lemma forall2_in_r {A B : Type} (P : A -> B -> Prop) (l : list A) (l' : list B) (b : B) :
  Forall2 P l l' -> In b l' -> exists a, In a l /\ P a b.
Proof.
  induction 1 as [|a0 b0 l l' H0 _ IH]; intros Hin; [contradiction|].
  destruct Hin as [<-|Hin].
  - exists a0. split; [left; reflexivity|exact H0].
  - destruct (IH Hin) as [a [Ha Hp]]. exists a. split; [right; exact Ha|exact Hp].
Qed.

Lemma forall2_in_l {A B : Type} (P : A -> B -> Prop) (l : list A) (l' : list B) (a : A) :
  Forall2 P l l' -> In a l -> exists b, In b l' /\ P a b.
Proof.
  induction 1 as [|a0 b0 l l' H0 _ IH]; intros Hin; [contradiction|].
  destruct Hin as [<-|Hin].
  - exists b0. split; [left; reflexivity|exact H0].
  - destruct (IH Hin) as [b [Hb Hp]]. exists b. split; [right; exact Hb|exact Hp].
Qed.

Lemma of_group_incl (name : string) (F : pd.DataFrame) : incl (of_group name F) F.
Proof. unfold of_group. apply incl_filter. Qed.

End GroupLoop.

(** ** [write_data_props] *)

(** C5. In the dictionary [write_data_props] builds, the columns_map of
    every pattern of every group sends each column of the pattern's
    sample file to the non-empty new_name the group's rows of the
    features table give for it, and to the column name itself when they
    give none: the column is absent from them, or its new_name is
    empty. *)
Theorem C5_columns_map (env : Env) {Blob : Type} (dump : DfsProps -> Blob)
  (dfs_props : dict.t (list string)) (version : string)
  (out : DfsProps) (file : string * Blob) :
  write_data_props env dump dfs_props version = Ok (out, file) ->
  exists F,
    read_features env (features_path env version) = Ok F /\
    Forall2 (fun item o => fst o = fst item /\
                           SourceGroupProps.paths (snd o) = snd item)
      dfs_props out /\
    forall name props, In (name, props) out ->
    forall p, In p (SourceGroupProps.paths props) ->
    exists e df,
      dict.get p (SourceGroupProps.structure props) = Some e /\
      sample env p = Ok df /\
      forall col, In col (polars.columns df) ->
      exists target,
        dict.get col (StructureEntry.columns_map e) = Some (Some target) /\
        renamed_to (of_group name F) col target.
Proof.
  intros H. apply write_data_props_ok in H. destruct H as [F [HF [Hall _]]].
  exists F. split; [exact HF|]. split.
  - eapply Forall2_impl; [|exact Hall].
    intros item o [E Hg]. split; [exact E|].
    apply group_body_ok in Hg. destruct Hg as [st [_ [Hp _]]]. exact Hp.
  - intros name props Hin p Hp.
    destruct (forall2_in_r _ _ _ _ Hall Hin) as [[name' fns] [_ [E Hg]]].
    cbn in E, Hg. subst name'.
    apply group_body_ok in Hg.
    destruct Hg as [st [Hst [Hpaths [Hstruct _]]]].
    rewrite Hpaths in Hp. rewrite Hstruct.
    destruct (files_loop_inv env F (of_group name F) fns _ st Hst
                (group_init_paths fns)) as [_ [Hproc _]].
    destruct (Hproc p Hp) as [e [df [schema [fs [He [Hs [_ [Hloop [_ Hmap]]]]]]]]].
    exists e, df. split; [exact He|]. split; [exact Hs|].
    intros col Hcol.
    destruct (columns_loop_inv F (of_group name F) df schema _ _ fs
                (of_group_incl name F) Hloop) as [_ [Hcols _]].
    destruct (Hcols col Hcol) as [[target [Ht Hren]] _].
    exists target. rewrite Hmap. split; assumption.
Qed.

Lemma C5_columns_map_witness :
  exists F,
    read_features Sample.env (features_path Sample.env "old") = Ok F /\
    Forall2 (fun item o => fst o = fst item /\
                           SourceGroupProps.paths (snd o) = snd item)
      Sample.dfs_props Sample.out /\
    forall name props, In (name, props) Sample.out ->
    forall p, In p (SourceGroupProps.paths props) ->
    exists e df,
      dict.get p (SourceGroupProps.structure props) = Some e /\
      sample Sample.env p = Ok df /\
      forall col, In col (polars.columns df) ->
      exists target,
        dict.get col (StructureEntry.columns_map e) = Some (Some target) /\
        renamed_to (of_group name F) col target.
Proof.
  apply (C5_columns_map Sample.env (fun x => x) Sample.dfs_props "old"
           Sample.out ("/features/dfs_props_old.pkl", Sample.out)).
  vm_compute. reflexivity.
Defined.

(** The ["paths"] of every entry of the result is the placeholder it was
    created with, whatever files the patterns matched. *)
Lemma structure_paths_unset (env : Env) {Blob : Type} (dump : DfsProps -> Blob)
  (dfs_props : dict.t (list string)) (version : string)
  (out : DfsProps) (file : string * Blob) :
  write_data_props env dump dfs_props version = Ok (out, file) ->
  forall name props, In (name, props) out ->
  forall p, In p (SourceGroupProps.paths props) ->
  exists e path0 rest,
    dict.get p (SourceGroupProps.structure props) = Some e /\
    sort_paths (glob env (gen_file_path (config env) p "train")) = Ok (path0 :: rest) /\
    StructureEntry.paths e = [("train", PyDict []); ("test", PyList [])].
Proof.
  intros H name props Hin p Hp.
  apply write_data_props_ok in H. destruct H as [F [HF [Hall _]]].
  destruct (forall2_in_r _ _ _ _ Hall Hin) as [[name' fns] [_ [E Hg]]].
  cbn in E, Hg. subst name'.
  apply group_body_ok in Hg. destruct Hg as [st [Hst [Hpaths [Hstruct _]]]].
  rewrite Hpaths in Hp. rewrite Hstruct.
  destruct (files_loop_inv env F (of_group name F) fns _ st Hst
              (group_init_paths fns)) as [Hinv [Hproc _]].
  destruct (Hproc p Hp) as [e [df [schema [fs [He [Hs _]]]]]].
  unfold sample in Hs. inv_bind Hs as paths_i Hsort. inv_bind Hs as path0 Hp0.
  destruct paths_i as [|q rest]; [discriminate|]. injection Hp0 as ->.
  exists e, path0, rest. split; [exact He|]. split; [exact Hsort|].
  apply (Hinv p e He).
Qed.

(** C1 fails on the code: the train and test paths found for a pattern
    are used to read the sample and are not stored.  In the sample
    environment the pattern [applprev_1_*] matches two train files and
    one test file, and its entry holds an empty dictionary and an empty
    list under ["paths"]. *)
Theorem C1_paths_not_recorded :
  write_data_props Sample.env (fun x => x) Sample.dfs_props "old"
  = Ok (Sample.out, ("/features/dfs_props_old.pkl", Sample.out)) /\
  sort_paths (glob Sample.env (gen_file_path Sample.cfg "applprev_1_*" "train"))
  = Ok ["/data/parquet_files/train/train_applprev_1_0.parquet";
        "/data/parquet_files/train/train_applprev_1_1.parquet"] /\
  sort_paths (glob Sample.env (gen_file_path Sample.cfg "applprev_1_*" "test"))
  = Ok ["/data/parquet_files/test/test_applprev_1_0.parquet"] /\
  exists props e,
    dict.get "applprev" Sample.out = Some props /\
    dict.get "applprev_1_*" (SourceGroupProps.structure props) = Some e /\
    StructureEntry.paths e = [("train", PyDict []); ("test", PyList [])].
Proof.
  split; [vm_compute; reflexivity|].
  split; [vm_compute; reflexivity|].
  split; [vm_compute; reflexivity|].
  eexists. eexists. split; [vm_compute; reflexivity|].
  split; vm_compute; reflexivity.
Qed.

(** Once a pattern is processed, every column of its sample file that
    the group's rows of the features table flag with agg = "dummy" has
    its values in [cols_cat]. *)
Lemma file_body_cols_cat (env : Env) (F : pd.DataFrame) (name p : string)
  (st st' : GroupState) :
  file_body env F (of_group name F) p st = Ok st' ->
  exists df,
    sample env p = Ok df /\
    forall col, In col (polars.columns df) ->
                flagged_dummy (of_group name F) col ->
    exists series,
      polars.getitem df col = Ok series /\
      dict.get col (cols_cat st') = Some (col_vals series).
Proof.
  intros H. apply file_body_ok in H.
  destruct H as [df [schema [fs [entry [Hs [_ [Hloop [_ [_ [_ [Hcat _]]]]]]]]]]].
  exists df. split; [exact Hs|]. intros col Hcol Hflag.
  destruct (columns_loop_inv F (of_group name F) df schema _ _ fs
              (of_group_incl name F) Hloop) as [_ [Hcols [Hnd _]]].
  destruct (Hcols col Hcol) as [_ Hrec].
  destruct (Hrec Hflag) as [series [Hser Hget]].
  exists series. split; [exact Hser|].
  rewrite Hcat. apply get_update_in; [|exact Hget].
  apply Hnd. constructor.
Qed.

(** In the result of the group the recorded domain is the one of the
    pattern's sample, provided no other pattern of the group has a column
    of that name in its sample: [cols_cat.update] would overwrite it. *)
Lemma cols_cat_loop (env : Env) (F SG : pd.DataFrame) (l : list string)
  (st st' : GroupState) (p : string) (df : polars.DataFrame) (col : string)
  (series : polars.Series) :
  incl SG F ->
  sample env p = Ok df ->
  In col (polars.columns df) ->
  flagged_dummy SG col ->
  polars.getitem df col = Ok series ->
  (forall p2 df2, In p2 l -> p2 <> p -> sample env p2 = Ok df2 ->
                  ~ In col (polars.columns df2)) ->
  for_each (file_body env F SG) l st = Ok st' ->
  In p l \/ dict.get col (cols_cat st) = Some (col_vals series) ->
  dict.get col (cols_cat st') = Some (col_vals series).
Proof.
  intros Hincl Hs Hcol Hflag Hser.
  revert st. induction l as [|q l IH]; intros st Hother H Hstart.
  - injection H as <-. destruct Hstart as [[]|E]. exact E.
  - simpl in H. inv_bind H as st1 Hstep.
    apply file_body_ok in Hstep.
    destruct Hstep as [dfq [schema [fs [entry [Hsq [_ [Hloop [_ [_ [_ [Hcat _]]]]]]]]]]].
    destruct (columns_loop_inv F SG dfq schema _ _ fs Hincl Hloop)
      as [_ [Hcols [Hnd Hkeys]]].
    apply (IH st1); [intros p2 df2 Hp2; apply Hother; right; exact Hp2 | exact H |].
    destruct (string_dec q p) as [->|Hne].
    + right. rewrite Hs in Hsq. injection Hsq as <-.
      destruct (Hcols col Hcol) as [_ Hrec].
      destruct (Hrec Hflag) as [series' [Hser' Hget]].
      rewrite Hser in Hser'. injection Hser' as <-.
      rewrite Hcat. apply get_update_in; [|exact Hget].
      apply Hnd. constructor.
    + destruct Hstart as [[E|Hin]|E]; [congruence | left; exact Hin |].
      right. rewrite Hcat. rewrite get_update_other; [exact E|].
      intros Hk. destruct (Hkeys col Hk) as [[]|Hk'].
      apply (Hother q dfq (or_introl eq_refl) Hne Hsq Hk').
Qed.

(** X21. In a completed run, for a column that a pattern's sample has,
    that the group's rows of the features table flag with agg = "dummy"
    and that no other pattern of the group has, columns_cat of the group
    holds the categorical domain of that sample's column: its distinct
    values that are neither null nor the empty string. *)
Lemma columns_cat_final (env : Env) {Blob : Type} (dump : DfsProps -> Blob)
  (dfs_props : dict.t (list string)) (version : string)
  (out : DfsProps) (file : string * Blob) :
  write_data_props env dump dfs_props version = Ok (out, file) ->
  exists F,
    read_features env (features_path env version) = Ok F /\
    forall name props, In (name, props) out ->
    forall p, In p (SourceGroupProps.paths props) ->
    exists df,
      sample env p = Ok df /\
      forall col, In col (polars.columns df) ->
                  flagged_dummy (of_group name F) col ->
                  (forall p2 df2, In p2 (SourceGroupProps.paths props) -> p2 <> p ->
                                  sample env p2 = Ok df2 ->
                                  ~ In col (polars.columns df2)) ->
      exists series vals,
        polars.getitem df col = Ok series /\
        dict.get col (SourceGroupProps.columns_cat props) = Some vals /\
        domain_of series vals.
Proof.
  intros H. apply write_data_props_ok in H. destruct H as [F [HF [Hall _]]].
  exists F. split; [exact HF|].
  intros name props Hin p Hp.
  destruct (forall2_in_r _ _ _ _ Hall Hin) as [[name' fns] [_ [E Hg]]].
  cbn in E, Hg. subst name'.
  apply group_body_ok in Hg.
  destruct Hg as [st [Hst [Hpaths [_ [_ [Hcat _]]]]]].
  rewrite Hpaths in *. rewrite Hcat.
  destruct (files_loop_inv env F (of_group name F) fns _ st Hst
              (group_init_paths fns)) as [_ [Hproc _]].
  destruct (Hproc p Hp) as [e [df [schema [fs [_ [Hs [_ [Hloop _]]]]]]]].
  exists df. split; [exact Hs|]. intros col Hcol Hflag Hother.
  destruct (columns_loop_inv F (of_group name F) df schema _ _ fs
              (of_group_incl name F) Hloop) as [_ [Hcols _]].
  destruct (Hcols col Hcol) as [_ Hrec].
  destruct (Hrec Hflag) as [series [Hser _]].
  exists series, (col_vals series). split; [exact Hser|]. split.
  - eapply cols_cat_loop; eauto. apply of_group_incl.
  - apply col_vals_domain.
Qed.

(** C4 as stated fails: [cols_cat.update] lets a later pattern of the
    group overwrite the domain an earlier one recorded.  Here the samples
    of both patterns of the group have the flagged column
    [credtype_587L]; the run completes and records for it the value of
    the second sample, which is none of the values the column has in the
    first. *)
Lemma C4_counterexample :
  exists props series,
    write_data_props Sample.env_overlap (fun x => x) Sample.dfs_props "old"
    = Ok (Sample.out_overlap, ("/features/dfs_props_old.pkl", Sample.out_overlap)) /\
    In ("applprev", props) Sample.out_overlap /\
    In "applprev_1_*" (SourceGroupProps.paths props) /\
    sample Sample.env_overlap "applprev_1_*" = Ok Sample.applprev_1_0 /\
    In "credtype_587L" (polars.columns Sample.applprev_1_0) /\
    flagged_dummy (of_group "applprev" Sample.features) "credtype_587L" /\
    polars.getitem Sample.applprev_1_0 "credtype_587L" = Ok series /\
    dict.get "credtype_587L" (SourceGroupProps.columns_cat props)
    = Some [PStr "POS"] /\
    ~ domain_of series [PStr "POS"].
Proof.
  eexists. eexists.
  split; [vm_compute; reflexivity|].
  split; [left; reflexivity|].
  split; [left; reflexivity|].
  split; [vm_compute; reflexivity|].
  split; [right; right; left; reflexivity|].
  split.
  { exists (Sample.row "credtype_587L" "applprev" EmptyString "dummy" None).
    split; [left; reflexivity|]. split; reflexivity. }
  split; [vm_compute; reflexivity|].
  split; [vm_compute; reflexivity|].
  intros [_ H].
  destruct (proj1 (H (PStr "POS")) (or_introl eq_refl)) as [Hin _].
  simpl in Hin. intuition discriminate.
Qed.

(** C4, amended.  In a completed run, for every pattern of a group and
    every column of the pattern's sample file that the group's rows of
    the features table flag with agg = "dummy": when no later pattern of
    the group has a column of that name in its sample, the categorical
    domain [write_data_props] records for the column is exactly the
    distinct values observed in that column of the sample that are
    neither null nor the empty string. *)
Theorem C4_categorical_domain (env : Env) {Blob : Type} (dump : DfsProps -> Blob)
  (dfs_props : dict.t (list string)) (version : string)
  (out : DfsProps) (file : string * Blob) :
  write_data_props env dump dfs_props version = Ok (out, file) ->
  exists F,
    read_features env (features_path env version) = Ok F /\
    forall name props, In (name, props) out ->
    forall before p after,
      SourceGroupProps.paths props = before ++ p :: after ->
    exists df,
      sample env p = Ok df /\
      forall col, In col (polars.columns df) ->
                  flagged_dummy (of_group name F) col ->
                  (forall p2 df2, In p2 after -> sample env p2 = Ok df2 ->
                                  ~ In col (polars.columns df2)) ->
      exists series vals,
        polars.getitem df col = Ok series /\
        dict.get col (SourceGroupProps.columns_cat props) = Some vals /\
        domain_of series vals.
Proof.
  intros H. apply write_data_props_ok in H. destruct H as [F [HF [Hall _]]].
  exists F. split; [exact HF|].
  intros name props Hin before p after Hsplit.
  destruct (forall2_in_r _ _ _ _ Hall Hin) as [[name' fns] [_ [E Hg]]].
  cbn in E, Hg. subst name'.
  apply group_body_ok in Hg.
  destruct Hg as [st [Hst [Hpaths [_ [_ [Hcat _]]]]]].
  rewrite Hpaths in Hsplit. rewrite Hcat.
  remember (group_init fns) as st0 eqn:E0. clear E0.
  rewrite Hsplit, for_each_app in Hst.
  inv_bind Hst as st1 Hbefore.
  simpl in Hst. inv_bind Hst as st2 Hp.
  destruct (file_body_cols_cat env F name p st1 st2 Hp) as [df [Hs Hcols]].
  exists df. split; [exact Hs|]. intros col Hcol Hflag Hlater.
  destruct (Hcols col Hcol Hflag) as [series [Hser Hget]].
  exists series, (col_vals series). split; [exact Hser|]. split.
  - apply (cols_cat_loop env F (of_group name F) after st2 st p df col series
             (of_group_incl name F) Hs Hcol Hflag Hser).
    + intros p2 df2 Hp2 _. apply Hlater. exact Hp2.
    + exact Hst.
    + right. exact Hget.
  - apply col_vals_domain.
Qed.

Lemma C4_categorical_domain_witness :
  exists F,
    read_features Sample.env_overlap (features_path Sample.env_overlap "old") = Ok F /\
    forall name props, In (name, props) Sample.out_overlap ->
    forall before p after,
      SourceGroupProps.paths props = before ++ p :: after ->
    exists df,
      sample Sample.env_overlap p = Ok df /\
      forall col, In col (polars.columns df) ->
                  flagged_dummy (of_group name F) col ->
                  (forall p2 df2, In p2 after -> sample Sample.env_overlap p2 = Ok df2 ->
                                  ~ In col (polars.columns df2)) ->
      exists series vals,
        polars.getitem df col = Ok series /\
        dict.get col (SourceGroupProps.columns_cat props) = Some vals /\
        domain_of series vals.
Proof.
  apply (C4_categorical_domain Sample.env_overlap (fun x => x) Sample.dfs_props "old"
           Sample.out_overlap ("/features/dfs_props_old.pkl", Sample.out_overlap)).
  vm_compute. reflexivity.
Defined.

Lemma comprehension_app {A B : Type} (f : A -> result B) (l1 l2 : list A) :
  comprehension f (l1 ++ l2)
  = (b1 <- comprehension f l1 ;; b2 <- comprehension f l2 ;; Ok (b1 ++ b2)).
Proof.
  induction l1 as [|a l1 IH]; simpl.
  - destruct (comprehension f l2); reflexivity.
  - destruct (f a) as [b|e]; simpl; [|reflexivity].
    rewrite IH. destruct (comprehension f l1) as [b1|e]; simpl; [|reflexivity].
    destruct (comprehension f l2); reflexivity.
Qed.

(** C8 as stated fails: the paths are indexed in train mode only, so a
    pattern without test files raises nothing.  In the sample
    environment [applprev_2] has no test file and the run completes. *)
Lemma C8_counterexample :
  glob Sample.env (gen_file_path Sample.cfg "applprev_2" "test") = [] /\
  In ("applprev", ["applprev_1_*"; "applprev_2"]) Sample.dfs_props /\
  write_data_props Sample.env (fun x => x) Sample.dfs_props "old"
  = Ok (Sample.out, ("/features/dfs_props_old.pkl", Sample.out)).
Proof.
  split; [vm_compute; reflexivity|].
  split; [left; reflexivity|].
  vm_compute. reflexivity.
Qed.

(** C8, amended.  When the train-mode glob of a pattern matches no file,
    processing that pattern raises [IndexError] whatever was built
    before; a run over a group that has this pattern never completes,
    so nothing is written; and the exception of the run is this
    [IndexError] when the features table was read and the groups and
    patterns before it were processed. *)
Theorem C8_empty_train_glob (env : Env) (p : string) :
  glob env (gen_file_path (config env) p "train") = [] ->
  (forall F SG st, file_body env F SG p st = Raise IndexError) /\
  (forall (Blob : Type) (dump : DfsProps -> Blob) dfs_props version name file_names,
      In (name, file_names) dfs_props -> In p file_names ->
      exists e, write_data_props env dump dfs_props version = Raise e) /\
  (forall (Blob : Type) (dump : DfsProps -> Blob) version F before name l1 l2 after st,
      read_features env (features_path env version) = Ok F ->
      Forall (fun item => exists props,
                group_body env F (dates_of F) (fst item) (snd item) = Ok props)
        before ->
      for_each (file_body env F (of_group name F)) l1 (group_init (l1 ++ p :: l2))
      = Ok st ->
      write_data_props env dump (before ++ (name, l1 ++ p :: l2) :: after) version
      = Raise IndexError).
Proof.
  intros Hglob.
  assert (Hstep : forall F SG st, file_body env F SG p st = Raise IndexError).
  { intros F SG st. unfold file_body. cbn [for_each].
    unfold mode_body at 1. rewrite Hglob. reflexivity. }
  split; [exact Hstep|]. split.
  - intros Blob dump dfs_props version name file_names Hin Hp.
    destruct (write_data_props env dump dfs_props version) as [[out file]|e] eqn:E;
      [|eauto].
    exfalso. apply write_data_props_ok in E. destruct E as [F [_ [Hall _]]].
    destruct (forall2_in_l _ _ _ _ Hall Hin) as [[name' props] [_ [_ Hg]]].
    cbn in Hg. apply group_body_ok in Hg. destruct Hg as [st [Hst _]].
    apply in_split in Hp. destruct Hp as [l1 [l2 ->]].
    rewrite for_each_app in Hst. inv_bind Hst as s1 Hs1.
    simpl in Hst. rewrite Hstep in Hst. discriminate.
  - intros Blob dump version F before name l1 l2 after st HF Hbefore Hl1.
    unfold write_data_props. rewrite HF. cbn [bind].
    rewrite comprehension_app.
    assert (Hdone : exists done,
               comprehension
                 (fun item =>
                    props <- group_body env F (dates_of F) (fst item) (snd item) ;;
                    Ok (fst item, props)) before = Ok done).
    { clear -Hbefore. induction Hbefore as [|item l [props Hp] _ [done IH]].
      - exists []. reflexivity.
      - exists ((fst item, props) :: done). simpl. rewrite Hp. simpl.
        rewrite IH. reflexivity. }
    destruct Hdone as [done ->]. cbn [bind comprehension fst snd].
    unfold group_body. rewrite for_each_app. rewrite Hl1. cbn [bind for_each].
    rewrite Hstep. reflexivity.
Qed.

Lemma C8_empty_train_glob_witness :
  file_body Sample.env Sample.features Sample.features_applprev "applprev_3"
    Sample.after_first = Raise IndexError /\
  (exists e,
      write_data_props Sample.env (fun x => x)
        [("base", ["base"]); ("applprev", ["applprev_1_*"; "applprev_3"])] "old"
      = Raise e) /\
  write_data_props Sample.env (fun x => x)
    ([("base", ["base"])] ++ [("applprev", ["applprev_1_*"] ++ "applprev_3" :: [])])
    "old"
  = Raise IndexError.
Proof.
  destruct (C8_empty_train_glob Sample.env "applprev_3" eq_refl) as [H1 [H2 H3]].
  split; [apply H1|]. split.
  - apply (H2 DfsProps (fun x => x) _ "old" "applprev" ["applprev_1_*"; "applprev_3"]).
    + right. left. reflexivity.
    + right. left. reflexivity.
  - eapply (H3 DfsProps (fun x => x) "old" Sample.features).
    + reflexivity.
    + constructor; [|constructor]. eexists. vm_compute. reflexivity.
    + vm_compute. reflexivity.
Defined.

(** ** When [write_data_props] returns

    The statements above are about runs that complete.  A run completes
    when the features table can be read and has each feature name on one
    row, and every pattern of every group can be processed. *)

Lemma in_keys_get {V : Type} (k : string) (d : dict.t V) :
  In k (dict.keys d) -> exists v, dict.get k d = Some v.
Proof.
  induction d as [|[k0 v0] d IH]; simpl; intros H; [contradiction|].
  destruct (String.eqb k0 k) eqn:E; [eauto|].
  apply String.eqb_neq in E. destruct H as [H|H]; [congruence|auto].
Qed.

Lemma loc_unique (df : pd.DataFrame) (r : pd.FeatureRow)
  (field : pd.FeatureRow -> string) :
  NoDup (pd.index_values df) -> In r df ->
  pd.loc df (pd.feature r) field = Ok (pd.Scalar (field r)).
Proof.
  intros Hnd Hin. unfold pd.loc.
  assert (E : List.filter (fun r' => String.eqb (pd.feature r') (pd.feature r)) df = [r]).
  { induction df as [|r0 df IH]; [contradiction|].
    simpl in Hnd. inversion Hnd as [|? ? Hr0 Hdf]; subst. simpl.
    destruct Hin as [->|Hin].
    - rewrite String.eqb_refl. f_equal.
      clear IH Hnd Hdf. induction df as [|r1 df IH]; [reflexivity|]. simpl.
      destruct (String.eqb (pd.feature r1) (pd.feature r)) eqn:E.
      + apply String.eqb_eq in E. exfalso. apply Hr0. left. exact E.
      + apply IH. intros H. apply Hr0. right. exact H.
    - destruct (String.eqb (pd.feature r0) (pd.feature r)) eqn:E.
      + apply String.eqb_eq in E. exfalso. apply Hr0. rewrite E.
        apply in_map. exact Hin.
      + apply IH; assumption. }
  rewrite E. reflexivity.
Qed.

Lemma of_group_nodup (name : string) (F : pd.DataFrame) :
  NoDup (pd.index_values F) -> NoDup (pd.index_values (of_group name F)).
Proof.
  unfold of_group, pd.index_values.
  induction F as [|r F IH]; simpl; intros H; [constructor|].
  inversion H as [|? ? Hr HF]; subst.
  destruct (String.eqb (pd.source_group r) name); simpl; [|auto].
  constructor; [|auto].
  intros Hin. apply Hr. apply in_map_iff in Hin. destruct Hin as [r' [E Hr']].
  apply filter_In in Hr'. destruct Hr' as [Hr' _].
  rewrite <- E. apply in_map. exact Hr'.
Qed.

Lemma polars_getitem_in (df : polars.DataFrame) (col : string) :
  In col (polars.columns df) -> exists series, polars.getitem df col = Ok series.
Proof.
  unfold polars.getitem, polars.columns.
  induction df as [|s df IH]; simpl; intros H; [contradiction|].
  destruct (String.eqb (polars.name s) col) eqn:E; [eauto|].
  apply String.eqb_neq in E. destruct H as [H|H]; [congruence|auto].
Qed.

Lemma column_body_returns (F : pd.DataFrame) (name : string)
  (df : polars.DataFrame) (schema : Schema) (col : string) (fs : FileState) :
  NoDup (pd.index_values F) ->
  In col (polars.columns df) ->
  In col (dict.keys schema) ->
  exists fs', column_body F (of_group name F) df schema col fs = Ok fs'.
Proof.
  intros Hnd Hcol Hschema. unfold column_body.
  destruct (in_keys_get col schema Hschema) as [dtype Hdtype].
  assert (Hrest : forall fs1 target,
             dict.get col (mapping fs1) = Some (Some target) ->
             exists fs',
               (mapped <- dict.getitem col (mapping fs1) ;;
                mapped0 <- match mapped with
                           | Some s => Ok s
                           | None => Raise TypeError
                           end ;;
                dtype0 <- dict.getitem col schema ;;
                Ok {| mapping := mapping fs1;
                      cols_to_incl := cols_to_incl fs1 ++ [mapped0];
                      cols_cat_i := cols_cat_i fs1;
                      cols_dtypes := dict.set col dtype0 (cols_dtypes fs1) |})
               = Ok fs').
  { intros fs1 target Hget. unfold dict.getitem. rewrite Hget, Hdtype. cbn. eauto. }
  destruct (str_in col (pd.index_values (of_group name F))) eqn:Hidx.
  - apply str_in_index in Hidx. destruct Hidx as [r [Hr <-]].
    rewrite (loc_unique _ r pd.new_name (of_group_nodup name F Hnd) Hr).
    cbn [bind pd.if_else].
    assert (HrF : In r F) by (apply (of_group_incl name F); exact Hr).
    destruct (String.eqb (pd.new_name r) EmptyString); cbn [bind];
      rewrite (loc_unique F r pd.agg Hnd HrF); cbn [bind pd.if_eq];
      destruct (String.eqb (pd.agg r) "dummy");
      try (destruct (polars_getitem_in df _ Hcol) as [series ->]);
      cbn [bind]; eapply Hrest; cbn [mapping]; apply get_set_eq.
  - cbn [bind]. eapply Hrest. cbn [mapping]. apply get_set_eq.
Qed.

Lemma columns_loop_returns (F : pd.DataFrame) (name : string)
  (df : polars.DataFrame) (schema : Schema) (cols : list string) (fs : FileState) :
  NoDup (pd.index_values F) ->
  (forall col, In col cols -> In col (polars.columns df) /\ In col (dict.keys schema)) ->
  exists fs', for_each (column_body F (of_group name F) df schema) cols fs = Ok fs'.
Proof.
  intros Hnd. revert fs. induction cols as [|c cols IH]; intros fs H.
  - exists fs. reflexivity.
  - destruct (H c (or_introl eq_refl)) as [H1 H2].
    destruct (column_body_returns F name df schema c fs Hnd H1 H2) as [fs1 E].
    simpl. rewrite E. cbn [bind]. apply IH.
    intros col Hc. apply H. right. exact Hc.
Qed.

Section Returns.

Variable env : Env.

Lemma file_body_returns (F : pd.DataFrame) (name p : string) (st : GroupState) :
  NoDup (pd.index_values F) ->
  processable env p ->
  In p (dict.keys (structure_dict st)) ->
  exists st',
    file_body env F (of_group name F) p st = Ok st' /\
    dict.keys (structure_dict st') = dict.keys (structure_dict st).
Proof.
  intros Hnd [path0 [rest [df [tp [Hsort [Hread [Hidx Htest]]]]]]] Hkey.
  destruct (in_keys_get p _ Hkey) as [entry Hentry].
  assert (Hsch : set_dtypes (config env) (polars.schema df)
                 = Ok (fst (set_dtypes_run (config env) (polars.schema df)))).
  { apply set_dtypes_returns. intros col Hc. apply Hidx.
    unfold dict.keys, polars.schema in Hc. rewrite map_map in Hc. exact Hc. }
  assert (Hkeys : dict.keys (fst (set_dtypes_run (config env) (polars.schema df)))
                  = polars.columns df).
  { unfold set_dtypes_run. rewrite loop_keys by auto.
    unfold dict.keys, polars.schema, polars.columns. rewrite map_map. reflexivity. }
  destruct (columns_loop_returns F name df
              (fst (set_dtypes_run (config env) (polars.schema df)))
              (polars.columns df) (file_init (polars.columns df)) Hnd)
    as [fs Hfs].
  { intros col Hc. split; [exact Hc|]. rewrite Hkeys. exact Hc. }
  unfold file_body. cbn [for_each].
  unfold mode_body at 1. rewrite Hsort.
  cbn [bind String.eqb Ascii.eqb Bool.eqb py.item0]. rewrite Hread. cbn [bind].
  rewrite Hsch. cbn [bind fst]. unfold dict.getitem at 1. rewrite Hentry. cbn [bind].
  unfold mode_body at 1. rewrite Htest.
  cbn [bind String.eqb Ascii.eqb Bool.eqb fst snd].
  rewrite Hfs. cbn [bind]. unfold dict.getitem. rewrite get_set_eq. cbn [bind].
  eexists. split; [reflexivity|]. cbn [structure_dict].
  rewrite keys_set_in; rewrite keys_set_in; auto.
Qed.

Lemma files_loop_returns (F : pd.DataFrame) (name : string) (l : list string)
  (st : GroupState) :
  NoDup (pd.index_values F) ->
  (forall p, In p l -> processable env p /\ In p (dict.keys (structure_dict st))) ->
  exists st', for_each (file_body env F (of_group name F)) l st = Ok st'.
Proof.
  intros Hnd. revert st. induction l as [|p l IH]; intros st H.
  - exists st. reflexivity.
  - destruct (H p (or_introl eq_refl)) as [H1 H2].
    destruct (file_body_returns F name p st Hnd H1 H2) as [st1 [E Hk]].
    simpl. rewrite E. cbn [bind]. apply IH.
    intros q Hq. rewrite Hk. apply H. right. exact Hq.
Qed.

Lemma group_init_keys (file_names : list string) (p : string) :
  In p file_names -> In p (dict.keys (structure_dict (group_init file_names))).
Proof.
  intros H. cbn [structure_dict group_init].
  eapply get_some_key. apply get_comprehension_in. exact H.
Qed.

(** X20. The run completes when the feature names of the features table
    are pairwise distinct and every pattern of every group can be
    processed; it then writes the dictionary it built, and nothing else,
    to the pickle path of the version. *)
Lemma write_data_props_returns {Blob : Type} (dump : DfsProps -> Blob)
  (dfs_props : dict.t (list string)) (version : string) (F : pd.DataFrame) :
  read_features env (features_path env version) = Ok F ->
  NoDup (pd.index_values F) ->
  (forall name file_names p,
      In (name, file_names) dfs_props -> In p file_names -> processable env p) ->
  exists out,
    write_data_props env dump dfs_props version
    = Ok (out, (pickle_path env version, dump out)).
Proof.
  intros HF Hnd Hall. unfold write_data_props. rewrite HF. cbn [bind].
  assert (G : exists out,
             comprehension
               (fun item =>
                  props <- group_body env F (dates_of F) (fst item) (snd item) ;;
                  Ok (fst item, props)) dfs_props = Ok out).
  { induction dfs_props as [|[name fns] l IH].
    - exists []. reflexivity.
    - destruct (files_loop_returns F name fns (group_init fns) Hnd) as [st Hst].
      { intros p Hp. split; [|apply group_init_keys; exact Hp].
        apply (Hall name fns p); [left; reflexivity|exact Hp]. }
      destruct IH as [out IH].
      { intros n f p Hin Hp. apply (Hall n f p); [right; exact Hin|exact Hp]. }
      assert (Hg : exists props, group_body env F (dates_of F) name fns = Ok props).
      { unfold group_body. rewrite Hst. cbn [bind]. eauto. }
      destruct Hg as [props Hg].
      cbn [comprehension fst snd]. rewrite Hg. cbn [bind].
      rewrite IH. cbn [bind]. eauto. }
  destruct G as [out ->]. cbn [bind]. eauto.
Qed.

End Returns.

(** * Further properties *)

(** ** The order of the sorted paths *)

Lemma str_compare_refl (s : string) : String.compare s s = Eq.
Proof.
  induction s as [|c s IH]; simpl; [reflexivity|].
  unfold Ascii.compare. rewrite N.compare_refl. exact IH.
Qed.

Lemma str_compare_lt_trans (a b c : string) :
  String.compare a b = Lt -> String.compare b c = Lt -> String.compare a c = Lt.
Proof.
  revert b c. induction a as [|x a IH]; intros [|y b] [|z c]; simpl;
    try discriminate; auto.
  unfold Ascii.compare.
  destruct (N.compare (N_of_ascii x) (N_of_ascii y)) eqn:Exy;
    destruct (N.compare (N_of_ascii y) (N_of_ascii z)) eqn:Eyz;
    try discriminate; intros H1 H2.
  - apply N.compare_eq_iff in Exy, Eyz. rewrite Exy, Eyz, N.compare_refl.
    eapply IH; eassumption.
  - apply N.compare_eq_iff in Exy. rewrite Exy, Eyz. reflexivity.
  - apply N.compare_eq_iff in Eyz. rewrite <- Eyz, Exy. reflexivity.
  - assert (E : N.compare (N_of_ascii x) (N_of_ascii z) = Lt).
    { apply N.compare_lt_iff. eapply N.lt_trans; apply N.compare_lt_iff; eassumption. }
    rewrite E. reflexivity.
Qed.

Lemma str_leb_refl (s : string) : String.leb s s = true.
Proof. unfold String.leb. rewrite str_compare_refl. reflexivity. Qed.

Lemma str_leb_trans (a b c : string) :
  String.leb a b = true -> String.leb b c = true -> String.leb a c = true.
Proof.
  unfold String.leb.
  destruct (String.compare a b) eqn:Eab; try discriminate;
    destruct (String.compare b c) eqn:Ebc; try discriminate; intros _ _.
  - apply String.compare_eq_iff in Eab, Ebc. subst.
    rewrite str_compare_refl. reflexivity.
  - apply String.compare_eq_iff in Eab. subst. rewrite Ebc. reflexivity.
  - apply String.compare_eq_iff in Ebc. subst. rewrite Eab. reflexivity.
  - rewrite (str_compare_lt_trans a b c Eab Ebc). reflexivity.
Qed.

Lemma str_ltb_leb (a b : string) : String.ltb a b = true -> String.leb a b = true.
Proof.
  unfold String.ltb, String.leb. destruct (String.compare a b); auto.
Qed.

Lemma str_ltb_false_leb (a b : string) :
  String.ltb a b = false -> String.leb b a = true.
Proof.
  unfold String.ltb, String.leb. rewrite (String.compare_antisym b a).
  destruct (String.compare a b); simpl; intros H; try reflexivity; discriminate.
Qed.

Lemma tuple_le_refl (a : Z * string) : tuple_le a a.
Proof. right. split; [reflexivity|apply str_leb_refl]. Qed.

Lemma tuple_le_trans (a b c : Z * string) :
  tuple_le a b -> tuple_le b c -> tuple_le a c.
Proof.
  unfold tuple_le. intros [H1|[H1 H1']] [H2|[H2 H2']].
  - left; lia.
  - left; lia.
  - left; lia.
  - right. split; [lia|]. eapply str_leb_trans; eassumption.
Qed.

Lemma tuple_le_antisym (a b : Z * string) :
  tuple_le a b -> tuple_le b a -> a = b.
Proof.
  unfold tuple_le. destruct a as [n s], b as [m t]. simpl.
  intros [H1|[H1 H1']] [H2|[H2 H2']]; try lia.
  subst. f_equal. apply String.leb_antisym; assumption.
Qed.

Lemma tuple_ltb_le (a b : Z * string) : py.tuple_ltb a b = true -> tuple_le a b.
Proof.
  unfold py.tuple_ltb, tuple_le. intros H.
  apply orb_true_iff in H. destruct H as [H|H].
  - left. apply Z.ltb_lt. exact H.
  - apply andb_true_iff in H. destruct H as [H1 H2].
    right. split; [apply Z.eqb_eq; exact H1 | apply str_ltb_leb; exact H2].
Qed.

Lemma tuple_ltb_false_le (a b : Z * string) :
  py.tuple_ltb a b = false -> tuple_le b a.
Proof.
  unfold py.tuple_ltb, tuple_le. intros H.
  apply orb_false_iff in H. destruct H as [H1 H2].
  apply Z.ltb_ge in H1.
  destruct (Z.eqb (fst a) (fst b)) eqn:E.
  - apply Z.eqb_eq in E. simpl in H2. right.
    split; [symmetry; exact E | apply str_ltb_false_leb; exact H2].
  - apply Z.eqb_neq in E. left. lia.
Qed.

Lemma insort_tuple_sorted (x : Z * string) (l : list (Z * string)) :
  Sorted tuple_le l -> Sorted tuple_le (py.insort x l).
Proof.
  induction 1 as [|y l Hl IH Hy]; simpl.
  - repeat constructor.
  - destruct (py.tuple_ltb y x) eqn:E.
    + constructor; [exact IH|].
      destruct l as [|z l]; simpl.
      * constructor. apply tuple_ltb_le. exact E.
      * destruct (py.tuple_ltb z x); constructor;
          [inversion Hy; assumption | apply tuple_ltb_le; exact E].
    + constructor; [constructor; assumption|].
      constructor. apply tuple_ltb_false_le. exact E.
Qed.

Lemma sorted_tuple_sorted (l : list (Z * string)) :
  StronglySorted tuple_le (py.sorted l).
Proof.
  apply Sorted_StronglySorted; [exact tuple_le_trans|].
  induction l as [|x l IH]; simpl; [constructor|].
  apply insort_tuple_sorted. exact IH.
Qed.

(** A list has one sorted arrangement. *)
Lemma sorted_unique (l1 l2 : list (Z * string)) :
  Permutation l1 l2 ->
  StronglySorted tuple_le l1 -> StronglySorted tuple_le l2 -> l1 = l2.
Proof.
  revert l2. induction l1 as [|a l1 IH]; intros l2 Hp H1 H2.
  - apply Permutation_nil in Hp. subst. reflexivity.
  - destruct l2 as [|b l2].
    { apply Permutation_sym, Permutation_nil in Hp. discriminate. }
    inversion H1 as [|? ? H1' Ha]; subst.
    inversion H2 as [|? ? H2' Hb]; subst.
    assert (E : a = b).
    { assert (Hab : tuple_le a b).
      { assert (Hin : In b (a :: l1))
          by (eapply Permutation_in; [apply Permutation_sym; exact Hp|left; reflexivity]).
        destruct Hin as [->|Hin]; [apply tuple_le_refl|].
        rewrite Forall_forall in Ha. apply Ha. exact Hin. }
      assert (Hba : tuple_le b a).
      { assert (Hin : In a (b :: l2))
          by (eapply Permutation_in; [exact Hp|left; reflexivity]).
        destruct Hin as [->|Hin]; [apply tuple_le_refl|].
        rewrite Forall_forall in Hb. apply Hb. exact Hin. }
      apply tuple_le_antisym; assumption. }
    subst b. f_equal. apply IH; auto.
    eapply Permutation_cons_inv. exact Hp.
Qed.

Lemma sorted_permutation_eq (l1 l2 : list (Z * string)) :
  Permutation l1 l2 -> py.sorted l1 = py.sorted l2.
Proof.
  intros Hp. apply sorted_unique; try apply sorted_tuple_sorted.
  rewrite <- (sorted_perm l1), <- (sorted_perm l2). exact Hp.
Qed.

Lemma sorted_fixed (l : list (Z * string)) :
  StronglySorted tuple_le l -> py.sorted l = l.
Proof.
  intros H. apply sorted_unique; [|apply sorted_tuple_sorted|exact H].
  apply Permutation_sym. apply sorted_perm.
Qed.

(** ** More on [sort_paths] *)

Lemma comprehension_raise_inv {A B : Type} (f : A -> result B) (l : list A) (e : exn) :
  comprehension f l = Raise e -> Exists (fun a => f a = Raise e) l.
Proof.
  induction l as [|a l IH]; simpl; [discriminate|].
  destruct (f a) as [b|e'] eqn:E; simpl.
  - destruct (comprehension f l) as [bs|e'']; simpl; [discriminate|].
    intros H. injection H as ->. apply Exists_cons_tl. apply IH. reflexivity.
  - intros H. injection H as ->. apply Exists_cons_hd. exact E.
Qed.

Lemma comprehension_keys (paths : list string) (ns : list Z) :
  comprehension path_num paths = Ok ns ->
  py.zip ns paths = List.map keyed paths /\
  Forall (fun p => numeric (trailing_suffix p) (key_of p)) paths.
Proof.
  intros H. apply comprehension_ok in H.
  induction H as [|p n paths ns Hp _ [IH1 IH2]]; simpl; [auto|].
  assert (E : key_of p = n) by (unfold key_of; rewrite Hp; reflexivity).
  split.
  - unfold keyed at 1. rewrite E. f_equal. exact IH1.
  - constructor; [|exact IH2]. unfold numeric. rewrite <- path_num_int, E. exact Hp.
Qed.

Lemma comprehension_numeric (paths : list string) :
  Forall (fun p => numeric (trailing_suffix p) (key_of p)) paths ->
  comprehension path_num paths = Ok (List.map key_of paths).
Proof.
  induction 1 as [|p paths Hp _ IH]; simpl; [reflexivity|].
  unfold numeric in Hp. rewrite <- path_num_int in Hp. rewrite Hp, IH. reflexivity.
Qed.

Lemma zip_keys (paths : list string) :
  py.zip (List.map key_of paths) paths = List.map keyed paths.
Proof.
  induction paths as [|p paths IH]; simpl; [reflexivity|]. rewrite IH. reflexivity.
Qed.

Lemma keyed_snd (l : list (Z * string)) :
  Forall (fun a => a = keyed (snd a)) l -> List.map keyed (List.map snd l) = l.
Proof.
  induction 1 as [|a l Ha _ IH]; simpl; [reflexivity|].
  rewrite IH, <- Ha. reflexivity.
Qed.

(** The paths [sort_paths] returns for a list that is no singleton. *)
Lemma sort_paths_out (paths out : list string) :
  List.length paths <> 1%nat ->
  sort_paths paths = Ok out ->
  Forall (fun p => numeric (trailing_suffix p) (key_of p)) paths /\
  out = List.map snd (py.sorted (List.map keyed paths)) /\
  List.map keyed out = py.sorted (List.map keyed paths).
Proof.
  intros Hlen H. unfold sort_paths in H.
  apply Nat.eqb_neq in Hlen. rewrite Hlen in H.
  inv_bind H as ns Hns. injection H as <-.
  destruct (comprehension_keys paths ns Hns) as [Hzip Hnum].
  rewrite Hzip. split; [exact Hnum|]. split; [reflexivity|].
  apply keyed_snd.
  eapply Permutation_Forall; [apply sorted_perm|].
  apply Forall_forall. intros a Ha. apply in_map_iff in Ha.
  destruct Ha as [p [<- _]]. reflexivity.
Qed.

Lemma sort_paths_raise_inv (paths : list string) (e : exn) :
  sort_paths paths = Raise e ->
  e = ValueError /\ List.length paths <> 1%nat /\
  Exists (fun p => forall n, ~ numeric (trailing_suffix p) n) paths.
Proof.
  intros H. unfold sort_paths in H.
  destruct (List.length paths =? 1)%nat eqn:Hlen; [discriminate|].
  apply Nat.eqb_neq in Hlen.
  destruct (comprehension path_num paths) as [ns|e'] eqn:Hc; [discriminate|].
  injection H as ->. apply comprehension_raise_inv in Hc.
  assert (He : e = ValueError).
  { apply Exists_exists in Hc. destruct Hc as [p [_ Hp]].
    destruct (path_num_cases p) as [[n Hn]|Hn]; congruence. }
  split; [exact He|]. split; [exact Hlen|].
  eapply Exists_impl; [|exact Hc].
  intros p Hp n Hn. unfold numeric in Hn. rewrite <- path_num_int in Hn. congruence.
Qed.

Lemma sort_paths_raise_intro (paths : list string) :
  List.length paths <> 1%nat ->
  Exists (fun p => forall n, ~ numeric (trailing_suffix p) n) paths ->
  sort_paths paths = Raise ValueError.
Proof.
  intros Hlen Hex. unfold sort_paths.
  apply Nat.eqb_neq in Hlen. rewrite Hlen.
  rewrite (comprehension_raise path_num paths ValueError); [reflexivity| |].
  - intros p _. destruct (path_num_cases p) as [[n Hn]|Hn]; [eauto|].
    exists 0%Z; auto.
  - eapply Exists_impl; [|exact Hex].
    intros p Hp. simpl in Hp.
    destruct (path_num_cases p) as [[n Hn]|Hn]; [|exact Hn].
    exfalso. apply (Hp n). unfold numeric. rewrite <- path_num_int. exact Hn.
Qed.

(** X1. [sort_paths] raises exactly when its argument is no singleton
    and holds a path with a non-numeric trailing suffix, and what it
    raises is [ValueError]. *)
Theorem sort_paths_raises_iff (paths : list string) (e : exn) :
  sort_paths paths = Raise e <->
  (e = ValueError /\ List.length paths <> 1%nat /\
   Exists (fun p => forall n, ~ numeric (trailing_suffix p) n) paths).
Proof.
  split.
  - apply sort_paths_raise_inv.
  - intros [-> [Hlen Hex]]. apply sort_paths_raise_intro; assumption.
Qed.

Lemma sort_paths_raises_iff_witness :
  exists p,
    In p ["b_2.parquet"; "b_one.parquet"] /\
    forall n, ~ numeric (trailing_suffix p) n.
Proof.
  destruct (proj1 (sort_paths_raises_iff ["b_2.parquet"; "b_one.parquet"] ValueError))
    as [_ [_ H]].
  - vm_compute. reflexivity.
  - apply Exists_exists in H. exact H.
Defined.

Lemma sort_paths_out_numeric (paths out : list string) :
  List.length paths <> 1%nat ->
  sort_paths paths = Ok out ->
  Forall (fun p => numeric (trailing_suffix p) (key_of p)) out.
Proof.
  intros Hlen H.
  destruct (sort_paths_out paths out Hlen H) as [Hnum [Hout Hkeyed]].
  rewrite Hout.
  assert (G : Forall (fun a => numeric (trailing_suffix (snd a)) (key_of (snd a)))
                (py.sorted (List.map keyed paths))).
  { eapply Permutation_Forall; [apply sorted_perm|].
    apply Forall_forall. intros a Ha. apply in_map_iff in Ha.
    destruct Ha as [p [<- Hp]]. rewrite Forall_forall in Hnum. apply Hnum. exact Hp. }
  apply Forall_map. exact G.
Qed.

Lemma sort_paths_out_sorted (paths out : list string) :
  List.length paths <> 1%nat ->
  sort_paths paths = Ok out ->
  StronglySorted tuple_le (List.map keyed out).
Proof.
  intros Hlen H.
  destruct (sort_paths_out paths out Hlen H) as [Hnum [Hout Hkeyed]].
  rewrite Hkeyed. apply sorted_tuple_sorted.
Qed.

(** X2. In what [sort_paths] returns for a list that is no singleton, the
    paths stand in the order of their numbers, and paths of equal number
    in the order of their strings. *)
Theorem sort_paths_ties (paths out : list string) :
  List.length paths <> 1%nat ->
  sort_paths paths = Ok out ->
  Forall (fun p => numeric (trailing_suffix p) (key_of p)) out /\
  StronglySorted tuple_le (List.map keyed out).
Proof.
  intros Hlen H. split.
  - apply (sort_paths_out_numeric paths out Hlen H).
  - apply (sort_paths_out_sorted paths out Hlen H).
Qed.

Lemma sort_paths_ties_witness :
  Forall (fun p => numeric (trailing_suffix p) (key_of p))
    ["a_01.parquet"; "a_1.csv"; "a_1.parquet"; "a_2.parquet"] /\
  StronglySorted tuple_le
    (List.map keyed ["a_01.parquet"; "a_1.csv"; "a_1.parquet"; "a_2.parquet"]).
Proof.
  apply (sort_paths_ties ["a_1.parquet"; "a_2.parquet"; "a_01.parquet"; "a_1.csv"]).
  - simpl. discriminate.
  - vm_compute. reflexivity.
Defined.

(** X3. [sort_paths] does not depend on the order of its argument: two
    lists that are permutations of each other give the same result, or
    the same exception. *)
Theorem sort_paths_order_insensitive (paths paths' : list string) :
  Permutation paths paths' -> sort_paths paths = sort_paths paths'.
Proof.
  intros Hp.
  destruct (Nat.eq_dec (List.length paths) 1) as [Hlen|Hlen].
  - destruct paths as [|p [|q l]]; try discriminate.
    apply Permutation_length_1_inv in Hp. subst. reflexivity.
  - assert (Hlen' : List.length paths' <> 1%nat)
      by (rewrite <- (Permutation_length Hp); exact Hlen).
    destruct (sort_paths paths) as [out|e] eqn:E.
    + destruct (sort_paths_out paths out Hlen E) as [Hnum [Hout _]].
      unfold sort_paths. apply Nat.eqb_neq in Hlen'. rewrite Hlen'.
      rewrite comprehension_numeric
        by (eapply Permutation_Forall; eassumption).
      cbn [bind]. rewrite zip_keys. rewrite Hout. do 2 f_equal.
      apply sorted_permutation_eq. apply Permutation_map. exact Hp.
    + apply sort_paths_raise_inv in E. destruct E as [-> [_ Hex]].
      symmetry. apply sort_paths_raise_intro; [exact Hlen'|].
      apply Exists_exists in Hex. destruct Hex as [p [Hin Hp']].
      apply Exists_exists. exists p. split; [|exact Hp'].
      eapply Permutation_in; eassumption.
Qed.

Lemma sort_paths_order_insensitive_witness :
  sort_paths ["a_2.parquet"; "a_10.parquet"; "a_1.parquet"]
  = sort_paths ["a_10.parquet"; "a_1.parquet"; "a_2.parquet"].
Proof.
  apply sort_paths_order_insensitive.
  apply (Permutation_cons_app ["a_10.parquet"; "a_1.parquet"] [] "a_2.parquet").
  apply Permutation_refl.
Defined.

(** X4. Sorting twice changes nothing: what [sort_paths] returns is
    returned as it is when passed again. *)
Theorem sort_paths_idempotent (paths out : list string) :
  sort_paths paths = Ok out -> sort_paths out = Ok out.
Proof.
  intros H.
  destruct (Nat.eq_dec (List.length paths) 1) as [Hlen|Hlen].
  - unfold sort_paths in H. apply Nat.eqb_eq in Hlen. rewrite Hlen in H.
    injection H as <-. unfold sort_paths. rewrite Hlen. reflexivity.
  - assert (Hnum := sort_paths_out_numeric paths out Hlen H).
    assert (Hsorted := sort_paths_out_sorted paths out Hlen H).
    destruct (sort_paths_out paths out Hlen H) as [_ [Hout _]].
    assert (Hlen' : List.length out <> 1%nat).
    { rewrite Hout, length_map, <- (Permutation_length (sorted_perm _)), length_map.
      exact Hlen. }
    unfold sort_paths. apply Nat.eqb_neq in Hlen'. rewrite Hlen'.
    rewrite (comprehension_numeric out Hnum). cbn [bind].
    rewrite zip_keys. rewrite (sorted_fixed _ Hsorted).
    rewrite map_map. simpl. rewrite map_id. reflexivity.
Qed.

Lemma sort_paths_idempotent_witness :
  sort_paths ["a_1.parquet"; "a_2.parquet"; "a_10.parquet"]
  = Ok ["a_1.parquet"; "a_2.parquet"; "a_10.parquet"].
Proof.
  apply (sort_paths_idempotent ["a_2.parquet"; "a_10.parquet"; "a_1.parquet"]).
  vm_compute. reflexivity.
Defined.

(** ** [gen_file_path] and the number of a path *)

Lemma str_append_assoc (a b c : string) :
  ((a ++ b) ++ c)%string = (a ++ (b ++ c))%string.
Proof.
  induction a as [|x a IH]; simpl; [reflexivity|]. rewrite IH. reflexivity.
Qed.

(** X5. The path [gen_file_path] builds for a file name that ends in an
    underscore and a decimal number is a path of the form [name_<n>.ext]:
    [sort_paths] reads that number in it, whatever the data directory and
    the mode are called. *)
Theorem gen_file_path_number (cfg : Config) (name ds mode : string) :
  ds <> EmptyString ->
  all_digits ds = true ->
  well_formed (gen_file_path cfg (name ++ "_" ++ ds) mode) (dec_value ds 0) /\
  path_num (gen_file_path cfg (name ++ "_" ++ ds) mode) = Ok (dec_value ds 0).
Proof.
  intros Hne Hd.
  assert (W : well_formed (gen_file_path cfg (name ++ "_" ++ ds) mode) (dec_value ds 0)).
  { exists (PATH_DATA cfg ++ "/parquet_files/" ++ mode ++ "/" ++ mode ++ "_" ++ name)%string,
      ds, "parquet".
    split; [|repeat split; auto].
    unfold gen_file_path. rewrite !str_append_assoc. reflexivity. }
  split; [exact W|].
  rewrite path_num_int. apply well_formed_numeric. exact W.
Qed.

Lemma gen_file_path_number_witness :
  well_formed "/data/parquet_files/train/train_credit_bureau_a_1_10.parquet" 10%Z /\
  path_num "/data/parquet_files/train/train_credit_bureau_a_1_10.parquet" = Ok 10%Z.
Proof.
  apply (gen_file_path_number Sample.cfg "credit_bureau_a_1" "10" "train").
  - discriminate.
  - reflexivity.
Defined.

(** ** More on [set_dtypes] *)

Lemma not_indexable (cfg : Config) (col : string) :
  ~ indexable cfg col <->
  (col = EmptyString /\ str_in EmptyString (int_columns cfg) = false /\
   str_in EmptyString (date_columns cfg) = false).
Proof.
  unfold indexable. split.
  - intros H. destruct (string_dec col EmptyString) as [->|Hne]; [|tauto].
    split; [reflexivity|].
    destruct (str_in EmptyString (int_columns cfg)); [tauto|].
    destruct (str_in EmptyString (date_columns cfg)); tauto.
  - intros [-> [H1 H2]] [H|[H|H]]; congruence.
Qed.

Lemma indexable_dec (cfg : Config) (col : string) :
  {indexable cfg col} + {~ indexable cfg col}.
Proof.
  unfold indexable.
  destruct (str_in col (int_columns cfg)); [left; auto|].
  destruct (str_in col (date_columns cfg)); [left; auto|].
  destruct (string_dec col EmptyString) as [->|Hne]; [right|left; auto].
  intros [H|[H|H]]; congruence.
Qed.

(** X6. [set_dtypes] raises exactly on a schema that has a column of
    empty name while the empty name is none of the forced columns, and
    what it raises is [IndexError]. *)
Theorem set_dtypes_raises_iff (cfg : Config) (schema : Schema) (e : exn) :
  set_dtypes cfg schema = Raise e <->
  (e = IndexError /\ In EmptyString (dict.keys schema) /\
   str_in EmptyString (int_columns cfg) = false /\
   str_in EmptyString (date_columns cfg) = false).
Proof.
  split.
  - intros H.
    destruct (Forall_Exists_dec (indexable cfg) (indexable_dec cfg) (dict.keys schema))
      as [Hall|Hex].
    + rewrite set_dtypes_returns in H; [discriminate|].
      apply Forall_forall. exact Hall.
    + rewrite (set_dtypes_raises cfg schema Hex) in H. injection H as <-.
      split; [reflexivity|].
      apply Exists_exists in Hex. destruct Hex as [col [Hin Hcol]].
      apply not_indexable in Hcol. destruct Hcol as [-> [H1 H2]]. auto.
  - intros [-> [Hin [H1 H2]]]. apply set_dtypes_raises.
    apply Exists_exists. exists EmptyString. split; [exact Hin|].
    apply not_indexable. auto.
Qed.

Lemma set_dtypes_raises_iff_witness :
  set_dtypes Sample.cfg
    [("amount_4527230A", pl.Int64); (EmptyString, pl.String); ("name_4527232M", pl.Null)]
  = Raise IndexError.
Proof.
  apply (proj2 (set_dtypes_raises_iff Sample.cfg _ IndexError)).
  split; [reflexivity|]. split; [right; left; reflexivity|].
  split; reflexivity.
Defined.

Lemma set_same {V : Type} (k : string) (v : V) (d : dict.t V) :
  dict.get k d = Some v -> dict.set k v d = d.
Proof.
  induction d as [|[k0 v0] d IH]; simpl; [discriminate|].
  destruct (String.eqb k0 k) eqn:E.
  - intros H. injection H as ->. reflexivity.
  - intros H. rewrite IH by exact H. reflexivity.
Qed.

(** The loop body assigns a dtype that its column name alone decides. *)
Lemma body_normalised (cfg : Config) (col : string) (schema : Schema) (old : pl.DataType) :
  indexable cfg col ->
  dict.get col schema = Some old ->
  set_dtypes_body cfg col schema
  = (dict.set col (normalised cfg col old) schema, None).
Proof.
  intros Hidx Hget. unfold set_dtypes_body, normalised.
  destruct (str_in col (int_columns cfg)) eqn:E1; [reflexivity|].
  destruct (str_in col (date_columns cfg)) eqn:E2; [reflexivity|].
  destruct Hidx as [H|[H|H]]; try congruence.
  destruct (last_char_some col H) as [c ->].
  repeat match goal with
         | |- context [if ?b then _ else _] => destruct b
         end; try reflexivity; rewrite (set_same col old schema Hget); reflexivity.
Qed.

Lemma normalised_idempotent (cfg : Config) (col : string) (old : pl.DataType) :
  normalised cfg col (normalised cfg col old) = normalised cfg col old.
Proof.
  unfold normalised.
  repeat match goal with
         | |- context [if ?b then _ else _] => destruct b
         | |- context [match py.last_char ?c with _ => _ end] =>
             destruct (py.last_char c)
         end; reflexivity.
Qed.

Lemma set_middle {V : Type} (k : string) (v v0 : V) (d1 d2 : dict.t V) :
  ~ In k (dict.keys d1) ->
  dict.set k v (d1 ++ (k, v0) :: d2) = d1 ++ (k, v) :: d2.
Proof.
  induction d1 as [|[k1 v1] d1 IH]; simpl; intros H.
  - rewrite String.eqb_refl. reflexivity.
  - destruct (String.eqb k1 k) eqn:E.
    + apply String.eqb_eq in E. tauto.
    + rewrite IH by tauto. reflexivity.
Qed.

Lemma get_middle {V : Type} (k : string) (v0 : V) (d1 d2 : dict.t V) :
  ~ In k (dict.keys d1) -> dict.get k (d1 ++ (k, v0) :: d2) = Some v0.
Proof.
  induction d1 as [|[k1 v1] d1 IH]; simpl; intros H.
  - rewrite String.eqb_refl. reflexivity.
  - destruct (String.eqb k1 k) eqn:E.
    + apply String.eqb_eq in E. tauto.
    + apply IH. tauto.
Qed.

Lemma loop_pointwise (cfg : Config) (done todo : Schema) :
  NoDup (dict.keys (done ++ todo)) ->
  (forall col, In col (dict.keys todo) -> indexable cfg col) ->
  set_dtypes_loop cfg (dict.keys todo) (done ++ todo)
  = (done ++ List.map (fun kv => (fst kv, normalised cfg (fst kv) (snd kv))) todo,
     None).
Proof.
  revert done. induction todo as [|[k v] todo IH]; intros done Hnd Hidx.
  - reflexivity.
  - cbn [dict.keys List.map fst set_dtypes_loop].
    assert (Hk : ~ In k (dict.keys done)).
    { unfold dict.keys in *. rewrite map_app in Hnd. simpl in Hnd.
      apply NoDup_remove_2 in Hnd. intros Hin. apply Hnd.
      apply in_or_app. left. exact Hin. }
    rewrite (body_normalised cfg k _ v); [|apply Hidx; left; reflexivity
                                          |apply get_middle; exact Hk].
    rewrite (set_middle k _ v done todo Hk).
    change (done ++ (k, normalised cfg k v) :: todo)
      with (done ++ [(k, normalised cfg k v)] ++ todo).
    rewrite app_assoc. fold (dict.keys todo).
    rewrite IH.
    + rewrite <- app_assoc. reflexivity.
    + unfold dict.keys in *. rewrite <- app_assoc. rewrite !map_app in *.
      simpl in *. exact Hnd.
    + intros col Hc. apply Hidx. right. exact Hc.
Qed.

(** X7. On a schema that raises nothing, [set_dtypes] works column by
    column: it returns the columns in their order, each with the dtype
    its name calls for, or with its own dtype when the name calls for
    none. *)
Theorem set_dtypes_pointwise (cfg : Config) (schema : Schema) :
  NoDup (dict.keys schema) ->
  (forall col, In col (dict.keys schema) -> indexable cfg col) ->
  set_dtypes cfg schema
  = Ok (List.map (fun kv => (fst kv, normalised cfg (fst kv) (snd kv))) schema).
Proof.
  intros Hnd Hidx. unfold set_dtypes, set_dtypes_run.
  pose proof (loop_pointwise cfg [] schema Hnd Hidx) as E.
  cbn [List.app] in E. rewrite E. reflexivity.
Qed.

Lemma set_dtypes_pointwise_witness :
  set_dtypes Sample.cfg (polars.schema Sample.applprev_1_0)
  = Ok (List.map (fun kv => (fst kv, normalised Sample.cfg (fst kv) (snd kv)))
          (polars.schema Sample.applprev_1_0)).
Proof.
  apply set_dtypes_pointwise.
  - repeat constructor; simpl; intuition discriminate.
  - intros col H. right. right. intros ->. simpl in H. intuition discriminate.
Defined.

(** The dtype of every column once the loop is over. *)
Lemma loop_get_normalised (cfg : Config) (cols : list string) (schema : Schema) :
  (forall col, In col cols -> indexable cfg col /\ In col (dict.keys schema)) ->
  exists schema',
    set_dtypes_loop cfg cols schema = (schema', None) /\
    dict.keys schema' = dict.keys schema /\
    forall k old, dict.get k schema = Some old ->
                  (In k cols -> dict.get k schema' = Some (normalised cfg k old)) /\
                  (~ In k cols -> dict.get k schema' = Some old).
Proof.
  revert schema. induction cols as [|c cols IH]; intros schema H.
  - exists schema. split; [reflexivity|]. split; [reflexivity|].
    intros k old Hk. split; [intros []|auto].
  - destruct (H c (or_introl eq_refl)) as [Hidx Hin].
    destruct (in_keys_get c schema Hin) as [vc Hvc].
    cbn [set_dtypes_loop]. rewrite (body_normalised cfg c schema vc Hidx Hvc).
    destruct (IH (dict.set c (normalised cfg c vc) schema)) as [s' [Hrun [Hkeys Hget]]].
    { intros col Hcol. rewrite keys_set_in by exact Hin. apply H. right. exact Hcol. }
    exists s'. split; [exact Hrun|].
    split; [rewrite Hkeys; apply keys_set_in; exact Hin|].
    intros k old Hk. destruct (string_dec k c) as [->|Hne].
    + assert (E : old = vc) by congruence. subst vc.
      destruct (Hget c (normalised cfg c old) (get_set_eq _ _ _)) as [G1 G2].
      split; [|intros Hn; exfalso; apply Hn; left; reflexivity].
      intros _. destruct (in_dec string_dec c cols) as [Hc|Hc].
      * rewrite (G1 Hc). rewrite normalised_idempotent. reflexivity.
      * exact (G2 Hc).
    + assert (Hk1 : dict.get k (dict.set c (normalised cfg c vc) schema) = Some old)
        by (rewrite get_set_ne by exact Hne; exact Hk).
      destruct (Hget k old Hk1) as [G1 G2]. split.
      * intros [E|Hc]; [congruence|exact (G1 Hc)].
      * intros Hn. apply G2. intros Hc. apply Hn. right. exact Hc.
Qed.

(** X8. Normalising twice changes nothing: a schema [set_dtypes] returned
    is returned as it is when passed again. *)
Theorem set_dtypes_idempotent (cfg : Config) (schema schema' : Schema) :
  set_dtypes cfg schema = Ok schema' -> set_dtypes cfg schema' = Ok schema'.
Proof.
  intros H.
  assert (Hidx : forall col, In col (dict.keys schema) -> indexable cfg col).
  { intros col Hin. destruct (indexable_dec cfg col) as [Hi|Hn]; [exact Hi|].
    rewrite set_dtypes_raises in H; [discriminate|].
    apply Exists_exists. exists col. auto. }
  destruct (loop_get_normalised cfg (dict.keys schema) schema) as [s [Hrun [Hkeys Hget]]];
    [auto|].
  assert (E : s = schema').
  { unfold set_dtypes, set_dtypes_run in H. rewrite Hrun in H. congruence. }
  subst s.
  assert (Hfix : forall cols, (forall col, In col cols -> In col (dict.keys schema)) ->
                              set_dtypes_loop cfg cols schema' = (schema', None)).
  { induction cols as [|c cols IH]; intros Hsub; [reflexivity|].
    cbn [set_dtypes_loop].
    assert (Hc : In c (dict.keys schema)) by (apply Hsub; left; reflexivity).
    destruct (in_keys_get c schema Hc) as [old Hold].
    destruct (Hget c old Hold) as [G _]. specialize (G Hc).
    rewrite (body_normalised cfg c schema' _ (Hidx c Hc) G).
    rewrite normalised_idempotent. rewrite (set_same c _ schema' G).
    apply IH. intros col Hcol. apply Hsub. right. exact Hcol. }
  unfold set_dtypes, set_dtypes_run. rewrite Hkeys.
  rewrite (Hfix (dict.keys schema) (fun c Hc => Hc)). reflexivity.
Qed.

Lemma set_dtypes_idempotent_witness :
  set_dtypes Sample.cfg
    [("case_id", pl.Int64); ("num_group1", pl.Int64); ("credtype_587L", pl.String);
     ("approvaldate_319D", pl.Date); ("annuity_853A", pl.Float64);
     ("cancelreason_3545846M", pl.String)]
  = Ok [("case_id", pl.Int64); ("num_group1", pl.Int64); ("credtype_587L", pl.String);
        ("approvaldate_319D", pl.Date); ("annuity_853A", pl.Float64);
        ("cancelreason_3545846M", pl.String)].
Proof.
  apply (set_dtypes_idempotent Sample.cfg (polars.schema Sample.applprev_1_0)).
  vm_compute. reflexivity.
Defined.

(** ** More on the dictionary [write_data_props] builds *)

Lemma in_keys_set {V : Type} (k x : string) (v : V) (d : dict.t V) :
  In x (dict.keys (dict.set k v d)) <-> x = k \/ In x (dict.keys d).
Proof.
  split; [apply set_keys_incl|].
  destruct (in_dec string_dec k (dict.keys d)) as [Hin|Hin].
  - rewrite keys_set_in by assumption. intros [->|H]; assumption.
  - rewrite keys_set_new by assumption. intros [->|H]; apply in_or_app.
    + right. left. reflexivity.
    + left. exact H.
Qed.

Lemma in_keys_comprehension {V : Type} (f : string -> V) (ks : list string) (k : string) :
  In k (dict.keys (dict.comprehension f ks)) <-> In k ks.
Proof.
  unfold dict.comprehension.
  assert (G : forall d, In k (dict.keys (fold_left (fun acc x => dict.set x (f x) acc) ks d))
                        <-> In k (dict.keys d) \/ In k ks).
  { induction ks as [|x ks IH]; intros d; simpl; [tauto|].
    rewrite IH, in_keys_set. intuition (subst; auto). }
  rewrite G. simpl. tauto.
Qed.

Lemma in_keys_update {V : Type} (d other : dict.t V) (k : string) :
  In k (dict.keys (dict.update d other)) <->
  In k (dict.keys d) \/ In k (dict.keys other).
Proof.
  unfold dict.update. revert d.
  induction other as [|[k0 v0] o IH]; intros d; simpl; [tauto|].
  rewrite IH, in_keys_set. simpl. intuition (subst; auto).
Qed.

(** The keys of [mapping], the targets appended to [cols_to_incl] and
    the keys of [cols_cat_i] once the loop over the columns is over. *)
Lemma columns_loop_shape (F SG : pd.DataFrame) (df : polars.DataFrame) (schema : Schema)
  (cols : list string) (fs0 fs : FileState) :
  incl SG F ->
  for_each (column_body F SG df schema) cols fs0 = Ok fs ->
  (forall k, In k (dict.keys (mapping fs)) <->
             In k (dict.keys (mapping fs0)) \/ In k cols) /\
  (exists targets,
      cols_to_incl fs = cols_to_incl fs0 ++ targets /\
      Forall2 (renamed_to SG) cols targets) /\
  (forall k, In k (dict.keys (cols_cat_i fs)) ->
             In k (dict.keys (cols_cat_i fs0)) \/
             (In k cols /\ flagged_dummy SG k)) /\
  (forall k, In k (dict.keys (cols_dtypes fs)) <->
             In k (dict.keys (cols_dtypes fs0)) \/ In k cols) /\
  (forall k, In k cols -> dict.get k (cols_dtypes fs) = dict.get k schema).
Proof.
  intros Hincl. revert fs0.
  induction cols as [|c cols IH]; intros fs0 H.
  - injection H as <-.
    split; [intros k; simpl; tauto|].
    split; [exists []; rewrite app_nil_r; split; [reflexivity|constructor]|].
    split; [auto|]. split; [intros k; simpl; tauto|]. intros k [].
  - simpl in H. inv_bind H as fs1 Hstep.
    destruct (IH fs1 H) as [IH1 [[targets [IH2 IH2']] [IH3 [IH4 IH5]]]].
    destruct (column_body_ok F SG df schema c fs0 fs1 Hincl Hstep)
      as [target [dtype [Hren [Hmap [Hincl1 [Hdt [Hdts Hcat]]]]]]].
    split; [|split; [|split; [|split]]].
    + intros k. rewrite IH1, Hmap, in_keys_set. simpl. intuition (subst; auto).
    + exists (target :: targets). split.
      * rewrite IH2, Hincl1, <- app_assoc. reflexivity.
      * constructor; assumption.
    + intros k Hk. destruct (IH3 k Hk) as [Hk1|[Hk1 Hf]].
      * destruct Hcat as [[Hflag [series [_ E]]]|[_ E]]; rewrite E in Hk1.
        -- apply in_keys_set in Hk1. destruct Hk1 as [->|Hk1]; [|left; exact Hk1].
           right. split; [left; reflexivity|exact Hflag].
        -- left. exact Hk1.
      * right. split; [right; exact Hk1|exact Hf].
    + intros k. rewrite IH4, Hdts, in_keys_set. simpl. intuition (subst; auto).
    + intros k Hk. destruct (in_dec string_dec k cols) as [Hin|Hnin];
        [apply IH5; exact Hin|].
      destruct Hk as [<-|Hk]; [|contradiction].
      assert (G : dict.get c (cols_dtypes fs) = dict.get c (cols_dtypes fs1)).
      { clear -H Hnin Hincl. revert fs1 H.
        induction cols as [|x cols IHc]; intros fs1 H.
        - injection H as <-. reflexivity.
        - simpl in H. inv_bind H as fs2 Hstep.
          destruct (column_body_ok F SG df schema x fs1 fs2 Hincl Hstep)
            as [t [d [_ [_ [_ [_ [Hd _]]]]]]].
          rewrite (IHc (fun Hin => Hnin (or_intror Hin)) fs2 H), Hd.
          apply get_set_ne. intros ->. apply Hnin. left. reflexivity. }
      rewrite G, Hdts, get_set_eq. symmetry. exact Hdt.
Qed.

Section Shape.

Variable env : Env.

Lemma files_loop_keys (F SG : pd.DataFrame) (l : list string) (st st' : GroupState) :
  for_each (file_body env F SG) l st = Ok st' ->
  dict.keys (structure_dict st') = dict.keys (structure_dict st).
Proof.
  revert st. induction l as [|p l IH]; intros st H.
  - injection H as <-. reflexivity.
  - simpl in H. inv_bind H as st1 Hstep. rewrite (IH st1 H).
    destruct (file_body_ok env F SG p st st1 Hstep)
      as [df [schema [fs [entry [_ [_ [_ [Hentry [Hsd _]]]]]]]]].
    rewrite Hsd. apply get_some_key in Hentry.
    rewrite keys_set_in; rewrite keys_set_in; auto.
Qed.

(** X9. In the dictionary a completed run builds, the structure of a
    group has an entry for each of its patterns and for nothing else, and
    the entry of a pattern holds the schema of the pattern's sample file
    as [set_dtypes] normalises it. *)
Theorem structure_entries {Blob : Type} (dump : DfsProps -> Blob)
  (dfs_props : dict.t (list string)) (version : string)
  (out : DfsProps) (file : string * Blob) :
  write_data_props env dump dfs_props version = Ok (out, file) ->
  forall name props, In (name, props) out ->
  (forall p, In p (dict.keys (SourceGroupProps.structure props)) <->
             In p (SourceGroupProps.paths props)) /\
  (forall p, In p (SourceGroupProps.paths props) ->
     exists e df,
       dict.get p (SourceGroupProps.structure props) = Some e /\
       sample env p = Ok df /\
       set_dtypes (config env) (polars.schema df) = Ok (StructureEntry.schema e) /\
       dict.keys (StructureEntry.schema e) = polars.columns df).
Proof.
  intros H name props Hin.
  apply write_data_props_ok in H. destruct H as [F [HF [Hall _]]].
  destruct (forall2_in_r _ _ _ _ Hall Hin) as [[name' fns] [_ [E Hg]]].
  cbn in E, Hg. subst name'.
  apply group_body_ok in Hg. destruct Hg as [st [Hst [Hpaths [Hstruct _]]]].
  rewrite Hpaths, Hstruct. split.
  - intros p. rewrite (files_loop_keys F _ fns _ st Hst).
    cbn [structure_dict group_init]. apply in_keys_comprehension.
  - intros p Hp.
    destruct (files_loop_inv env F (of_group name F) fns _ st Hst
                (group_init_paths fns)) as [_ [Hproc _]].
    destruct (Hproc p Hp) as [e [df [schema [fs [He [Hs [Hschema [_ [Hes _]]]]]]]]].
    exists e, df. rewrite Hes. repeat split; auto.
    assert (Hidx : forall col, In col (dict.keys (polars.schema df)) ->
                               indexable (config env) col).
    { intros col Hc. destruct (indexable_dec (config env) col) as [Hi|Hn]; [exact Hi|].
      rewrite set_dtypes_raises in Hschema; [discriminate|].
      apply Exists_exists. exists col. auto. }
    rewrite (set_dtypes_returns _ _ Hidx) in Hschema. injection Hschema as <-.
    unfold set_dtypes_run. rewrite loop_keys by auto.
    unfold dict.keys, polars.schema, polars.columns. apply map_map.
Qed.

End Shape.

Lemma structure_entries_witness :
  write_data_props Sample.env (fun x => x) Sample.dfs_props "old"
  = Ok (Sample.out, ("/features/dfs_props_old.pkl", Sample.out)) /\
  forall name props, In (name, props) Sample.out ->
  (forall p, In p (dict.keys (SourceGroupProps.structure props)) <->
             In p (SourceGroupProps.paths props)) /\
  (forall p, In p (SourceGroupProps.paths props) ->
     exists e df,
       dict.get p (SourceGroupProps.structure props) = Some e /\
       sample Sample.env p = Ok df /\
       set_dtypes (config Sample.env) (polars.schema df) = Ok (StructureEntry.schema e) /\
       dict.keys (StructureEntry.schema e) = polars.columns df).
Proof.
  split; [vm_compute; reflexivity|].
  apply (structure_entries Sample.env (fun x => x) Sample.dfs_props "old"
           Sample.out ("/features/dfs_props_old.pkl", Sample.out)).
  vm_compute. reflexivity.
Defined.

(** ** [np.unique] *)

Lemma str_ltb_irrefl (s : string) : String.ltb s s = false.
Proof. unfold String.ltb. rewrite str_compare_refl. reflexivity. Qed.

Lemma str_lt_trans (a b c : string) : str_lt a b -> str_lt b c -> str_lt a c.
Proof.
  unfold str_lt, String.ltb.
  destruct (String.compare a b) eqn:E1; try discriminate.
  destruct (String.compare b c) eqn:E2; try discriminate.
  intros _ _. rewrite (str_compare_lt_trans a b c E1 E2). reflexivity.
Qed.

Lemma str_trichotomy (a b : string) :
  String.ltb a b = false -> String.eqb a b = false -> String.ltb b a = true.
Proof.
  unfold String.ltb. intros H1 H2. rewrite (String.compare_antisym b a).
  destruct (String.compare a b) eqn:E; simpl; try reflexivity; try discriminate.
  apply String.compare_eq_iff in E. apply String.eqb_neq in H2. contradiction.
Qed.

Lemma np_insort_in (x y : string) (l : list string) :
  In y (np.insort x l) <-> y = x \/ In y l.
Proof.
  induction l as [|z l IH]; simpl; [intuition|].
  destruct (String.ltb z x); simpl.
  - rewrite IH. intuition.
  - destruct (String.eqb z x) eqn:E; simpl; [|intuition].
    apply String.eqb_eq in E. subst. intuition.
Qed.

Lemma np_insort_sorted (x : string) (l : list string) :
  Sorted str_lt l -> Sorted str_lt (np.insort x l).
Proof.
  induction 1 as [|y l Hl IH Hy]; simpl.
  - repeat constructor.
  - destruct (String.ltb y x) eqn:E1.
    + constructor; [exact IH|].
      destruct l as [|z l]; simpl.
      * constructor. exact E1.
      * inversion Hy; subst.
        destruct (String.ltb z x); [constructor; assumption|].
        destruct (String.eqb z x); constructor; assumption.
    + destruct (String.eqb y x) eqn:E2.
      * constructor; assumption.
      * constructor; [constructor; assumption|].
        constructor. apply str_trichotomy; assumption.
Qed.

Lemma np_unique_in (l : list string) (x : string) : In x (np.unique l) <-> In x l.
Proof.
  unfold np.unique. induction l as [|y l IH]; simpl; [tauto|].
  rewrite np_insort_in, IH. intuition.
Qed.

Lemma np_unique_sorted (l : list string) : StronglySorted str_lt (np.unique l).
Proof.
  apply Sorted_StronglySorted; [exact str_lt_trans|].
  unfold np.unique. induction l as [|y l IH]; simpl; [constructor|].
  apply np_insort_sorted. exact IH.
Qed.

Lemma strictly_sorted_nodup (l : list string) : StronglySorted str_lt l -> NoDup l.
Proof.
  induction 1 as [|x l Hl IH Hx]; constructor; [|exact IH].
  intros Hin. rewrite Forall_forall in Hx. specialize (Hx x Hin).
  unfold str_lt in Hx. rewrite str_ltb_irrefl in Hx. discriminate.
Qed.

(** ** What a completed run gathers for a group *)

Lemma renamed_to_functional (sg : pd.DataFrame) (col t1 t2 : string) :
  renamed_to sg col t1 -> renamed_to sg col t2 -> t1 = t2.
Proof.
  intros [A1 B1] [A2 B2].
  destruct (List.find (fun r => String.eqb (pd.feature r) col
                                && negb (String.eqb (pd.new_name r) EmptyString)) sg)
    as [r|] eqn:E.
  - apply find_some in E. destruct E as [Hr Hc].
    apply andb_true_iff in Hc. destruct Hc as [Hf Hn].
    apply String.eqb_eq in Hf. apply negb_true_iff, String.eqb_neq in Hn.
    rewrite (A1 r Hr Hf Hn), (A2 r Hr Hf Hn). reflexivity.
  - assert (G : forall r, In r sg -> pd.feature r = col -> pd.new_name r = EmptyString).
    { intros r Hr Hf. pose proof (find_none _ _ E r Hr) as N. cbn in N.
      apply andb_false_iff in N. destruct N as [N|N].
      - apply String.eqb_neq in N. contradiction.
      - apply negb_false_iff, String.eqb_eq in N. exact N. }
    rewrite (B1 G), (B2 G). reflexivity.
Qed.

Section Gathered.

Variable env : Env.

Lemma files_loop_gathered (F SG : pd.DataFrame) (l : list string) (st st' : GroupState) :
  incl SG F ->
  for_each (file_body env F SG) l st = Ok st' ->
  (forall c, In c (columns st') <->
             In c (columns st) \/
             exists p df col, In p l /\ sample env p = Ok df /\
                              In col (polars.columns df) /\ renamed_to SG col c) /\
  (forall k, In k (dict.keys (cols_cat st')) ->
             In k (dict.keys (cols_cat st)) \/
             (flagged_dummy SG k /\
              exists p df, In p l /\ sample env p = Ok df /\ In k (polars.columns df))) /\
  (forall k, In k (dict.keys (columns_dtypes st')) <->
             In k (dict.keys (columns_dtypes st)) \/
             exists p df, In p l /\ sample env p = Ok df /\ In k (polars.columns df)).
Proof.
  intros Hincl. revert st. induction l as [|p l IH]; intros st H.
  - injection H as <-.
    split; [intros c; split; [auto|intros [H|[p [df [col [[] _]]]]]; exact H]|].
    split; [auto|].
    intros k; split; [auto|intros [H|[p [df [[] _]]]]; exact H].
  - simpl in H. inv_bind H as st1 Hstep.
    destruct (IH st1 H) as [IH1 [IH2 IH3]].
    destruct (file_body_ok env F SG p st st1 Hstep)
      as [df [schema [fs [entry [Hs [_ [Hloop [_ [_ [Hcols [Hcat Hdts]]]]]]]]]]].
    destruct (columns_loop_shape F SG df schema _ _ fs Hincl Hloop)
      as [_ [[targets [Ht Hren]] [Hck [Hdk _]]]].
    cbn [cols_to_incl file_init List.app] in Ht.
    assert (Htargets : forall c, In c targets <->
                                 exists col, In col (polars.columns df) /\ renamed_to SG col c).
    { intros c. clear -Hren. induction Hren as [|col t cols ts Hct _ IHr]; simpl.
      - split; [intros []|intros [col [[] _]]].
      - rewrite IHr. split.
        + intros [<-|[col' [Hin Hr]]]; [exists col; auto|exists col'; auto].
        + intros [col' [[<-|Hin] Hr]].
          * left. eapply renamed_to_functional; eassumption.
          * right. exists col'. auto. }
    split; [|split].
    + intros c. rewrite IH1, Hcols, in_app_iff, Ht, Htargets. split.
      * intros [[Hc|[col [Hcol Hr]]]|[q [dfq [col [Hq Hrest]]]]].
        -- left; exact Hc.
        -- right. exists p, df, col. split; [left; reflexivity|auto].
        -- right. exists q, dfq, col. split; [right; exact Hq|exact Hrest].
      * intros [Hc|[q [dfq [col [[<-|Hq] [Hsq [Hcol Hr]]]]]]].
        -- left; left; exact Hc.
        -- rewrite Hs in Hsq. injection Hsq as <-. left; right. exists col. auto.
        -- right. exists q, dfq, col. auto.
    + intros k Hk. destruct (IH2 k Hk) as [Hk1|[Hf [q [dfq [Hq Hrest]]]]].
      * rewrite Hcat in Hk1. apply in_keys_update in Hk1.
        destruct Hk1 as [Hk1|Hk1]; [left; exact Hk1|].
        destruct (Hck k Hk1) as [[]|[Hcol Hf]].
        right. split; [exact Hf|]. exists p, df. split; [left; reflexivity|auto].
      * right. split; [exact Hf|]. exists q, dfq. split; [right; exact Hq|exact Hrest].
    + intros k. rewrite IH3, Hdts, in_keys_update, Hdk.
      cbn [cols_dtypes file_init dict.keys dict.empty List.map]. split.
      * intros [[Hk|[[]|Hk]]|[q [dfq [Hq Hrest]]]].
        -- left; exact Hk.
        -- right. exists p, df. split; [left; reflexivity|auto].
        -- right. exists q, dfq. split; [right; exact Hq|exact Hrest].
      * intros [Hk|[q [dfq [[<-|Hq] [Hsq Hcol]]]]].
        -- left; left; exact Hk.
        -- rewrite Hs in Hsq. injection Hsq as <-. left; right; right. exact Hcol.
        -- right. exists q, dfq. auto.
Qed.

End Gathered.

Section RunFacts.

Variable env : Env.

(** The state of the loop over the file names behind each group of a
    completed run. *)
Lemma run_group {Blob : Type} (dump : DfsProps -> Blob)
  (dfs_props : dict.t (list string)) (version : string)
  (out : DfsProps) (file : string * Blob) :
  write_data_props env dump dfs_props version = Ok (out, file) ->
  exists F,
    read_features env (features_path env version) = Ok F /\
    forall name props, In (name, props) out ->
    exists st,
      for_each (file_body env F (of_group name F)) (SourceGroupProps.paths props)
        (group_init (SourceGroupProps.paths props)) = Ok st /\
      SourceGroupProps.structure props = structure_dict st /\
      SourceGroupProps.columns props = np.unique (columns st) /\
      SourceGroupProps.columns_cat props = cols_cat st /\
      SourceGroupProps.columns_dtypes props = columns_dtypes st.
Proof.
  intros H. apply write_data_props_ok in H. destruct H as [F [HF [Hall _]]].
  exists F. split; [exact HF|]. intros name props Hin.
  destruct (forall2_in_r _ _ _ _ Hall Hin) as [[name' fns] [_ [E Hg]]].
  cbn in E, Hg. subst name'.
  apply group_body_ok in Hg.
  destruct Hg as [st [Hst [Hpaths [Hstruct [Hcols [Hcat [Hdt _]]]]]]].
  exists st. rewrite Hpaths. repeat split; assumption.
Qed.

(** X10. The columns of a group in a completed run are in strictly
    ascending order, hence without duplicates, and they are the names
    the columns of the samples of the group's patterns are renamed to:
    those and no other. *)
Theorem columns_sorted_union {Blob : Type} (dump : DfsProps -> Blob)
  (dfs_props : dict.t (list string)) (version : string)
  (out : DfsProps) (file : string * Blob) :
  write_data_props env dump dfs_props version = Ok (out, file) ->
  exists F,
    read_features env (features_path env version) = Ok F /\
    forall name props, In (name, props) out ->
    StronglySorted str_lt (SourceGroupProps.columns props) /\
    NoDup (SourceGroupProps.columns props) /\
    forall c, In c (SourceGroupProps.columns props) <->
              exists p df col,
                In p (SourceGroupProps.paths props) /\
                sample env p = Ok df /\
                In col (polars.columns df) /\
                renamed_to (of_group name F) col c.
Proof.
  intros H. destruct (run_group dump dfs_props version out file H) as [F [HF Hg]].
  exists F. split; [exact HF|]. intros name props Hin.
  destruct (Hg name props Hin) as [st [Hst [_ [Hcols _]]]].
  rewrite Hcols. split; [apply np_unique_sorted|].
  split; [apply strictly_sorted_nodup; apply np_unique_sorted|].
  intros c. rewrite np_unique_in.
  destruct (files_loop_gathered env F _ _ _ st (of_group_incl name F) Hst) as [G _].
  rewrite G. cbn [columns group_init]. split; [intros [[]|E]; exact E|auto].
Qed.

(** X11. In a completed run the columns_map of a pattern is defined on
    the columns of the pattern's sample file, on those only, and none of
    its values is [None]. *)
Theorem columns_map_domain {Blob : Type} (dump : DfsProps -> Blob)
  (dfs_props : dict.t (list string)) (version : string)
  (out : DfsProps) (file : string * Blob) :
  write_data_props env dump dfs_props version = Ok (out, file) ->
  forall name props, In (name, props) out ->
  forall p, In p (SourceGroupProps.paths props) ->
  exists e df,
    dict.get p (SourceGroupProps.structure props) = Some e /\
    sample env p = Ok df /\
    (forall k, In k (dict.keys (StructureEntry.columns_map e)) <->
               In k (polars.columns df)) /\
    (forall k v, dict.get k (StructureEntry.columns_map e) = Some v -> v <> None).
Proof.
  intros H name props Hin p Hp.
  destruct (run_group dump dfs_props version out file H) as [F [HF Hg]].
  destruct (Hg name props Hin) as [st [Hst [Hstruct _]]].
  destruct (files_loop_inv env F (of_group name F) _ _ st Hst
              (group_init_paths _)) as [_ [Hproc _]].
  destruct (Hproc p Hp) as [e [df [schema [fs [He [Hs [_ [Hloop [_ Hmap]]]]]]]]].
  exists e, df. rewrite Hstruct, Hmap.
  split; [exact He|]. split; [exact Hs|].
  destruct (columns_loop_shape F _ df schema _ _ fs (of_group_incl name F) Hloop)
    as [Hkeys _].
  assert (Hdom : forall k, In k (dict.keys (mapping fs)) <-> In k (polars.columns df)).
  { intros k. rewrite Hkeys. cbn [mapping file_init].
    rewrite in_keys_comprehension. tauto. }
  split; [exact Hdom|].
  intros k v Hget.
  destruct (columns_loop_inv F _ df schema _ _ fs (of_group_incl name F) Hloop)
    as [_ [Hcols _]].
  apply get_some_key in Hget as Hk. apply Hdom in Hk.
  destruct (Hcols k Hk) as [[target [Ht _]] _]. congruence.
Qed.

(** X12. In a completed run a categorical domain is recorded only for a
    column that some sample of the group has and that the group's rows
    of the features table flag with agg = "dummy". *)
Theorem columns_cat_only_flagged {Blob : Type} (dump : DfsProps -> Blob)
  (dfs_props : dict.t (list string)) (version : string)
  (out : DfsProps) (file : string * Blob) :
  write_data_props env dump dfs_props version = Ok (out, file) ->
  exists F,
    read_features env (features_path env version) = Ok F /\
    forall name props, In (name, props) out ->
    forall k, In k (dict.keys (SourceGroupProps.columns_cat props)) ->
    flagged_dummy (of_group name F) k /\
    exists p df,
      In p (SourceGroupProps.paths props) /\ sample env p = Ok df /\
      In k (polars.columns df).
Proof.
  intros H. destruct (run_group dump dfs_props version out file H) as [F [HF Hg]].
  exists F. split; [exact HF|]. intros name props Hin k Hk.
  destruct (Hg name props Hin) as [st [Hst [_ [_ [Hcat _]]]]].
  rewrite Hcat in Hk.
  destruct (files_loop_gathered env F _ _ _ st (of_group_incl name F) Hst) as [_ [G _]].
  destruct (G k Hk) as [[]|E]. exact E.
Qed.

End RunFacts.

Lemma columns_sorted_union_witness :
  exists F,
    read_features Sample.env (features_path Sample.env "old") = Ok F /\
    forall name props, In (name, props) Sample.out ->
    StronglySorted str_lt (SourceGroupProps.columns props) /\
    NoDup (SourceGroupProps.columns props) /\
    forall c, In c (SourceGroupProps.columns props) <->
              exists p df col,
                In p (SourceGroupProps.paths props) /\
                sample Sample.env p = Ok df /\
                In col (polars.columns df) /\
                renamed_to (of_group name F) col c.
Proof.
  apply (columns_sorted_union Sample.env (fun x => x) Sample.dfs_props "old"
           Sample.out ("/features/dfs_props_old.pkl", Sample.out)).
  vm_compute. reflexivity.
Defined.

Lemma columns_map_domain_witness :
  write_data_props Sample.env (fun x => x) Sample.dfs_props "old"
  = Ok (Sample.out, ("/features/dfs_props_old.pkl", Sample.out)) /\
  forall name props, In (name, props) Sample.out ->
  forall p, In p (SourceGroupProps.paths props) ->
  exists e df,
    dict.get p (SourceGroupProps.structure props) = Some e /\
    sample Sample.env p = Ok df /\
    (forall k, In k (dict.keys (StructureEntry.columns_map e)) <->
               In k (polars.columns df)) /\
    (forall k v, dict.get k (StructureEntry.columns_map e) = Some v -> v <> None).
Proof.
  split; [vm_compute; reflexivity|].
  apply (columns_map_domain Sample.env (fun x => x) Sample.dfs_props "old"
           Sample.out ("/features/dfs_props_old.pkl", Sample.out)).
  vm_compute. reflexivity.
Defined.

Lemma columns_cat_only_flagged_witness :
  exists F,
    read_features Sample.env (features_path Sample.env "old") = Ok F /\
    forall name props, In (name, props) Sample.out ->
    forall k, In k (dict.keys (SourceGroupProps.columns_cat props)) ->
    flagged_dummy (of_group name F) k /\
    exists p df,
      In p (SourceGroupProps.paths props) /\ sample Sample.env p = Ok df /\
      In k (polars.columns df).
Proof.
  apply (columns_cat_only_flagged Sample.env (fun x => x) Sample.dfs_props "old"
           Sample.out ("/features/dfs_props_old.pkl", Sample.out)).
  vm_compute. reflexivity.
Defined.

Lemma columns_loop_dtypes_nodup (F SG : pd.DataFrame) (df : polars.DataFrame)
  (schema : Schema) (cols : list string) (fs0 fs : FileState) :
  incl SG F ->
  for_each (column_body F SG df schema) cols fs0 = Ok fs ->
  NoDup (dict.keys (cols_dtypes fs0)) -> NoDup (dict.keys (cols_dtypes fs)).
Proof.
  intros Hincl. revert fs0. induction cols as [|c cols IH]; intros fs0 H Hnd.
  - injection H as <-. exact Hnd.
  - simpl in H. inv_bind H as fs1 Hstep. apply (IH fs1 H).
    destruct (column_body_ok F SG df schema c fs0 fs1 Hincl Hstep)
      as [t [d [_ [_ [_ [_ [Hd _]]]]]]].
    rewrite Hd. apply set_keys_nodup. exact Hnd.
Qed.

Section Dtypes.

Variable env : Env.

Lemma dtypes_loop (F SG : pd.DataFrame) (l : list string) (st st' : GroupState)
  (p : string) (df : polars.DataFrame) (schema : Schema) (col : string)
  (dtype : pl.DataType) :
  incl SG F ->
  sample env p = Ok df ->
  set_dtypes (config env) (polars.schema df) = Ok schema ->
  In col (polars.columns df) ->
  dict.get col schema = Some dtype ->
  (forall p2 df2, In p2 l -> p2 <> p -> sample env p2 = Ok df2 ->
                  ~ In col (polars.columns df2)) ->
  for_each (file_body env F SG) l st = Ok st' ->
  In p l \/ dict.get col (columns_dtypes st) = Some dtype ->
  dict.get col (columns_dtypes st') = Some dtype.
Proof.
  intros Hincl Hs Hschema Hcol Hdt.
  revert st. induction l as [|q l IH]; intros st Hother H Hstart.
  - injection H as <-. destruct Hstart as [[]|E]. exact E.
  - simpl in H. inv_bind H as st1 Hstep.
    apply file_body_ok in Hstep.
    destruct Hstep as [dfq [sq [fs [entry [Hsq [Hschq [Hloop [_ [_ [_ [_ Hdts]]]]]]]]]]].
    destruct (columns_loop_shape F SG dfq sq _ _ fs Hincl Hloop)
      as [_ [_ [_ [Hkeys Hvals]]]].
    apply (IH st1); [intros p2 df2 Hp2; apply Hother; right; exact Hp2 | exact H |].
    destruct (string_dec q p) as [->|Hne].
    + right. rewrite Hs in Hsq. injection Hsq as <-.
      rewrite Hschema in Hschq. injection Hschq as <-.
      rewrite Hdts. apply get_update_in.
      * eapply columns_loop_dtypes_nodup; [exact Hincl|exact Hloop|constructor].
      * rewrite (Hvals col Hcol). exact Hdt.
    + destruct Hstart as [[E|Hin]|E]; [congruence | left; exact Hin |].
      right. rewrite Hdts. rewrite get_update_other; [exact E|].
      intros Hk. apply Hkeys in Hk. destruct Hk as [[]|Hk].
      apply (Hother q dfq (or_introl eq_refl) Hne Hsq Hk).
Qed.

(** X13. In a completed run columns_dtypes has an entry for the columns
    of the samples of the group's patterns and for nothing else; for a
    column that only one pattern of the group has, the dtype recorded is
    the one the schema stored for that pattern gives it. *)
Theorem columns_dtypes_agree {Blob : Type} (dump : DfsProps -> Blob)
  (dfs_props : dict.t (list string)) (version : string)
  (out : DfsProps) (file : string * Blob) :
  write_data_props env dump dfs_props version = Ok (out, file) ->
  forall name props, In (name, props) out ->
  (forall k, In k (dict.keys (SourceGroupProps.columns_dtypes props)) <->
             exists p df, In p (SourceGroupProps.paths props) /\
                          sample env p = Ok df /\ In k (polars.columns df)) /\
  (forall p, In p (SourceGroupProps.paths props) ->
     exists e df,
       dict.get p (SourceGroupProps.structure props) = Some e /\
       sample env p = Ok df /\
       forall col, In col (polars.columns df) ->
         (forall p2 df2, In p2 (SourceGroupProps.paths props) -> p2 <> p ->
                         sample env p2 = Ok df2 -> ~ In col (polars.columns df2)) ->
         exists dtype,
           dict.get col (StructureEntry.schema e) = Some dtype /\
           dict.get col (SourceGroupProps.columns_dtypes props) = Some dtype).
Proof.
  intros H name props Hin.
  destruct (run_group env dump dfs_props version out file H) as [F [HF Hg]].
  destruct (Hg name props Hin) as [st [Hst [Hstruct [_ [_ Hdt]]]]].
  rewrite Hdt, Hstruct. split.
  - intros k.
    destruct (files_loop_gathered env F _ _ _ st (of_group_incl name F) Hst)
      as [_ [_ G]].
    rewrite G. cbn [columns_dtypes group_init dict.keys dict.empty List.map].
    split; [intros [[]|E]; exact E|auto].
  - intros p Hp.
    destruct (files_loop_inv env F (of_group name F) _ _ st Hst
                (group_init_paths _)) as [_ [Hproc _]].
    destruct (Hproc p Hp) as [e [df [schema [fs [He [Hs [Hschema [Hloop [Hes _]]]]]]]]].
    exists e, df. split; [exact He|]. split; [exact Hs|].
    intros col Hcol Hother.
    destruct (columns_loop_inv F _ df schema _ _ fs (of_group_incl name F) Hloop)
      as [_ _].
    assert (Hd : exists dtype, dict.get col schema = Some dtype).
    { apply in_keys_get.
      assert (Hidx : forall c, In c (dict.keys (polars.schema df)) ->
                               indexable (config env) c).
      { intros c Hc. destruct (indexable_dec (config env) c) as [Hi|Hn]; [exact Hi|].
        rewrite set_dtypes_raises in Hschema; [discriminate|].
        apply Exists_exists. exists c. auto. }
      rewrite (set_dtypes_returns _ _ Hidx) in Hschema. injection Hschema as <-.
      unfold set_dtypes_run. rewrite loop_keys by auto.
      unfold dict.keys, polars.schema, polars.columns in *.
      rewrite map_map. exact Hcol. }
    destruct Hd as [dtype Hd]. exists dtype. rewrite Hes. split; [exact Hd|].
    eapply dtypes_loop; eauto. apply of_group_incl.
Qed.

End Dtypes.

Lemma columns_dtypes_agree_witness :
  write_data_props Sample.env (fun x => x) Sample.dfs_props "old"
  = Ok (Sample.out, ("/features/dfs_props_old.pkl", Sample.out)) /\
  forall name props, In (name, props) Sample.out ->
  (forall k, In k (dict.keys (SourceGroupProps.columns_dtypes props)) <->
             exists p df, In p (SourceGroupProps.paths props) /\
                          sample Sample.env p = Ok df /\ In k (polars.columns df)) /\
  (forall p, In p (SourceGroupProps.paths props) ->
     exists e df,
       dict.get p (SourceGroupProps.structure props) = Some e /\
       sample Sample.env p = Ok df /\
       forall col, In col (polars.columns df) ->
         (forall p2 df2, In p2 (SourceGroupProps.paths props) -> p2 <> p ->
                         sample Sample.env p2 = Ok df2 -> ~ In col (polars.columns df2)) ->
         exists dtype,
           dict.get col (StructureEntry.schema e) = Some dtype /\
           dict.get col (SourceGroupProps.columns_dtypes props) = Some dtype).
Proof.
  split; [vm_compute; reflexivity|].
  apply (columns_dtypes_agree Sample.env (fun x => x) Sample.dfs_props "old"
           Sample.out ("/features/dfs_props_old.pkl", Sample.out)).
  vm_compute. reflexivity.
Defined.

(** ** Runs that cannot complete *)

Lemma for_each_in_ok {A S : Type} (body : A -> S -> result S) (l : list A)
  (s s' : S) (a : A) :
  for_each body l s = Ok s' -> In a l -> exists s1 s2, body a s1 = Ok s2.
Proof.
  revert s. induction l as [|x l IH]; intros s H Hin; [contradiction|].
  simpl in H. inv_bind H as s1 Hstep.
  destruct Hin as [<-|Hin]; [eauto|]. eapply IH; eassumption.
Qed.

Lemma filter_length_count (F : pd.DataFrame) (col : string) :
  List.length (List.filter (fun r => String.eqb (pd.feature r) col) F)
  = count_occ string_dec (pd.index_values F) col.
Proof.
  induction F as [|r F IH]; simpl; [reflexivity|].
  destruct (string_dec (pd.feature r) col) as [E|E].
  - subst col. rewrite String.eqb_refl. simpl. rewrite IH. reflexivity.
  - apply String.eqb_neq in E. rewrite E. exact IH.
Qed.

Lemma loc_many (df : pd.DataFrame) (label : string) (field : pd.FeatureRow -> string) :
  (2 <= count_occ string_dec (pd.index_values df) label)%nat ->
  exists l, pd.loc df label field = Ok (pd.Series l).
Proof.
  rewrite <- filter_length_count. unfold pd.loc.
  destruct (List.filter (fun r => String.eqb (pd.feature r) label) df)
    as [|r [|r2 rs]]; simpl; intros H; try lia. eauto.
Qed.

Lemma loc_found (df : pd.DataFrame) (label : string) (field : pd.FeatureRow -> string) :
  In label (pd.index_values df) -> exists c, pd.loc df label field = Ok c.
Proof.
  intros Hin. unfold pd.loc.
  destruct (List.filter (fun r => String.eqb (pd.feature r) label) df)
    as [|r [|r2 rs]] eqn:E; eauto.
  exfalso. unfold pd.index_values in Hin. apply in_map_iff in Hin.
  destruct Hin as [r [Hf Hr]].
  assert (G : In r (List.filter (fun r => String.eqb (pd.feature r) label) df)).
  { apply filter_In. split; [exact Hr|]. apply String.eqb_eq. exact Hf. }
  rewrite E in G. contradiction.
Qed.

Lemma shared_feature_body (F SG : pd.DataFrame) (df : polars.DataFrame)
  (schema : Schema) (col : string) (fs : FileState) :
  In col (pd.index_values SG) ->
  (2 <= count_occ string_dec (pd.index_values F) col)%nat ->
  column_body F SG df schema col fs = Raise ValueError.
Proof.
  intros Hin Hcount. unfold column_body.
  assert (E : str_in col (pd.index_values SG) = true) by (apply str_in_true; exact Hin).
  rewrite E.
  destruct (loc_found SG col pd.new_name Hin) as [c ->]. cbn [bind].
  destruct c as [s|l]; [|reflexivity].
  cbn [pd.if_else].
  destruct (loc_many F col pd.agg Hcount) as [l Hl].
  destruct (String.eqb s EmptyString); cbn [bind]; rewrite Hl; reflexivity.
Qed.

Section Failing.

Variable env : Env.

Lemma run_fails_at {Blob : Type} (dump : DfsProps -> Blob)
  (dfs_props : dict.t (list string)) (version name p : string)
  (file_names : list string) :
  (forall F st st',
      read_features env (features_path env version) = Ok F ->
      file_body env F (of_group name F) p st <> Ok st') ->
  In (name, file_names) dfs_props -> In p file_names ->
  exists e, write_data_props env dump dfs_props version = Raise e.
Proof.
  intros Hfail Hin Hp.
  destruct (write_data_props env dump dfs_props version) as [[out file]|e] eqn:E;
    [|eauto].
  exfalso. apply write_data_props_ok in E. destruct E as [F [HF [Hall _]]].
  destruct (forall2_in_l _ _ _ _ Hall Hin) as [[name' props] [_ [_ Hg]]].
  cbn in Hg. apply group_body_ok in Hg. destruct Hg as [st [Hst _]].
  apply in_split in Hp. destruct Hp as [l1 [l2 ->]].
  rewrite for_each_app in Hst. inv_bind Hst as s1 Hs1.
  simpl in Hst. inv_bind Hst as s2 Hs2.
  exact (Hfail F s1 s2 HF Hs2).
Qed.

(** X14. A feature name that is on two rows of the features table makes
    the run fail as soon as a sample of a group that lists the feature has
    a column of that name: the lookup in the table gives a series, whose
    truth value is a [ValueError].  The loop body raises it, and a run
    over such a group never completes. *)
Theorem shared_feature_raises (F : pd.DataFrame) (name col : string) :
  In col (pd.index_values (of_group name F)) ->
  (2 <= count_occ string_dec (pd.index_values F) col)%nat ->
  (forall df schema fs,
      column_body F (of_group name F) df schema col fs = Raise ValueError) /\
  (forall (Blob : Type) (dump : DfsProps -> Blob) dfs_props version file_names p df,
      read_features env (features_path env version) = Ok F ->
      In (name, file_names) dfs_props -> In p file_names ->
      sample env p = Ok df -> In col (polars.columns df) ->
      exists e, write_data_props env dump dfs_props version = Raise e).
Proof.
  intros Hin Hcount.
  assert (Hbody : forall df schema fs,
             column_body F (of_group name F) df schema col fs = Raise ValueError)
    by (intros; apply shared_feature_body; assumption).
  split; [exact Hbody|].
  intros Blob dump dfs_props version file_names p df HF Hg Hp Hs Hcol.
  apply (run_fails_at dump dfs_props version name p file_names); [|exact Hg|exact Hp].
  intros F' st st' HF' Hok. rewrite HF in HF'. injection HF' as <-.
  apply file_body_ok in Hok.
  destruct Hok as [df' [schema [fs [_ [Hs' [_ [Hloop _]]]]]]].
  rewrite Hs in Hs'. injection Hs' as <-.
  destruct (for_each_in_ok _ _ _ _ col Hloop Hcol) as [s1 [s2 Hstep]].
  rewrite Hbody in Hstep. discriminate.
Qed.

(** X15. The test paths of a pattern are sorted although they are not
    used: when they cannot be sorted the pattern is not processed, the
    run never completes, and once the train sample is read and normalised
    the exception is the [ValueError] of [sort_paths]. *)
Theorem test_paths_must_sort (p : string) (e : exn) :
  sort_paths (glob env (gen_file_path (config env) p "test")) = Raise e ->
  e = ValueError /\
  (forall F SG st st', file_body env F SG p st <> Ok st') /\
  (forall F SG st path0 rest df schema entry,
      sort_paths (glob env (gen_file_path (config env) p "train")) = Ok (path0 :: rest) ->
      read_parquet env path0 = Ok df ->
      set_dtypes (config env) (polars.schema df) = Ok schema ->
      dict.get p (structure_dict st) = Some entry ->
      file_body env F SG p st = Raise ValueError) /\
  (forall (Blob : Type) (dump : DfsProps -> Blob) dfs_props version name file_names,
      In (name, file_names) dfs_props -> In p file_names ->
      exists e', write_data_props env dump dfs_props version = Raise e').
Proof.
  intros Htest.
  assert (He : e = ValueError) by (apply sort_paths_raise_inv in Htest; tauto).
  subst e.
  assert (Hno : forall F SG st st', file_body env F SG p st <> Ok st').
  { intros F SG st st' Hok. unfold file_body in Hok. inv_bind Hok as r Hmodes.
    apply mode_loop_ok in Hmodes.
    destruct Hmodes as [? [? [? [? [? [tp [_ [_ [_ [_ [Hsort _]]]]]]]]]]].
    rewrite Htest in Hsort. discriminate. }
  split; [reflexivity|]. split; [exact Hno|]. split.
  - intros F SG st path0 rest df schema entry Hsort Hread Hschema Hentry.
    unfold file_body. cbn [for_each]. unfold mode_body at 1. rewrite Hsort.
    cbn [bind String.eqb Ascii.eqb Bool.eqb py.item0]. rewrite Hread. cbn [bind].
    rewrite Hschema. cbn [bind fst]. unfold dict.getitem at 1. rewrite Hentry.
    cbn [bind]. unfold mode_body at 1. rewrite Htest. reflexivity.
  - intros Blob dump dfs_props version name file_names Hg Hp.
    apply (run_fails_at dump dfs_props version name p file_names); auto.
Qed.

End Failing.

Lemma shared_feature_raises_witness :
  (forall df schema fs,
      column_body Sample.features_shared (of_group "applprev" Sample.features_shared)
        df schema "credtype_587L" fs = Raise ValueError) /\
  exists e,
    write_data_props Sample.env_shared (fun x => x) Sample.dfs_props "old" = Raise e.
Proof.
  destruct (shared_feature_raises Sample.env_shared Sample.features_shared
              "applprev" "credtype_587L") as [H1 H2].
  - left. reflexivity.
  - vm_compute. repeat constructor.
  - split; [exact H1|].
    apply (H2 DfsProps (fun x => x) Sample.dfs_props "old"
              ["applprev_1_*"; "applprev_2"] "applprev_1_*" Sample.applprev_1_0).
    + reflexivity.
    + left. reflexivity.
    + left. reflexivity.
    + vm_compute. reflexivity.
    + right. right. left. reflexivity.
Defined.

Lemma test_paths_must_sort_witness :
  (forall F SG st st',
      file_body Sample.env_unsortable F SG "applprev_1_*" st <> Ok st') /\
  exists e,
    write_data_props Sample.env_unsortable (fun x => x) Sample.dfs_props "old" = Raise e.
Proof.
  destruct (test_paths_must_sort Sample.env_unsortable "applprev_1_*" ValueError)
    as [_ [H1 [_ H2]]].
  - vm_compute. reflexivity.
  - split; [exact H1|].
    apply (H2 DfsProps (fun x => x) Sample.dfs_props "old" "applprev"
              ["applprev_1_*"; "applprev_2"]).
    + left. reflexivity.
    + left. reflexivity.
Defined.

Lemma columns_cat_final_witness :
  exists F,
    read_features Sample.env (features_path Sample.env "old") = Ok F /\
    forall name props, In (name, props) Sample.out ->
    forall p, In p (SourceGroupProps.paths props) ->
    exists df,
      sample Sample.env p = Ok df /\
      forall col, In col (polars.columns df) ->
                  flagged_dummy (of_group name F) col ->
                  (forall p2 df2, In p2 (SourceGroupProps.paths props) -> p2 <> p ->
                                  sample Sample.env p2 = Ok df2 ->
                                  ~ In col (polars.columns df2)) ->
      exists series vals,
        polars.getitem df col = Ok series /\
        dict.get col (SourceGroupProps.columns_cat props) = Some vals /\
        domain_of series vals.
Proof.
  apply (columns_cat_final Sample.env (fun x => x) Sample.dfs_props "old"
           Sample.out ("/features/dfs_props_old.pkl", Sample.out)).
  vm_compute. reflexivity.
Defined.

Lemma sample_processable (p : string) :
  In p ["applprev_1_*"; "applprev_2"; "base"] -> processable Sample.env p.
Proof.
  intros [<-|[<-|[<-|[]]]]; unfold processable.
  - exists "/data/parquet_files/train/train_applprev_1_0.parquet",
      ["/data/parquet_files/train/train_applprev_1_1.parquet"],
      Sample.applprev_1_0,
      ["/data/parquet_files/test/test_applprev_1_0.parquet"].
    repeat split; try (vm_compute; reflexivity).
    intros col Hc. right. right. intros ->. simpl in Hc. intuition discriminate.
  - exists "/data/parquet_files/train/train_applprev_2.parquet", [],
      Sample.applprev_2, [].
    repeat split; try (vm_compute; reflexivity).
    intros col Hc. right. right. intros ->. simpl in Hc. intuition discriminate.
  - exists "/data/parquet_files/train/train_base.parquet", [],
      Sample.base, ["/data/parquet_files/test/test_base.parquet"].
    repeat split; try (vm_compute; reflexivity).
    intros col Hc. right. right. intros ->. simpl in Hc. intuition discriminate.
Defined.

Lemma write_data_props_returns_witness :
  exists out,
    write_data_props Sample.env (fun x => x) Sample.dfs_props "old"
    = Ok (out, (pickle_path Sample.env "old", out)).
Proof.
  apply (write_data_props_returns Sample.env (fun x => x) Sample.dfs_props "old"
           Sample.features).
  - reflexivity.
  - vm_compute. repeat constructor; simpl; intuition discriminate.
  - intros name file_names p Hg Hp. apply sample_processable.
    destruct Hg as [E|[E|[]]]; injection E as <- <-; simpl in Hp; simpl; tauto.
Defined.

(** ** The file system *)

Lemma prefix_iff (p q : os.path) :
  os.is_prefix p q = true <-> exists r, q = p ++ r.
Proof.
  revert q. induction p as [|a p IH]; intros q; simpl.
  - split; [intros _; exists q; reflexivity|reflexivity].
  - destruct q as [|b q].
    + split; [discriminate|intros [r H]; discriminate].
    + rewrite andb_true_iff, String.eqb_eq, IH. split.
      * intros [-> [r ->]]. exists r. reflexivity.
      * intros [r H]. injection H as -> ->. split; [reflexivity|exists r; reflexivity].
Qed.

Lemma prefix_refl (p : os.path) : os.is_prefix p p = true.
Proof. apply prefix_iff. exists []. symmetry. apply app_nil_r. Qed.

Lemma prefix_trans (p q r : os.path) :
  os.is_prefix p q = true -> os.is_prefix q r = true -> os.is_prefix p r = true.
Proof.
  rewrite !prefix_iff. intros [a ->] [b ->]. exists (a ++ b). symmetry. apply app_assoc.
Qed.

Lemma path_eqb_eq (p q : os.path) : os.path_eqb p q = true <-> p = q.
Proof.
  unfold os.path_eqb. rewrite andb_true_iff, !prefix_iff. split.
  - intros [[r ->] [r' H]]. rewrite <- app_assoc in H.
    rewrite <- (app_nil_r p) in H at 1. apply app_inv_head in H.
    symmetry in H. apply app_eq_nil in H. destruct H as [-> _].
    symmetry. apply app_nil_r.
  - intros ->. split; exists []; symmetry; apply app_nil_r.
Qed.

Lemma path_eqb_neq (p q : os.path) : os.path_eqb p q = false <-> p <> q.
Proof.
  split.
  - intros H E. apply path_eqb_eq in E. congruence.
  - intros H. destruct (os.path_eqb p q) eqn:E; [|reflexivity].
    apply path_eqb_eq in E. contradiction.
Qed.

Lemma prefix_snoc (q p : os.path) (c : string) :
  os.is_prefix q (p ++ [c]) = true <-> q = p ++ [c] \/ os.is_prefix q p = true.
Proof.
  rewrite !prefix_iff. split.
  - intros [r H]. destruct (list_eq_dec string_dec r []) as [->|Hr];
      [|destruct (exists_last Hr) as [r' [x ->]]].
    + left. rewrite app_nil_r in H. symmetry. exact H.
    + right. rewrite app_assoc in H. apply app_inj_tail in H.
      destruct H as [H _]. exists r'. exact H.
  - intros [->|[r ->]].
    + exists []. symmetry. apply app_nil_r.
    + exists (r ++ [c]). symmetry. apply app_assoc.
Qed.

Lemma prefix_nil (q : os.path) : os.is_prefix q [] = true <-> q = [].
Proof. destruct q; simpl; split; intros H; congruence. Qed.

Lemma prefix_self_snoc (p : os.path) (c : string) :
  os.is_prefix (p ++ [c]) p = false.
Proof.
  destruct (os.is_prefix (p ++ [c]) p) eqn:E; [|reflexivity].
  apply prefix_iff in E. destruct E as [r H].
  rewrite <- app_assoc in H. rewrite <- (app_nil_r p) in H at 1.
  apply app_inv_head in H. discriminate.
Qed.

Lemma lookup_put (t : os.tree) (p q : os.path) (n : os.node) :
  p <> [] ->
  os.lookup (os.put t p n) q = if os.path_eqb p q then Some n else os.lookup t q.
Proof.
  intros Hp. destruct q as [|b q].
  - simpl. destruct (os.path_eqb p []) eqn:E; [|reflexivity].
    apply path_eqb_eq in E. contradiction.
  - reflexivity.
Qed.

(** In a well-formed file system the ancestors of what exists are
    directories, and nothing exists below what does not exist. *)
Lemma wf_ancestors (t : os.tree) (p : os.path) :
  well_formed_tree t -> os.lookup t p <> None ->
  forall q, os.is_prefix q p = true -> q <> p -> os.lookup t q = Some os.Dir.
Proof.
  intros Hwf. induction p as [|c p IH] using rev_ind; intros Hp q Hq Hne.
  - apply prefix_nil in Hq. contradiction.
  - apply prefix_snoc in Hq. destruct Hq as [->|Hq]; [contradiction|].
    assert (Hpar : os.lookup t p = Some os.Dir).
    { apply (Hwf p c). destruct (p ++ [c]) eqn:E; [|exact Hp].
      apply app_eq_nil in E. destruct E as [_ E]. discriminate. }
    destruct (list_eq_dec string_dec q p) as [->|Hqp]; [exact Hpar|].
    apply IH; [rewrite Hpar; discriminate|exact Hq|exact Hqp].
Qed.

Lemma wf_below (t : os.tree) (p q : os.path) :
  well_formed_tree t -> os.lookup t p = None ->
  os.is_prefix p q = true -> os.lookup t q = None.
Proof.
  intros Hwf Hp Hq.
  destruct (os.lookup t q) as [n|] eqn:E; [|reflexivity].
  destruct (list_eq_dec string_dec p q) as [->|Hne]; [congruence|].
  rewrite (wf_ancestors t q Hwf) in Hp; [discriminate| |exact Hq|exact Hne].
  rewrite E. discriminate.
Qed.

Lemma wf_of_lookup (t t' : os.tree) (p : os.path) :
  well_formed_tree t ->
  (forall q, os.lookup t' q
             = if os.is_prefix q p then Some os.Dir else os.lookup t q) ->
  well_formed_tree t'.
Proof.
  intros Hwf Hspec q c Hq.
  assert (Hne : q ++ [c] <> []) by (intros E; apply app_eq_nil in E; destruct E; discriminate).
  assert (Hl : os.lookup t' (q ++ [c]) = t' (q ++ [c])).
  { destruct (q ++ [c]); [congruence|reflexivity]. }
  rewrite Hspec.
  destruct (os.is_prefix q p) eqn:E; [reflexivity|].
  rewrite <- Hl, Hspec in Hq.
  destruct (os.is_prefix (q ++ [c]) p) eqn:E2.
  - assert (G : os.is_prefix q p = true).
    { eapply prefix_trans; [|exact E2]. apply prefix_iff. exists [c]. reflexivity. }
    congruence.
  - apply (Hwf q c). destruct (q ++ [c]) eqn:E3; [congruence|]. exact Hq.
Qed.

Lemma lookup_snoc (t : os.tree) (p : os.path) (c : string) :
  os.lookup t (p ++ [c]) = t (p ++ [c]).
Proof.
  destruct (p ++ [c]) eqn:E; [|reflexivity].
  apply app_eq_nil in E. destruct E as [_ E]. discriminate.
Qed.

Lemma makedirs_snoc (t : os.tree) (p : os.path) (c : string) :
  os.makedirs t (p ++ [c])
  = (t1 <- (if negb (os.path_exists t p) then os.makedirs t p else Ok t) ;;
     match os.mkdir t1 (p ++ [c]) with
     | Ok t2 => Ok t2
     | Raise e => if os.path_isdir t1 (p ++ [c]) then Ok t1 else Raise e
     end).
Proof.
  unfold os.makedirs. rewrite rev_app_distr. cbn [List.rev List.app os.makedirs_up].
  rewrite rev_involutive. reflexivity.
Qed.

(** [os.makedirs] when no regular file is in the way. *)
Lemma makedirs_spec (t : os.tree) (p : os.path) :
  well_formed_tree t -> no_file_on t p ->
  exists t',
    os.makedirs t p = Ok t' /\
    forall q, os.lookup t' q
              = if os.is_prefix q p then Some os.Dir else os.lookup t q.
Proof.
  intros Hwf. induction p as [|c p IH] using rev_ind; intros Hno.
  - exists t. split; [reflexivity|]. intros q.
    destruct (os.is_prefix q []) eqn:E; [|reflexivity].
    apply prefix_nil in E. subst. reflexivity.
  - assert (Hno' : no_file_on t p).
    { intros q Hq. apply Hno. apply prefix_snoc. right. exact Hq. }
    assert (Hput : forall t1,
               (forall q, os.lookup t1 q
                          = if os.is_prefix q p then Some os.Dir else os.lookup t q) ->
               os.lookup t (p ++ [c]) = None ->
               exists t',
                 (match os.mkdir t1 (p ++ [c]) with
                  | Ok t2 => Ok t2
                  | Raise e => if os.path_isdir t1 (p ++ [c]) then Ok t1 else Raise e
                  end) = Ok t' /\
                 forall q, os.lookup t' q
                           = if os.is_prefix q (p ++ [c]) then Some os.Dir
                             else os.lookup t q).
    { intros t1 H1 Hfree. exists (os.put t1 (p ++ [c]) os.Dir).
      unfold os.mkdir. rewrite H1, prefix_self_snoc, Hfree.
      rewrite removelast_last, H1, prefix_refl. split; [reflexivity|].
      intros q. rewrite lookup_put
        by (intros E; apply app_eq_nil in E; destruct E; discriminate).
      destruct (os.path_eqb (p ++ [c]) q) eqn:E.
      - apply path_eqb_eq in E. subst q. rewrite prefix_refl. reflexivity.
      - apply path_eqb_neq in E. rewrite H1.
        destruct (os.is_prefix q p) eqn:E1.
        + assert (G : os.is_prefix q (p ++ [c]) = true) by (apply prefix_snoc; auto).
          rewrite G. reflexivity.
        + destruct (os.is_prefix q (p ++ [c])) eqn:E2; [|reflexivity].
          apply prefix_snoc in E2. destruct E2 as [->|E2]; congruence. }
    rewrite makedirs_snoc. unfold os.path_exists.
    destruct (os.lookup t p) as [n|] eqn:Ep; cbn [negb bind].
    + (* the parent exists: it is a directory *)
      assert (En : n = os.Dir).
      { destruct n; [|reflexivity]. exfalso. apply (Hno' p (prefix_refl p)). exact Ep. }
      subst n.
      assert (Hanc : forall q, os.is_prefix q p = true -> os.lookup t q = Some os.Dir).
      { intros q Hq. destruct (list_eq_dec string_dec q p) as [->|Hne]; [exact Ep|].
        apply (wf_ancestors t p Hwf); [rewrite Ep; discriminate|exact Hq|exact Hne]. }
      assert (Hsame : forall q, os.lookup t q
                                = if os.is_prefix q p then Some os.Dir else os.lookup t q).
      { intros q. destruct (os.is_prefix q p) eqn:E; [apply Hanc; exact E|reflexivity]. }
      destruct (os.lookup t (p ++ [c])) as [m|] eqn:El.
      * assert (Em : m = os.Dir).
        { destruct m; [|reflexivity]. exfalso.
          apply (Hno (p ++ [c]) (prefix_refl _)). exact El. }
        subst m. exists t. unfold os.mkdir, os.path_isdir. rewrite El.
        split; [reflexivity|]. intros q.
        destruct (os.is_prefix q (p ++ [c])) eqn:E; [|reflexivity].
        apply prefix_snoc in E. destruct E as [->|E]; [exact El|apply Hanc; exact E].
      * apply (Hput t Hsame eq_refl).
    + (* the parent does not exist: it is made first *)
      destruct (IH Hno') as [t1 [E1 H1]]. rewrite E1. cbn [bind].
      apply (Hput t1 H1).
      apply (wf_below t p (p ++ [c]) Hwf Ep).
      apply prefix_iff. exists [c]. reflexivity.
Qed.

(** [os.makedirs] with a regular file in the way. *)
Lemma makedirs_raise (t : os.tree) (p : os.path) :
  well_formed_tree t ->
  (exists q, os.is_prefix q p = true /\ os.lookup t q = Some os.File) ->
  os.makedirs t p = Raise OSError.
Proof.
  intros Hwf. induction p as [|c p IH] using rev_ind; intros [q [Hq Hfile]].
  - apply prefix_nil in Hq. subst. discriminate.
  - rewrite makedirs_snoc. unfold os.path_exists.
    apply prefix_snoc in Hq. destruct Hq as [->|Hq].
    + (* the leaf is a file *)
      assert (Hpar : os.lookup t p = Some os.Dir).
      { apply (Hwf p c). rewrite <- lookup_snoc, Hfile. discriminate. }
      rewrite Hpar. cbn [negb bind]. unfold os.mkdir, os.path_isdir.
      rewrite Hfile. reflexivity.
    + destruct (os.lookup t p) as [n|] eqn:Ep; cbn [negb bind].
      * (* the parent exists: it is the file *)
        assert (E : q = p).
        { destruct (list_eq_dec string_dec q p) as [E|Hne]; [exact E|].
          rewrite (wf_ancestors t p Hwf) in Hfile;
            [discriminate|rewrite Ep; discriminate|exact Hq|exact Hne]. }
        subst q. rewrite Hfile in Ep. injection Ep as <-.
        assert (Hfree : os.lookup t (p ++ [c]) = None).
        { destruct (os.lookup t (p ++ [c])) eqn:El; [|reflexivity].
          rewrite lookup_snoc in El.
          rewrite (Hwf p c) in Hfile; [discriminate|rewrite El; discriminate]. }
        unfold os.mkdir, os.path_isdir. rewrite Hfree, removelast_last, Hfile.
        reflexivity.
      * rewrite IH; [reflexivity|]. exists q. auto.
Qed.

Lemma file_on_dec (t : os.tree) (p : os.path) :
  no_file_on t p \/ exists q, os.is_prefix q p = true /\ os.lookup t q = Some os.File.
Proof.
  induction p as [|c p IH] using rev_ind.
  - left. intros q Hq. apply prefix_nil in Hq. subst. discriminate.
  - destruct IH as [IH|[q [Hq Hf]]].
    + destruct (os.lookup t (p ++ [c])) as [[|]|] eqn:E.
      * right. exists (p ++ [c]). split; [apply prefix_refl|exact E].
      * left. intros q Hq. apply prefix_snoc in Hq.
        destruct Hq as [->|Hq]; [rewrite E; discriminate|apply IH; exact Hq].
      * left. intros q Hq. apply prefix_snoc in Hq.
        destruct Hq as [->|Hq]; [rewrite E; discriminate|apply IH; exact Hq].
    + right. exists q. split; [apply prefix_snoc; auto|exact Hf].
Qed.

(** [shutil.rmtree] on a directory. *)
Lemma rmtree_spec (t t1 : os.tree) (p : os.path) :
  well_formed_tree t ->
  shutil.rmtree t p = Ok t1 ->
  p <> [] /\ os.lookup t p = Some os.Dir /\
  (forall q, os.lookup t1 q = if os.is_prefix p q then None else os.lookup t q) /\
  well_formed_tree t1 /\ no_file_on t1 p.
Proof.
  intros Hwf H. unfold shutil.rmtree in H.
  destruct p as [|a p]; [discriminate|].
  destruct (t (a :: p)) as [[|]|] eqn:E; try discriminate.
  injection H as <-.
  assert (Hspec : forall q,
             os.lookup (fun q0 => if os.is_prefix (a :: p) q0 then None else t q0) q
             = if os.is_prefix (a :: p) q then None else os.lookup t q).
  { intros [|b q]; reflexivity. }
  split; [discriminate|]. split; [exact E|]. split; [exact Hspec|]. split.
  - intros q c Hq. rewrite Hspec.
    assert (Hq' : (if os.is_prefix (a :: p) (q ++ [c]) then None else t (q ++ [c]))
                  <> None) by exact Hq.
    clear Hq.
    destruct (os.is_prefix (a :: p) (q ++ [c])) eqn:E1; [congruence|].
    destruct (os.is_prefix (a :: p) q) eqn:E2.
    + assert (G : os.is_prefix (a :: p) (q ++ [c]) = true).
      { eapply prefix_trans; [exact E2|]. apply prefix_iff. exists [c]. reflexivity. }
      congruence.
    + apply (Hwf q c). exact Hq'.
  - intros q Hq. rewrite Hspec.
    destruct (os.is_prefix (a :: p) q) eqn:E1; [discriminate|].
    assert (Hne : q <> a :: p) by (intros ->; rewrite prefix_refl in E1; discriminate).
    rewrite (wf_ancestors t (a :: p) Hwf); [discriminate| |exact Hq|exact Hne].
    simpl. rewrite E. discriminate.
Qed.

Lemma makedirs_existing (t : os.tree) (p : os.path) :
  (forall q, os.is_prefix q p = true -> os.lookup t q = Some os.Dir) ->
  os.makedirs t p = Ok t.
Proof.
  intros H. destruct (list_eq_dec string_dec p []) as [->|Hp]; [reflexivity|].
  destruct (exists_last Hp) as [p0 [c ->]].
  rewrite makedirs_snoc. unfold os.path_exists.
  rewrite (H p0) by (apply prefix_snoc; right; apply prefix_refl).
  cbn [negb bind]. unfold os.mkdir, os.path_isdir.
  rewrite (H (p0 ++ [c]) (prefix_refl _)). reflexivity.
Qed.

Lemma file_below_free (t : os.tree) (p q : os.path) :
  well_formed_tree t ->
  os.is_prefix q p = true -> q <> p -> os.lookup t q = Some os.File ->
  os.lookup t p = None.
Proof.
  intros Hwf Hq Hne Hf. destruct (os.lookup t p) eqn:E; [|reflexivity].
  rewrite (wf_ancestors t p Hwf) in Hf;
    [discriminate|rewrite E; discriminate|exact Hq|exact Hne].
Qed.

Lemma create_folder_ok_no_file (t t' : os.tree) (p : os.path) (rm : bool) :
  well_formed_tree t -> create_folder t p rm = Ok t' -> no_file_on t p.
Proof.
  intros Hwf H. destruct (file_on_dec t p) as [Hno|[q [Hq Hf]]]; [exact Hno|].
  exfalso. unfold create_folder in H.
  assert (Hmk : os.makedirs t p = Raise OSError).
  { apply makedirs_raise; [exact Hwf|]. exists q. auto. }
  destruct rm; cbn [bind] in H; [|rewrite Hmk in H; discriminate].
  unfold os.path_exists in H.
  destruct (list_eq_dec string_dec q p) as [->|Hne].
  - rewrite Hf in H. unfold shutil.rmtree in H.
    destruct p as [|a p]; [discriminate|]. cbn [os.lookup] in Hf.
    rewrite Hf in H. discriminate.
  - rewrite (file_below_free t p q Hwf Hq Hne Hf) in H. cbn [bind] in H.
    rewrite Hmk in H. discriminate.
Qed.

(** ** create_folder *)

Lemma create_folder_rm_spec (t : os.tree) (p : os.path) :
  well_formed_tree t -> p <> [] -> no_file_on t p ->
  exists t',
    create_folder t p true = Ok t' /\
    well_formed_tree t' /\
    forall q, os.lookup t' q
              = if os.is_prefix q p then Some os.Dir
                else if os.is_prefix p q then None
                     else os.lookup t q.
Proof.
  intros Hwf Hp Hno. unfold create_folder, os.path_exists.
  destruct (os.lookup t p) as [n|] eqn:Ep.
  - destruct (shutil.rmtree t p) as [t1|e] eqn:Er.
    + destruct (rmtree_spec t t1 p Hwf Er) as [_ [_ [H1 [Hwf1 Hno1]]]].
      cbn [bind].
      destruct (makedirs_spec t1 p Hwf1 Hno1) as [t' [Em H']].
      exists t'. split; [exact Em|]. split.
      * apply (wf_of_lookup t1 t' p Hwf1 H').
      * intros q. rewrite H', H1. reflexivity.
    + exfalso. unfold shutil.rmtree in Er.
      destruct p as [|a p]; [congruence|]. cbn [os.lookup] in Ep.
      rewrite Ep in Er. destruct n; [|discriminate].
      apply (Hno (a :: p) (prefix_refl _)). exact Ep.
  - cbn [bind]. destruct (makedirs_spec t p Hwf Hno) as [t' [Em H']].
    exists t'. split; [exact Em|]. split.
    + apply (wf_of_lookup t t' p Hwf H').
    + intros q. rewrite H'.
      destruct (os.is_prefix q p); [reflexivity|].
      destruct (os.is_prefix p q) eqn:E; [|reflexivity].
      apply (wf_below t p q Hwf Ep E).
Qed.

(** X16. [create_folder(path, rm=True)], when no regular file stands at
    the path or at one of its ancestors, succeeds and leaves the path as
    an empty directory: the path and its ancestors are directories,
    nothing is left below the path, and every path that is neither above
    nor below it is as it was.  The file system stays well formed. *)
Theorem create_folder_rm_empties (t : os.tree) (p : os.path) :
  well_formed_tree t -> p <> [] -> no_file_on t p ->
  exists t',
    create_folder t p true = Ok t' /\
    well_formed_tree t' /\
    (forall q, os.is_prefix q p = true -> os.lookup t' q = Some os.Dir) /\
    (forall q, os.is_prefix p q = true -> q <> p -> os.lookup t' q = None) /\
    (forall q, os.is_prefix q p = false -> os.is_prefix p q = false ->
               os.lookup t' q = os.lookup t q).
Proof.
  intros Hwf Hp Hno.
  destruct (create_folder_rm_spec t p Hwf Hp Hno) as [t' [E [Hwf' H']]].
  exists t'. split; [exact E|]. split; [exact Hwf'|]. split; [|split].
  - intros q Hq. rewrite H', Hq. reflexivity.
  - intros q Hq Hne. rewrite H', Hq.
    destruct (os.is_prefix q p) eqn:E1; [|reflexivity].
    exfalso. apply Hne. apply path_eqb_eq. unfold os.path_eqb.
    rewrite E1, Hq. reflexivity.
  - intros q H1 H2. rewrite H', H1, H2. reflexivity.
Qed.

(** X17. [create_folder(path)] (rm left False), when no regular file
    stands at the path or at one of its ancestors, succeeds, makes the
    path and its ancestors directories and changes nothing else: whatever
    existed before is still there, unchanged. *)
Theorem create_folder_keeps (t : os.tree) (p : os.path) :
  well_formed_tree t -> no_file_on t p ->
  exists t',
    create_folder t p false = Ok t' /\
    well_formed_tree t' /\
    (forall q, os.is_prefix q p = true -> os.lookup t' q = Some os.Dir) /\
    (forall q, os.is_prefix q p = false -> os.lookup t' q = os.lookup t q) /\
    (forall q n, os.lookup t q = Some n -> os.lookup t' q = Some n).
Proof.
  intros Hwf Hno. unfold create_folder. cbn [bind].
  destruct (makedirs_spec t p Hwf Hno) as [t' [Em H']].
  exists t'. split; [exact Em|]. split; [apply (wf_of_lookup t t' p Hwf H')|].
  split; [|split].
  - intros q Hq. rewrite H', Hq. reflexivity.
  - intros q Hq. rewrite H', Hq. reflexivity.
  - intros q n Hn. rewrite H'.
    destruct (os.is_prefix q p) eqn:Hq; [|exact Hn].
    destruct n; [|reflexivity]. exfalso. apply (Hno q Hq). exact Hn.
Qed.

(** X18. On a well-formed file system, [create_folder] fails exactly
    when a regular file stands at the path or at one of its ancestors,
    whatever [rm] is; the error is an OSError, and [rm=True] does not
    remove the file. *)
Theorem create_folder_raises_iff (t : os.tree) (p : os.path) (rm : bool) :
  well_formed_tree t -> p <> [] ->
  ((exists e, create_folder t p rm = Raise e) <->
   (exists q, os.is_prefix q p = true /\ os.lookup t q = Some os.File)) /\
  (forall e, create_folder t p rm = Raise e -> e = OSError).
Proof.
  intros Hwf Hp.
  assert (Hfile : (exists q, os.is_prefix q p = true /\ os.lookup t q = Some os.File) ->
                  create_folder t p rm = Raise OSError).
  { intros [q [Hq Hf]]. unfold create_folder.
    assert (Hmk : os.makedirs t p = Raise OSError).
    { apply makedirs_raise; [exact Hwf|]. exists q. auto. }
    destruct rm; cbn [bind]; [|exact Hmk].
    unfold os.path_exists.
    destruct (list_eq_dec string_dec q p) as [->|Hne].
    - rewrite Hf. unfold shutil.rmtree.
      destruct p as [|a p]; [reflexivity|]. cbn [os.lookup] in Hf.
      rewrite Hf. reflexivity.
    - rewrite (file_below_free t p q Hwf Hq Hne Hf). cbn [bind]. exact Hmk. }
  assert (Hok : no_file_on t p -> exists t', create_folder t p rm = Ok t').
  { intros Hno. destruct rm.
    - destruct (create_folder_rm_spec t p Hwf Hp Hno) as [t' [E _]].
      exists t'. exact E.
    - unfold create_folder. cbn [bind].
      destruct (makedirs_spec t p Hwf Hno) as [t' [E _]]. exists t'. exact E. }
  split; [split|].
  - intros [e He]. destruct (file_on_dec t p) as [Hno|Hf]; [|exact Hf].
    destruct (Hok Hno) as [t' E]. congruence.
  - intros Hf. exists OSError. apply Hfile. exact Hf.
  - intros e He. destruct (file_on_dec t p) as [Hno|Hf].
    + destruct (Hok Hno) as [t' E]. congruence.
    + rewrite (Hfile Hf) in He. congruence.
Qed.

(** X19. After a successful [create_folder(path, rm)] on a well-formed
    file system, the path is a directory and calling
    [create_folder(path)] again succeeds and changes nothing. *)
Theorem create_folder_again (t t' : os.tree) (p : os.path) (rm : bool) :
  well_formed_tree t ->
  create_folder t p rm = Ok t' ->
  os.lookup t' p = Some os.Dir /\ create_folder t' p false = Ok t'.
Proof.
  intros Hwf H.
  assert (Hno := create_folder_ok_no_file t t' p rm Hwf H).
  assert (Hdirs : forall q, os.is_prefix q p = true -> os.lookup t' q = Some os.Dir).
  { destruct (list_eq_dec string_dec p []) as [->|Hp].
    - intros q Hq. apply prefix_nil in Hq. subst. reflexivity.
    - destruct rm.
      + destruct (create_folder_rm_spec t p Hwf Hp Hno) as [t2 [E [_ H2]]].
        rewrite E in H. injection H as <-.
        intros q Hq. rewrite H2, Hq. reflexivity.
      + unfold create_folder in H. cbn [bind] in H.
        destruct (makedirs_spec t p Hwf Hno) as [t2 [E H2]].
        rewrite E in H. injection H as <-.
        intros q Hq. rewrite H2, Hq. reflexivity. }
  split; [apply Hdirs, prefix_refl|].
  unfold create_folder. cbn [bind]. apply makedirs_existing. exact Hdirs.
Qed.

(** The sample file system. *)
Lemma sample_tree_wf : well_formed_tree Sample.tree.
Proof.
  assert (Hsnoc : forall (p q : os.path) (c d : string),
             os.path_eqb (p ++ [c]) (q ++ [d]) = true -> p = q).
  { intros p q c d E. apply path_eqb_eq in E. apply app_inj_tail in E. tauto. }
  intros p c H. unfold Sample.tree in H.
  destruct (os.path_eqb (p ++ [c]) ["out"]) eqn:E1.
  { apply (Hsnoc p [] c "out") in E1. subst p. reflexivity. }
  destruct (os.path_eqb (p ++ [c]) ["out"; "old.pkl"]) eqn:E2.
  { apply (Hsnoc p ["out"] c "old.pkl") in E2. subst p. reflexivity. }
  destruct (os.path_eqb (p ++ [c]) ["out"; "v1"]) eqn:E3.
  { apply (Hsnoc p ["out"] c "v1") in E3. subst p. reflexivity. }
  destruct (os.path_eqb (p ++ [c]) ["out"; "v1"; "a.pkl"]) eqn:E4.
  { apply (Hsnoc p ["out"; "v1"] c "a.pkl") in E4. subst p. reflexivity. }
  destruct (os.path_eqb (p ++ [c]) ["notes"]) eqn:E5.
  { apply (Hsnoc p [] c "notes") in E5. subst p. reflexivity. }
  exfalso. apply H. reflexivity.
Qed.

Lemma sample_tree_out : no_file_on Sample.tree ["out"].
Proof.
  intros q Hq H. apply prefix_iff in Hq. destruct Hq as [r Hr].
  destruct q as [|a [|b q]]; [discriminate H| |discriminate Hr].
  injection Hr as <- _. discriminate H.
Qed.

Lemma sample_tree_v2 : no_file_on Sample.tree ["out"; "v2"].
Proof.
  intros q Hq H. apply prefix_iff in Hq. destruct Hq as [r Hr].
  destruct q as [|a [|b [|c q]]]; [discriminate H| | |discriminate Hr].
  - injection Hr as <- _. discriminate H.
  - injection Hr as <- <- _. discriminate H.
Qed.

Lemma create_folder_rm_empties_witness :
  exists t',
    create_folder Sample.tree ["out"] true = Ok t' /\
    well_formed_tree t' /\
    (forall q, os.is_prefix q ["out"] = true -> os.lookup t' q = Some os.Dir) /\
    (forall q, os.is_prefix ["out"] q = true -> q <> ["out"] ->
               os.lookup t' q = None) /\
    (forall q, os.is_prefix q ["out"] = false -> os.is_prefix ["out"] q = false ->
               os.lookup t' q = os.lookup Sample.tree q).
Proof.
  apply (create_folder_rm_empties Sample.tree ["out"]).
  - exact sample_tree_wf.
  - discriminate.
  - exact sample_tree_out.
Defined.

Lemma create_folder_keeps_witness :
  exists t',
    create_folder Sample.tree ["out"; "v2"] false = Ok t' /\
    well_formed_tree t' /\
    (forall q, os.is_prefix q ["out"; "v2"] = true ->
               os.lookup t' q = Some os.Dir) /\
    (forall q, os.is_prefix q ["out"; "v2"] = false ->
               os.lookup t' q = os.lookup Sample.tree q) /\
    (forall q n, os.lookup Sample.tree q = Some n -> os.lookup t' q = Some n).
Proof.
  apply (create_folder_keeps Sample.tree ["out"; "v2"]).
  - exact sample_tree_wf.
  - exact sample_tree_v2.
Defined.

Lemma create_folder_raises_iff_witness :
  ((exists e, create_folder Sample.tree ["notes"; "x"] true = Raise e) <->
   (exists q, os.is_prefix q ["notes"; "x"] = true /\
              os.lookup Sample.tree q = Some os.File)) /\
  (forall e, create_folder Sample.tree ["notes"; "x"] true = Raise e ->
             e = OSError).
Proof.
  apply (create_folder_raises_iff Sample.tree ["notes"; "x"] true).
  - exact sample_tree_wf.
  - discriminate.
Defined.

Lemma create_folder_again_witness :
  os.lookup (os.put Sample.tree ["out"; "v2"] os.Dir) ["out"; "v2"] = Some os.Dir /\
  create_folder (os.put Sample.tree ["out"; "v2"] os.Dir) ["out"; "v2"] false
  = Ok (os.put Sample.tree ["out"; "v2"] os.Dir).
Proof.
  apply (create_folder_again Sample.tree _ ["out"; "v2"] false).
  - exact sample_tree_wf.
  - reflexivity.
Defined.
